(** * Fagun-XSS-Recon: the placeholder URL generator of [reflection.py]

    A shallow embedding of [save_reflected_url], [check_reflection] and
    [process_urls], and of the reading of the URL file in [main], together
    with the parts of Python's [str] and [urllib.parse] they call, and the
    properties of the generator proved over them.

    A Python [str] is represented by its UTF-8 encoding, a Rocq [string].
    Every character the code tests for is ASCII, and no ASCII byte occurs
    inside a multi-byte UTF-8 sequence, so splitting, searching and
    replacing act on the encoding exactly as they act on the code points.
    Only [str.strip] looks at characters outside of ASCII, the white space
    of Unicode: they are recognised by their UTF-8 sequences. *)

From Stdlib Require Import List String Ascii Bool Arith ZArith Lia Permutation.
Import ListNotations.
Open Scope list_scope.
Open Scope string_scope.

(** ** Python's [str] methods used by the script and by [urllib.parse] *)
Module Py.

(** Exceptions that can be raised on the modelled paths. *)
Inductive exn : Type :=
| ValueError (msg : string)
| IndexError (msg : string)
| ZeroDivisionError (msg : string).

(** A computation that returns or raises. *)
Inductive result (A : Type) : Type :=
| Ok (a : A)
| Raise (e : exn).
Arguments Ok {A} a.
Arguments Raise {A} e.

Definition code (a : ascii) : nat := nat_of_ascii a.

Definition between (lo hi : nat) (a : ascii) : bool :=
  Nat.leb lo (code a) && Nat.leb (code a) hi.

(** [c in s] for a one-character [c]. *)
Fixpoint contains (c : ascii) (s : string) : bool :=
  match s with
  | EmptyString => false
  | String a s' => Ascii.eqb a c || contains c s'
  end.

(** [s.split(sep)] for a one-character separator: never the empty list. *)
Fixpoint split (sep : ascii) (s : string) : list string :=
  match s with
  | EmptyString => [EmptyString]
  | String a s' =>
      if Ascii.eqb a sep then EmptyString :: split sep s'
      else match split sep s' with
           | w :: ws => String a w :: ws
           | [] => [String a EmptyString]
           end
  end.

(** [s.partition(sep)]: the text before the first [sep], whether [sep] was
    found, and the text after it. *)
Fixpoint partition (sep : ascii) (s : string) : string * bool * string :=
  match s with
  | EmptyString => (EmptyString, false, EmptyString)
  | String a s' =>
      if Ascii.eqb a sep then (EmptyString, true, s')
      else let '(b, f, r) := partition sep s' in (String a b, f, r)
  end.

(** [s.rpartition(sep)], with the whole of [s] in the third component when
    [sep] does not occur. *)
Fixpoint rpartition (sep : ascii) (s : string) : string * bool * string :=
  match s with
  | EmptyString => (EmptyString, false, EmptyString)
  | String a s' =>
      let '(b, f, r) := rpartition sep s' in
      if f then (String a b, true, r)
      else if Ascii.eqb a sep then (EmptyString, true, s')
      else (EmptyString, false, String a r)
  end.

(** [s.split(sep, 1)]. *)
Definition split1 (sep : ascii) (s : string) : list string :=
  match partition sep s with
  | (b, true, r) => [b; r]
  | (b, false, _) => [b]
  end.

(** [sep.join(l)]. *)
Fixpoint join (sep : string) (l : list string) : string :=
  match l with
  | [] => ""
  | x :: xs =>
      match xs with
      | [] => x
      | _ :: _ => x ++ sep ++ join sep xs
      end
  end.

(** [s.replace(c, by)] for a one-character [c]. *)
Fixpoint replace (c : ascii) (by_ : string) (s : string) : string :=
  match s with
  | EmptyString => EmptyString
  | String a s' =>
      if Ascii.eqb a c then by_ ++ replace c by_ s'
      else String a (replace c by_ s')
  end.

(** [s.lstrip(chars)] for the characters U+0000 to U+0020. *)
Fixpoint lstrip_c0_space (s : string) : string :=
  match s with
  | EmptyString => EmptyString
  | String a s' => if between 0 32 a then lstrip_c0_space s' else s
  end.

Definition is_upper (a : ascii) : bool := between 65 90 a.
Definition is_lower (a : ascii) : bool := between 97 122 a.
Definition is_digit (a : ascii) : bool := between 48 57 a.
(** [c.isascii() and c.isalpha()]. *)
Definition is_ascii_alpha (a : ascii) : bool := is_upper a || is_lower a.
Definition is_ascii (a : ascii) : bool := between 0 127 a.

(** [s.isascii()]. *)
Fixpoint isascii (s : string) : bool :=
  match s with
  | EmptyString => true
  | String a s' => is_ascii a && isascii s'
  end.

(** [s.lower()] on a string of ASCII characters. *)
Fixpoint lower (s : string) : string :=
  match s with
  | EmptyString => EmptyString
  | String a s' =>
      String (if is_upper a then ascii_of_nat (code a + 32) else a) (lower s')
  end.

(** [all(p(c) for c in s)]. *)
Fixpoint all_chars (p : ascii -> bool) (s : string) : bool :=
  match s with
  | EmptyString => true
  | String a s' => p a && all_chars p s'
  end.

(** [s.startswith(t)]. *)
Definition startswith (t s : string) : bool := String.prefix t s.

(** [s[n:]]. *)
Fixpoint drop (n : nat) (s : string) : string :=
  match n, s with
  | S n', String _ s' => drop n' s'
  | _, _ => s
  end.

(** [s[:n]]. *)
Fixpoint take (n : nat) (s : string) : string :=
  match n, s with
  | S n', String a s' => String a (take n' s')
  | _, _ => EmptyString
  end.

(** [x in l] for a list of strings. *)
Definition mem (x : string) (l : list string) : bool :=
  existsb (String.eqb x) l.

(** [bytes.decode('utf-8', 'replace')] on the bytes [s], the result again in
    UTF-8: well-formed sequences are kept, and every maximal ill-formed
    run that CPython's decoder reports as one error becomes U+FFFD. *)
Definition replacement_char : string :=
  String (ascii_of_nat 239) (String (ascii_of_nat 191) (String (ascii_of_nat 189) "")).

Definition is_cont (a : ascii) : bool := between 128 191 a.

(** The second byte of a three-byte sequence led by [b0]. *)
Definition second_of_3 (b0 b1 : ascii) : bool :=
  if Nat.eqb (code b0) 224 then between 160 191 b1
  else if Nat.eqb (code b0) 237 then between 128 159 b1
  else is_cont b1.

(** The second byte of a four-byte sequence led by [b0]. *)
Definition second_of_4 (b0 b1 : ascii) : bool :=
  if Nat.eqb (code b0) 240 then between 144 191 b1
  else if Nat.eqb (code b0) 244 then between 128 143 b1
  else is_cont b1.

Fixpoint decode_utf8_replace (s : string) : string :=
  match s with
  | EmptyString => EmptyString
  | String b0 r0 =>
      if is_ascii b0 then String b0 (decode_utf8_replace r0)
      else if between 194 223 b0 then
        match r0 with
        | EmptyString => replacement_char
        | String b1 r1 =>
            if is_cont b1 then String b0 (String b1 (decode_utf8_replace r1))
            else replacement_char ++ decode_utf8_replace r0
        end
      else if between 224 239 b0 then
        match r0 with
        | EmptyString => replacement_char
        | String b1 r1 =>
            if second_of_3 b0 b1 then
              match r1 with
              | EmptyString => replacement_char
              | String b2 r2 =>
                  if is_cont b2
                  then String b0 (String b1 (String b2 (decode_utf8_replace r2)))
                  else replacement_char ++ decode_utf8_replace r1
              end
            else replacement_char ++ decode_utf8_replace r0
        end
      else if between 240 244 b0 then
        match r0 with
        | EmptyString => replacement_char
        | String b1 r1 =>
            if second_of_4 b0 b1 then
              match r1 with
              | EmptyString => replacement_char
              | String b2 r2 =>
                  if is_cont b2 then
                    match r2 with
                    | EmptyString => replacement_char
                    | String b3 r3 =>
                        if is_cont b3
                        then String b0 (String b1 (String b2 (String b3
                               (decode_utf8_replace r3))))
                        else replacement_char ++ decode_utf8_replace r2
                    end
                  else replacement_char ++ decode_utf8_replace r1
              end
            else replacement_char ++ decode_utf8_replace r0
        end
      else replacement_char ++ decode_utf8_replace r0
  end.

End Py.

(** ** Python's insertion-ordered [dict] with [str] keys *)
Module Dict.

Definition dict (V : Type) : Type := list (string * V).

(** [d.get(k)]. *)
Fixpoint get {V : Type} (d : dict V) (k : string) : option V :=
  match d with
  | [] => None
  | (k', v) :: d' => if String.eqb k' k then Some v else get d' k
  end.

(** [d[k] = v]: a key already present keeps its position, a new key goes
    to the end. *)
Fixpoint set {V : Type} (d : dict V) (k : string) (v : V) : dict V :=
  match d with
  | [] => [(k, v)]
  | (k', v') :: d' =>
      if String.eqb k' k then (k', v) :: d' else (k', v') :: set d' k v
  end.

(** [list(d.keys())]. *)
Definition keys {V : Type} (d : dict V) : list string := map fst d.

(** [list(d.items())]. *)
Definition items {V : Type} (d : dict V) : list (string * V) := d.

(** [d.copy()]: the copy shares nothing that is later mutated. *)
Definition copy {V : Type} (d : dict V) : dict V := d.

End Dict.

(** ** The functions of [urllib.parse] that the script calls (CPython 3.11) *)
Module Urllib.
Import Py.

(** What [urlsplit] defers to other modules of the standard library:
    [ipaddress] and a regular expression for the host between brackets, and
    the Unicode tables of [unicodedata] for a host that is not ASCII.  They
    stay parameters: the generator's properties hold whatever they answer. *)
Record stdlib : Type := {
  (** [_check_bracketed_host(hostname)]: the message of the [ValueError] it
      raises, or [None] when it returns. *)
  check_bracketed_host : string -> option string;
  (** [unicodedata.normalize('NFKC', s)]. *)
  normalize_NFKC : string -> string
}.

(** ParseResult(scheme, netloc, path, params, query, fragment). *)
Record ParseResult : Type := {
  scheme : string;
  netloc : string;
  path : string;
  params : string;
  query : string;
  fragment : string
}.

(** [p._replace(query=q)]. *)
Definition replace_query (p : ParseResult) (q : string) : ParseResult :=
  {| scheme := scheme p; netloc := netloc p; path := path p;
     params := params p; query := q; fragment := fragment p |}.

Definition uses_netloc : list string :=
  [""; "ftp"; "http"; "gopher"; "nntp"; "telnet";
   "imap"; "wais"; "file"; "mms"; "https"; "shttp";
   "snews"; "prospero"; "rtsp"; "rtspu"; "rsync";
   "svn"; "svn+ssh"; "sftp"; "nfs"; "git"; "git+ssh";
   "ws"; "wss"].

Definition uses_params : list string :=
  [""; "ftp"; "hdl"; "prospero"; "http"; "imap";
   "https"; "shttp"; "rtsp"; "rtspu"; "sip"; "sips";
   "mms"; "sftp"; "tel"].

(** [c in scheme_chars]. *)
Definition scheme_char (a : ascii) : bool :=
  is_lower a || is_upper a || is_digit a
  || Ascii.eqb a "+" || Ascii.eqb a "-" || Ascii.eqb a ".".

(** The scheme test of [urlsplit]: [i = url.find(':')], and when [i > 0],
    [url[0]] is an ASCII letter and [url[:i]] has scheme characters only,
    the pair [(url[:i].lower(), url[i+1:])]; otherwise no scheme. *)
Definition split_scheme (url : string) : string * string :=
  match partition ":" url with
  | (String a pre, true, rest) =>
      if is_ascii_alpha a && all_chars scheme_char (String a pre)
      then (lower (String a pre), rest)
      else ("", url)
  | _ => ("", url)
  end.

(** The text of [s] before its first character among [/?#], and the rest. *)
Fixpoint until_delim (s : string) : string * string :=
  match s with
  | EmptyString => (EmptyString, EmptyString)
  | String a s' =>
      if Ascii.eqb a "/" || Ascii.eqb a "?" || Ascii.eqb a "#"
      then (EmptyString, s)
      else let '(d, r) := until_delim s' in (String a d, r)
  end.

(** [_splitnetloc(url, 2)]. *)
Definition _splitnetloc2 (url : string) : string * string :=
  until_delim (drop 2 url).

Definition hex_digit (a : ascii) : bool :=
  is_digit a || between 65 70 a || between 97 102 a.

(** [re.match(r"\Av[a-fA-F0-9]+\..+\Z", hostname)] for a [hostname] that
    starts with [v] and holds no line feed. *)
Fixpoint ipvfuture_tail (seen_hex : bool) (s : string) : bool :=
  match s with
  | EmptyString => false
  | String a s' =>
      if hex_digit a then ipvfuture_tail true s'
      else seen_hex && Ascii.eqb a "." && negb (String.eqb s' "")
  end.

Section WithStdlib.
Variable L : stdlib.

(** [_check_bracketed_host(hostname)]: the IPvFuture test is written out,
    the address test is [ipaddress]'s. *)
Definition _check_bracketed_host (hostname : string) : result unit :=
  if startswith "v" hostname then
    if ipvfuture_tail false (drop 1 hostname) then Ok tt
    else Raise (ValueError "IPvFuture address is invalid")
  else
    match check_bracketed_host L hostname with
    | None => Ok tt
    | Some msg => Raise (ValueError msg)
    end.

(** [_check_bracketed_netloc(netloc)]. *)
Definition _check_bracketed_netloc (netloc : string) : result unit :=
  let hostname_and_port :=
    let '(_, _, after) := rpartition "@" netloc in after in
  let '(before_bracket, have_open_br, bracketed) :=
    partition "[" hostname_and_port in
  if have_open_br then
    if negb (String.eqb before_bracket "") then
      Raise (ValueError "Invalid IPv6 URL")
    else
      let '(hostname, _, port) := partition "]" bracketed in
      if negb (String.eqb port "") && negb (startswith ":" port) then
        Raise (ValueError "Invalid IPv6 URL")
      else _check_bracketed_host hostname
  else
    let '(hostname, _, _) := partition ":" hostname_and_port in
    _check_bracketed_host hostname.

(** [_checknetloc(netloc)]. *)
Definition _checknetloc (netloc : string) : result unit :=
  if String.eqb netloc "" || isascii netloc then Ok tt
  else
    let n := replace "?" "" (replace "#" "" (replace ":" "" (replace "@" "" netloc))) in
    let netloc2 := normalize_NFKC L n in
    if String.eqb n netloc2 then Ok tt
    else if existsb (fun c => contains c netloc2) ["/"; "?"; "#"; "@"; ":"]%char
    then Raise (ValueError ("netloc '" ++ netloc ++ "' contains invalid characters under NFKC normalization"))
    else Ok tt.

(** The block [if url[:2] == '//'] of [urlsplit]: the network location
    and the rest of the URL. *)
Definition split_netloc (url : string) : result (string * string) :=
  if startswith "//" url then
    let '(netloc, url) := _splitnetloc2 url in
    if (contains "[" netloc && negb (contains "]" netloc))
       || (contains "]" netloc && negb (contains "[" netloc))
    then Raise (ValueError "Invalid IPv6 URL")
    else if contains "[" netloc && contains "]" netloc then
      match _check_bracketed_netloc netloc with
      | Ok _ => Ok (netloc, url)
      | Raise e => Raise e
      end
    else Ok (netloc, url)
  else Ok ("", url).

(** [if '#' in url: url, fragment = url.split('#', 1)]. *)
Definition split_fragment (url : string) : string * string :=
  if contains "#" url
  then let '(b, _, r) := partition "#" url in (b, r)
  else (url, "").

(** [if '?' in url: url, query = url.split('?', 1)]. *)
Definition split_query (url : string) : string * string :=
  if contains "?" url
  then let '(b, _, r) := partition "?" url in (b, r)
  else (url, "").

(** [url.lstrip(_WHATWG_C0_CONTROL_OR_SPACE)] with the tabs, carriage
    returns and line feeds removed. *)
Definition sanitize (url : string) : string :=
  replace "010" "" (replace "013" "" (replace "009" "" (lstrip_c0_space url))).

(** SplitResult(scheme, netloc, path, query, fragment) of [urlsplit(url)]. *)
Definition urlsplit (url : string)
  : result (string * string * string * string * string) :=
  let url := sanitize url in
  let '(scheme, url) := split_scheme url in
  match split_netloc url with
  | Raise e => Raise e
  | Ok (netloc, url) =>
      let '(url, fragment) := split_fragment url in
      let '(url, query) := split_query url in
      match _checknetloc netloc with
      | Raise e => Raise e
      | Ok _ => Ok (scheme, netloc, url, query, fragment)
      end
  end.

(** [_splitparams(url)], called when [';' in url]. *)
Definition _splitparams (url : string) : string * string :=
  if contains "/" url then
    let '(dir, _, last) := rpartition "/" url in
    if contains ";" last then
      let '(b, _, r) := partition ";" last in (dir ++ "/" ++ b, r)
    else (url, "")
  else
    let '(b, _, r) := partition ";" url in (b, r).

(** [urlparse(url)]. *)
Definition urlparse (url : string) : result ParseResult :=
  match urlsplit url with
  | Raise e => Raise e
  | Ok (scheme, netloc, url, query, fragment) =>
      let '(url, params) :=
        if mem scheme uses_params && contains ";" url
        then _splitparams url
        else (url, "") in
      Ok {| scheme := scheme; netloc := netloc; path := url;
            params := params; query := query; fragment := fragment |}
  end.

End WithStdlib.

(** The first two statements of [urlunsplit]: the scheme, the network
    location and the path put together. *)
Definition unsplit_hierarchy (scheme netloc url : string) : string :=
  let url :=
    if negb (String.eqb netloc "")
       || (negb (String.eqb scheme "") && mem scheme uses_netloc
           && negb (String.eqb (take 2 url) "//"))
    then
      let url :=
        if negb (String.eqb url "") && negb (String.eqb (take 1 url) "/")
        then "/" ++ url else url in
      "//" ++ netloc ++ url
    else url in
  if negb (String.eqb scheme "") then scheme ++ ":" ++ url else url.

(** [urlunsplit((scheme, netloc, url, query, fragment))]. *)
Definition urlunsplit (scheme netloc url query fragment : string) : string :=
  let url := unsplit_hierarchy scheme netloc url in
  let url := if negb (String.eqb query "") then url ++ "?" ++ query else url in
  let url := if negb (String.eqb fragment "") then url ++ "#" ++ fragment else url in
  url.

(** [urlunparse(p)]. *)
Definition urlunparse (p : ParseResult) : string :=
  let url :=
    if negb (String.eqb (params p) "") then path p ++ ";" ++ params p
    else path p in
  urlunsplit (scheme p) (netloc p) url (query p) (fragment p).

(** The value of a hexadecimal digit. *)
Definition hex_value (a : ascii) : nat :=
  if is_digit a then code a - 48
  else if between 65 70 a then code a - 55
  else code a - 87.

(** One item of [string.split(b'%')[1:]] in [unquote_to_bytes]: the byte of
    its two leading hexadecimal digits and the rest, or [%] and the item. *)
Definition unquote_item (item : string) : string :=
  match item with
  | String h (String l rest) =>
      if hex_digit h && hex_digit l
      then String (ascii_of_nat (16 * hex_value h + hex_value l)) rest
      else String "%" item
  | _ => String "%" item
  end.

(** [unquote_to_bytes(string)]. *)
Definition unquote_to_bytes (s : string) : string :=
  match split "%" s with
  | [] => s
  | bit :: items => String.concat "" (bit :: map unquote_item items)
  end.

(** The loop of [unquote] over [_asciire.split(string)]: each maximal run of
    ASCII characters is unquoted to bytes and decoded, the other characters
    are kept; [run] holds the ASCII run read so far. *)
Fixpoint unquote_runs (run : string) (s : string) : string :=
  match s with
  | EmptyString => decode_utf8_replace (unquote_to_bytes run)
  | String a s' =>
      if is_ascii a then unquote_runs (run ++ String a "") s'
      else decode_utf8_replace (unquote_to_bytes run)
           ++ String a (unquote_runs "" s')
  end.

(** [unquote(string)] with UTF-8 and [errors='replace']. *)
Definition unquote (s : string) : string :=
  if negb (contains "%" s) then s else unquote_runs "" s.

(** [parse_qsl(qs)] with the defaults: blank values dropped, no strict
    parsing, separator [&]. *)
Definition parse_qsl (qs : string) : list (string * string) :=
  let query_args := if String.eqb qs "" then [] else split "&" qs in
  flat_map
    (fun name_value =>
       if String.eqb name_value "" then []
       else
         match split1 "=" name_value with
         | [n; v] =>
             if negb (String.eqb v "")
             then [(unquote (replace "+" " " n), unquote (replace "+" " " v))]
             else []
         | _ => []
         end)
    query_args.

(** One turn of the loop of [parse_qs]. *)
Definition gather (parsed_result : Dict.dict (list string)) (nv : string * string)
  : Dict.dict (list string) :=
  let '(name, value) := nv in
  match Dict.get parsed_result name with
  | Some l => Dict.set parsed_result name (l ++ [value])%list
  | None => Dict.set parsed_result name [value]
  end.

(** [parse_qs(qs)]: the values of [parse_qsl] gathered by name in a dict. *)
Definition parse_qs (qs : string) : Dict.dict (list string) :=
  fold_left gather (parse_qsl qs) [].

End Urllib.

(** ** [reflection.py] *)
Module Reflection.
Import Py Urllib.

(** A value held by the parameter dictionaries: [parse_qs] stores lists of
    strings, the script stores strings. *)
Inductive pyval : Type :=
| PList (l : list string)
| PStr (s : string).

(** What the script prints. *)
Inductive message : Type :=
| MsgSaved (payload_url : string)
| MsgInfo (url : string)
| MsgError (url : string) (e : exn)
| MsgComplete (total processed : nat).

(** The effects of the script on what its threads share: the output file,
    the console and the global [processed_urls].  [EAppend u] is the whole
    of [with open(output_file, 'a') as f: f.write(u + '\n')], taken to
    succeed and to reach the file as one write; [EPrint m] is one call of
    [print].  [processed_urls += 1] reads the global and then writes it,
    two steps of the running thread. *)
Inductive event : Type :=
| EAppend (payload_url : string)
| EPrint (m : message)
| ELoadProcessed
| EStoreProcessed.

(** A computation of the script: the effects it performs, in order, and
    then its value or the exception it raises. *)
Definition M (A : Type) : Type := list event * result A.

Definition ret {A : Type} (a : A) : M A := ([], Ok a).

Definition bind {A B : Type} (m : M A) (f : A -> M B) : M B :=
  match m with
  | (es, Ok a) => let '(es', r) := f a in ((es ++ es')%list, r)
  | (es, Raise e) => (es, Raise e)
  end.

Notation "x <- m ;; k" := (bind m (fun x => k))
  (at level 61, m at next level, right associativity).
Notation "m ;;; k" := (bind m (fun _ => k))
  (at level 61, right associativity).

Definition emit (e : event) : M unit := ([e], Ok tt).

Definition lift {A : Type} (r : result A) : M A := ([], r).

(** [try: body  except Exception as e: handler(e)]. *)
Definition try_except {A : Type} (body : M A) (handler : exn -> M A) : M A :=
  match body with
  | (es, Ok a) => (es, Ok a)
  | (es, Raise e) => let '(es', r) := handler e in ((es ++ es')%list, r)
  end.

(** [try: body  finally: fin]. *)
Definition try_finally {A : Type} (body : M A) (fin : M unit) : M A :=
  let '(es, r) := body in
  match fin with
  | (es', Ok _) => ((es ++ es')%list, r)
  | (es', Raise e) => ((es ++ es')%list, Raise e)
  end.

(** [for x in l: body(x)]. *)
Fixpoint for_ {A : Type} (l : list A) (body : A -> M unit) : M unit :=
  match l with
  | [] => ret tt
  | x :: l' => body x ;;; for_ l' body
  end.

(** [v[0]]. *)
Definition first (l : list string) : result string :=
  match l with
  | x :: _ => Ok x
  | [] => Raise (IndexError "list index out of range")
  end.

(** [{k: f(v) for k, v in d.items()}] for an [f] that can raise; [acc] is
    the dictionary built so far. *)
Fixpoint dict_comprehension (f : pyval -> result pyval) (d : Dict.dict pyval)
    (acc : Dict.dict pyval) : result (Dict.dict pyval) :=
  match d with
  | [] => Ok acc
  | (k, v) :: d' =>
      match f v with
      | Raise e => Raise e
      | Ok v' => dict_comprehension f d' (Dict.set acc k v')
      end
  end.

Definition payload : string := "{payload}".

(** [f"{k}={','.join(v)}" if isinstance(v, list) else f"{k}={v}"]. *)
Definition render (kv : string * pyval) : string :=
  match kv with
  | (k, PList v) => k ++ "=" ++ join "," v
  | (k, PStr v) => k ++ "=" ++ v
  end.

Section WithStdlib.
Variable L : stdlib.

(** [save_reflected_url(original_url, param_name, modified_params, output_file)].
    The output file is the one the whole run appends to, so the argument
    [output_file] is left out; the append and the print are taken to
    succeed, and what the code does when one of them raises is not
    modelled. *)
Definition save_reflected_url (original_url param_name : string)
    (modified_params : Dict.dict pyval) : M unit :=
  let temp_params := Dict.copy modified_params in
  let temp_params := Dict.set temp_params param_name (PStr payload) in
  let query := join "&" (map render (Dict.items temp_params)) in
  parsed <- lift (urlparse L original_url) ;;
  let payload_url := urlunparse (replace_query parsed query) in
  emit (EAppend payload_url) ;;;
  emit (EPrint (MsgSaved payload_url)).

(** The loop of [check_reflection] over [parsed_url.query.split("&")],
    headed "Ensure empty parameters are handled". *)
Definition ensure_empty (query_params : Dict.dict pyval) (query : string)
  : Dict.dict pyval :=
  fold_left
    (fun query_params param =>
       let key_value := split "=" param in
       match key_value with
       | [key] => Dict.set query_params key (PStr "")
       | key :: "" :: _ => Dict.set query_params key (PStr "")
       | _ => query_params
       end)
    (split "&" query) query_params.

(** [query_params] when the loop is left: [parse_qs(parsed_url.query)]
    after [ensure_empty]. *)
Definition build_query_params (query : string) : Dict.dict pyval :=
  ensure_empty (map (fun '(k, v) => (k, PList v)) (parse_qs query)) query.

(** [v[0] if isinstance(v, list) else v]. *)
Definition first_or_self (v : pyval) : result pyval :=
  match v with
  | PList l => match first l with
               | Ok x => Ok (PStr x)
               | Raise e => Raise e
               end
  | PStr s => Ok (PStr s)
  end.

(** [original_params]. *)
Definition build_original_params (query : string) : result (Dict.dict pyval) :=
  dict_comprehension first_or_self (Dict.items (build_query_params query)) [].

(** The body of the [try] in [check_reflection]. *)
Definition check_reflection_body (url : string) : M unit :=
  parsed_url <- lift (urlparse L url) ;;
  original_params <- lift (build_original_params (query parsed_url)) ;;
  for_ (Dict.keys original_params)
    (fun param_name =>
       let modified_params := Dict.copy original_params in
       let modified_params := Dict.set modified_params param_name (PStr payload) in
       save_reflected_url url param_name modified_params) ;;;
  emit (EPrint (MsgInfo url)).

(** [processed_urls += 1]. *)
Definition incr_processed_urls : M unit :=
  emit ELoadProcessed ;;; emit EStoreProcessed.

(** [check_reflection(url, output_file)]. *)
Definition check_reflection (url : string) : M unit :=
  try_finally
    (try_except
       (check_reflection_body url)
       (fun e => emit (EPrint (MsgError url e))))
    incr_processed_urls.

(** [worker(sublist)] of [process_urls]. *)
Definition worker (sublist : list string) : M unit :=
  for_ sublist check_reflection.

End WithStdlib.

(** [l[i:j]]. *)
Definition slice {A : Type} (l : list A) (i j : nat) : list A :=
  firstn (j - i) (skipn i l).

(** [list(range(i, stop, step))] for a positive [step]; [fuel] bounds the
    number of elements. *)
Fixpoint range_from (fuel i stop step : nat) : list nat :=
  match fuel with
  | O => []
  | S fuel' =>
      if Nat.ltb i stop then i :: range_from fuel' (i + step) stop step
      else []
  end.

(** [list(range(0, stop, step))]. *)
Definition range0 (stop step : nat) : list nat := range_from stop 0 stop step.

(** [max(1, len(urls) // threads)], [n] being [len(urls)]. *)
Definition chunk_size (n : nat) (threads : Z) : result nat :=
  if Z.eqb threads 0
  then Raise (ZeroDivisionError "integer division or modulo by zero")
  else Ok (Z.to_nat (Z.max 1 (Z.of_nat n / threads))).

(** The sublists handed to the workers, in the order they are started. *)
Definition chunks (urls : list string) (chunk_size : nat) : list (list string) :=
  map (fun i => slice urls i (i + chunk_size)) (range0 (List.length urls) chunk_size).

(** What the threads share. *)
Record shared : Type := {
  output_file : list string;
  console : list message;
  total_urls : nat;
  processed_urls : nat
}.

(** A worker thread: the value of [processed_urls] it last read, and the
    effects it has yet to perform. *)
Record thread : Type := {
  reg : nat;
  todo : list event
}.

(** One effect of a thread, on its own register and on the shared state. *)
Definition exec (e : event) (r : nat) (g : shared) : nat * shared :=
  match e with
  | EAppend payload_url =>
      (r, {| output_file := (output_file g ++ [payload_url])%list;
             console := console g;
             total_urls := total_urls g;
             processed_urls := processed_urls g |})
  | EPrint m =>
      (r, {| output_file := output_file g;
             console := (console g ++ [m])%list;
             total_urls := total_urls g;
             processed_urls := processed_urls g |})
  | ELoadProcessed => (processed_urls g, g)
  | EStoreProcessed =>
      (r, {| output_file := output_file g;
             console := console g;
             total_urls := total_urls g;
             processed_urls := r + 1 |})
  end.

(** The effects [es] performed in order by one thread with nothing else
    running. *)
Fixpoint run (es : list event) (r : nat) (g : shared) : nat * shared :=
  match es with
  | [] => (r, g)
  | e :: es' => let '(r', g') := exec e r g in run es' r' g'
  end.

(** Where the main thread stands in [process_urls]: in the loop that starts
    the workers, with the indices still to come; in the loop that joins
    them, with the threads still to join; or past the final print. *)
Inductive main_pc : Type :=
| Launching (pending : list nat)
| Joining (pending : list nat)
| Returned.

Record state : Type := {
  main : main_pc;
  thread_list : list thread;
  globals : shared
}.

(** [l] with its [k]-th element replaced. *)
Fixpoint update {A : Type} (l : list A) (k : nat) (x : A) : list A :=
  match l, k with
  | [], _ => []
  | _ :: l', O => x :: l'
  | y :: l', S k' => y :: update l' k' x
  end.

Section Scheduling.
Variable L : stdlib.
Variable urls : list string.
Variable cs : nat.

(** The steps of the process while [process_urls(urls, threads, output_file)]
    runs with chunk size [cs]: the main thread starts a worker, leaves the
    first loop, joins a finished worker or prints and returns; or some started
    worker performs its next effect.  Any interleaving is a run. *)
Inductive step : state -> state -> Prop :=
| step_start : forall i pending ths g,
    step {| main := Launching (i :: pending); thread_list := ths; globals := g |}
         {| main := Launching pending;
            thread_list :=
              (ths ++ [{| reg := 0;
                          todo := fst (worker L (slice urls i (i + cs))) |}])%list;
            globals := g |}
| step_started : forall ths g,
    step {| main := Launching []; thread_list := ths; globals := g |}
         {| main := Joining (seq 0 (List.length ths)); thread_list := ths; globals := g |}
| step_join : forall t pending ths g th,
    nth_error ths t = Some th ->
    todo th = [] ->
    step {| main := Joining (t :: pending); thread_list := ths; globals := g |}
         {| main := Joining pending; thread_list := ths; globals := g |}
| step_return : forall ths g,
    step {| main := Joining []; thread_list := ths; globals := g |}
         {| main := Returned; thread_list := ths;
            globals := snd (exec (EPrint (MsgComplete (total_urls g) (processed_urls g)))
                                 0 g) |}
| step_thread : forall pc ths g k th e rest,
    nth_error ths k = Some th ->
    todo th = e :: rest ->
    step {| main := pc; thread_list := ths; globals := g |}
         {| main := pc;
            thread_list :=
              update ths k {| reg := fst (exec e (reg th) g); todo := rest |};
            globals := snd (exec e (reg th) g) |}.

(** Runs: the reflexive and transitive closure of [step]. *)
Inductive steps : state -> state -> Prop :=
| steps_refl : forall s, steps s s
| steps_step : forall s1 s2 s3, steps s1 s2 -> step s2 s3 -> steps s1 s3.

End Scheduling.

(** [process_urls(urls, threads, output_file)] up to its first loop:
    [total_urls] is set and the chunk size computed. *)
Definition process_urls_start (urls : list string) (threads : Z) (g : shared)
  : result (nat * state) :=
  match chunk_size (List.length urls) threads with
  | Raise e => Raise e
  | Ok cs =>
      Ok (cs,
          {| main := Launching (range0 (List.length urls) cs);
             thread_list := [];
             globals := {| output_file := output_file g;
                           console := console g;
                           total_urls := List.length urls;
                           processed_urls := processed_urls g |} |})
  end.

(** The shared state of a fresh process with an empty output file. *)
Definition empty_shared : shared :=
  {| output_file := []; console := []; total_urls := 0; processed_urls := 0 |}.

(** The URL an effect writes to the output file, if any. *)
Definition written_event (e : event) : list string :=
  match e with
  | EAppend payload_url => [payload_url]
  | _ => []
  end.

(** The URLs written to the output file by the effects [es]. *)
Definition written (es : list event) : list string :=
  flat_map written_event es.

(** A standard library for running examples on URLs with an ASCII host
    without brackets, on which [urlsplit] consults neither function. *)
Definition ascii_stdlib : stdlib :=
  {| check_bracketed_host := fun _ => None;
     normalize_NFKC := fun s => s |}.

End Reflection.

(** ** What the claims speak of, in terms of the code *)
Module Spec.
Import Py Urllib Reflection.

(** The lines [check_reflection] appends to the output file for [url]. *)
Definition lines (L : stdlib) (url : string) : list string :=
  written (fst (check_reflection L url)).

(** [seen] followed by the elements of [l] not met before, in order. *)
Fixpoint dedup_onto (seen l : list string) : list string :=
  match l with
  | [] => seen
  | x :: l' => dedup_onto (if mem x seen then seen else (seen ++ [x])%list) l'
  end.

(** The distinct elements of [l], in order of first occurrence. *)
Definition dedup (l : list string) : list string := dedup_onto [] l.

(** The keys the loop "Ensure empty parameters are handled" stores: the
    text before the first [=] of every [&]-separated segment of the raw
    query that has no [=], or nothing between its first [=] and the next
    one (or the end). *)
Definition blank_keys (query : string) : list string :=
  flat_map
    (fun param =>
       match split "=" param with
       | [key] => [key]
       | key :: "" :: _ => [key]
       | _ => []
       end)
    (split "&" query).

(** The parameter names of a query string as the code knows them: the
    decoded names [parse_qs] keeps, then the raw names of the blank
    segments, without repetition. *)
Definition param_names (query : string) : list string :=
  dedup (map fst (parse_qsl query) ++ blank_keys query)%list.

(** The values [parse_qsl] gives to [name], in order. *)
Definition values_of (name : string) (pairs : list (string * string)) : list string :=
  map snd (filter (fun nv => String.eqb (fst nv) name) pairs).

(** The value the code holds for [name]: empty when some blank segment has
    that raw name, otherwise the first value [parse_qs] decoded for it. *)
Definition param_value (query name : string) : string :=
  if mem name (blank_keys query) then ""
  else hd "" (values_of name (parse_qsl query)).

(** The parameter map as a list of name and value. *)
Definition param_map (query : string) : list (string * string) :=
  map (fun name => (name, param_value query name)) (param_names query).

(** [pairs] with the value of [name] replaced by [{payload}]. *)
Definition with_payload (name : string) (pairs : list (string * string))
  : list (string * string) :=
  map (fun '(k, v) => if String.eqb k name then (k, payload) else (k, v)) pairs.

(** The query string that serialises [pairs]. *)
Definition serialise (pairs : list (string * string)) : string :=
  join "&" (map (fun '(k, v) => k ++ "=" ++ v) pairs).

(** The line generated for [name]: the parsed URL with its query string
    replaced. *)
Definition variant (p : ParseResult) (name : string) : string :=
  urlunparse (replace_query p (serialise (with_payload name (param_map (query p))))).

(** The dictionary [original_params], entry by entry. *)
Definition original (q : string) : Dict.dict pyval :=
  map (fun '(k, v) => (k, PStr v)) (param_map q).

(** The effects of the loop of [check_reflection] for one name: the line
    and the message of [save_reflected_url]. *)
Definition saved (p : ParseResult) (name : string) : list event :=
  [EAppend (variant p name); EPrint (MsgSaved (variant p name))].

(** The write of [processed_urls += 1]. *)
Definition is_store (e : event) : bool :=
  match e with EStoreProcessed => true | _ => false end.

(** The query string [save_reflected_url] builds for [name] from the
    dictionary [d] of [original_params]. *)
Definition line_query (d : Dict.dict pyval) (name : string) : string :=
  join "&" (map render (Dict.items (Dict.set d name (PStr payload)))).

(** The line [save_reflected_url] builds for [name]. *)
Definition line_for (p : ParseResult) (d : Dict.dict pyval) (name : string) : string :=
  urlunparse (replace_query p (line_query d name)).

(** [seg] is a segment of the raw query that names [key] and gives it no
    value: [key] alone, or [key=]. *)
Definition blank_segment (seg key : string) : Prop :=
  contains "=" key = false /\ (seg = key \/ seg = key ++ "=").




(** A name or a value as [parse_qs] decodes it: [+] is read as a space,
    then the percent escapes are. *)
Definition decoded (s : string) : string := unquote (replace "+" " " s).

(** A name that [parse_qs] reads back as it is written: it holds no [&]
    and no [=], and decoding leaves it as it is. *)
Definition read_back (k : string) : Prop :=
  contains "&" k = false /\ contains "=" k = false /\ decoded k = k.

(** The parameter name a segment [name=value] or [name] of a query string
    gives: the text before its first [=], decoded. *)
Definition segment_name (seg : string) : string :=
  decoded (fst (fst (partition "=" seg))).

(** The distinct query parameter names of a query string, in the words of
    the specification: the names of its segments between [&], an empty
    segment giving no parameter. *)
Definition query_parameters (q : string) : list string :=
  dedup (map segment_name
             (filter (fun seg => negb (String.eqb seg "")) (split "&" q))).

(** The parameter count of a URL, in the words of the specification: the
    number of distinct query parameter names of a URL that parses, and
    zero for one that does not. *)
Definition parameter_count (L : stdlib) (url : string) : nat :=
  match urlparse L url with
  | Ok p => List.length (query_parameters (query p))
  | Raise _ => 0
  end.

(** A query string to which the loop "Ensure empty parameters are handled"
    adds no name of its own: no segment is empty, and the name of a
    segment without a value is one that decoding leaves as it is. *)
Definition regular_query (q : string) : Prop :=
  Forall (fun seg => seg <> "") (split "&" q)
  /\ Forall (fun key => decoded key = key) (blank_keys q).

(** The effects the started workers have yet to perform. *)
Definition todo_events (ths : list thread) : list event := flat_map todo ths.

(** The effects of the workers that are not started yet. *)
Definition unstarted_events (L : stdlib) (urls : list string) (cs : nat)
    (pc : main_pc) : list event :=
  match pc with
  | Launching pending =>
      flat_map (fun i => fst (worker L (slice urls i (i + cs)))) pending
  | _ => []
  end.

(** What is observed of the shared state by [obs], with what the workers,
    started or not, have yet to add to it, [proj] giving the part of one
    effect. *)
Definition observable {X : Type} (L : stdlib) (urls : list string) (cs : nat)
    (proj : event -> list X) (obs : shared -> list X) (s : state) : list X :=
  (obs (globals s)
   ++ flat_map proj (todo_events (thread_list s))
   ++ flat_map proj (unstarted_events L urls cs (main s)))%list.

(** A bound on the number of steps a run can still take. *)
Definition fuel_left (L : stdlib) (urls : list string) (cs : nat) (s : state) : nat :=
  List.length (todo_events (thread_list s))
  + match main s with
    | Launching pending =>
        List.length (unstarted_events L urls cs (main s))
        + 2 * List.length pending + List.length (thread_list s) + 2
    | Joining pending => List.length pending + 1
    | Returned => 0
    end.

(** While the main thread joins, it waits for the threads in the order of
    [thread_list], and those it has passed are finished; once it has
    returned, every thread is finished. *)
Definition joined (s : state) : Prop :=
  match main s with
  | Launching _ => True
  | Joining pending =>
      exists j,
        pending = seq j (List.length (thread_list s) - j)
        /\ forall k th, k < j -> nth_error (thread_list s) k = Some th -> todo th = []
  | Returned => Forall (fun th => todo th = []) (thread_list s)
  end.

(** A character that [parse_qs] reads as itself in a name or a value, and
    that ends neither of them: none of [&], [=], [+] and [%]. *)
Definition plain_char (a : ascii) : bool :=
  negb (Ascii.eqb a "&") && negb (Ascii.eqb a "=")
  && negb (Ascii.eqb a "+") && negb (Ascii.eqb a "%").

Definition plain (s : string) : bool := all_chars plain_char s.

(** Names and values that are plain, the names distinct. *)
Definition plain_pairs (pairs : list (string * string)) : Prop :=
  NoDup (map fst pairs)
  /\ Forall (fun kv => plain (fst kv) = true /\ plain (snd kv) = true) pairs.

(** [name=value]. *)
Definition pair_text (kv : string * string) : string :=
  fst kv ++ "=" ++ snd kv.

(** The keys of [d] whose value is the string [{payload}]. *)
Definition payload_keys (d : Dict.dict pyval) : list string :=
  map fst
      (filter (fun kv => match snd kv with
                         | PStr v => String.eqb v payload
                         | PList _ => false
                         end) d).

(** No [?] and no [#]: what stands before the query string. *)
Definition clean (s : string) : Prop :=
  contains "?" s = false /\ contains "#" s = false.

(** None of the characters [urlsplit] removes. *)
Definition no_unsafe (s : string) : Prop :=
  contains "009" s = false /\ contains "013" s = false /\ contains "010" s = false.

End Spec.

(** ** What the further properties speak of *)
Module Coverage.
Import Py Urllib Reflection Spec.

(** [m] is an interleaving of the lists [ls]: every list of [ls] is a
    subsequence of [m], in its own order, and [m] holds nothing else. *)
Inductive Merge {A : Type} : list (list A) -> list A -> Prop :=
| Merge_done : forall ls, Forall (fun l => l = []) ls -> Merge ls []
| Merge_take : forall before x l after m,
    Merge (before ++ l :: after)%list m ->
    Merge (before ++ (x :: l) :: after)%list (x :: m).

(** The lines the workers, started or not, have yet to write, worker by
    worker. *)
Definition pending_lines (L : stdlib) (urls : list string) (cs : nat) (s : state)
  : list (list string) :=
  (map (fun th => written (todo th)) (thread_list s)
   ++ match main s with
      | Launching pending =>
          map (fun i => written (fst (worker L (slice urls i (i + cs))))) pending
      | _ => []
      end)%list.

(** The register of the only worker, when there is one. *)
Definition sole_reg (ths : list thread) : nat :=
  match ths with
  | th :: _ => reg th
  | [] => 0
  end.

(** The number of threads, started or still to start. *)
Definition worker_count (s : state) : nat :=
  List.length (thread_list s)
  + match main s with Launching pending => List.length pending | _ => 0 end.

(** The effects the workers, started or not, have yet to perform. *)
Definition remaining (L : stdlib) (urls : list string) (cs : nat) (s : state)
  : list event :=
  (todo_events (thread_list s) ++ unstarted_events L urls cs (main s))%list.

(** The number of writes of [processed_urls] among the effects [es]. *)
Definition stores (es : list event) : nat :=
  List.length (filter is_store es).

(** The URL a [SAVED] message shows, if the message is one. *)
Definition saved_msg (m : message) : list string :=
  match m with
  | MsgSaved payload_url => [payload_url]
  | _ => []
  end.

Definition saved_event (e : event) : list string :=
  match e with
  | EPrint m => saved_msg m
  | _ => []
  end.

(** The URLs of the [SAVED] messages on the console. *)
Definition saved_urls (console : list message) : list string :=
  flat_map saved_msg console.

(** What an effect prints, if it prints. *)
Definition printed_event (e : event) : list message :=
  match e with
  | EPrint m => [m]
  | _ => []
  end.

(** What the effects [es] print, in order. *)
Definition printed (es : list event) : list message :=
  flat_map printed_event es.

(** The message that closes the handling of [url]. *)
Definition closing_msg (L : stdlib) (url : string) : message :=
  match urlparse L url with
  | Ok _ => MsgInfo url
  | Raise e => MsgError url e
  end.

(** [url + ";" + params] when [params] is not empty, as [urlunparse] has
    it. *)
Definition path_with_params (p : ParseResult) : string :=
  if negb (String.eqb (params p) "") then path p ++ ";" ++ params p
  else path p.

(** The fragment as [urlunsplit] appends it. *)
Definition fragment_suffix (p : ParseResult) : string :=
  if negb (String.eqb (fragment p) "") then "#" ++ fragment p else "".

(** What a run with at most one worker keeps unchanged: performing what is
    left, with nothing else running, ends in the shared state [F]; after the
    return, [F] and the closing message. *)
Definition sequential_invariant (L : stdlib) (urls : list string) (cs : nat)
    (F : shared) (s : state) : Prop :=
  match main s with
  | Returned =>
      globals s
      = snd (exec (EPrint (MsgComplete (total_urls F) (processed_urls F))) 0 F)
  | _ =>
      snd (run (remaining L urls cs s) (sole_reg (thread_list s)) (globals s)) = F
  end.

(** The messages [check_reflection] prints for [url]. *)
Definition url_messages (L : stdlib) (url : string) : list message :=
  (map MsgSaved (lines L url) ++ [closing_msg L url])%list.

(** What every run keeps of the output file: it holds what it held at the
    start and then [done], and whatever interleaving of the lines still to
    come follows, the whole is an interleaving of [init]. *)
Definition merge_invariant (L : stdlib) (urls : list string) (cs : nat)
    (init : list (list string)) (out0 : list string) (s : state) : Prop :=
  exists done,
    output_file (globals s) = (out0 ++ done)%list
    /\ forall m, Merge (pending_lines L urls cs s) m -> Merge init (done ++ m)%list.

(** The lines of the URLs of one chunk, in order. *)
Definition chunk_lines (L : stdlib) (chunk : list string) : list string :=
  flat_map (lines L) chunk.

(** Among the reads and writes of [processed_urls] in [es], a read comes
    first, or there is none. *)
Fixpoint guarded (es : list event) : bool :=
  match es with
  | [] => true
  | ELoadProcessed :: _ => true
  | EStoreProcessed :: _ => false
  | _ :: es' => guarded es'
  end.

(** What every run keeps of [processed_urls], [p0] being its value at the
    start and [n] the number of URLs: the counter, and the value any worker
    holds to write back, are short of [p0 + n] by at least the number of
    writes still to come; the counter is never below [p0], and above it
    once a write is done; a worker that writes next has read a value that
    is not below [p0]. *)
Definition counter_invariant (L : stdlib) (urls : list string) (cs : nat)
    (p0 n : nat) (s : state) : Prop :=
  processed_urls (globals s) + stores (remaining L urls cs s) <= p0 + n
  /\ Forall (fun th => reg th + stores (remaining L urls cs s) <= p0 + n)
            (thread_list s)
  /\ p0 <= processed_urls (globals s)
  /\ (stores (remaining L urls cs s) < n -> p0 + 1 <= processed_urls (globals s))
  /\ Forall (fun th => p0 <= reg th \/ guarded (todo th) = true) (thread_list s).

(** What every run keeps of [total_urls] and of the console: [total_urls]
    is the number of URLs, and after the return the last message is the
    summary, with the counter as it is. *)
Definition summary_invariant (n : nat) (s : state) : Prop :=
  total_urls (globals s) = n
  /\ (main s = Returned ->
      exists c,
        console (globals s)
        = (c ++ [MsgComplete n (processed_urls (globals s))])%list).

(** The effects of one call of [save_reflected_url] that writes [line]. *)
Definition save_effects (line : string) : list event :=
  [EAppend line; EPrint (MsgSaved line)].



(** [c.isspace()] for an ASCII character [c]: U+0009 to U+000D, U+001C to
    U+001F and the space. *)
Definition is_space (a : ascii) : bool :=
  between 9 13 a || between 28 32 a.

(** The UTF-8 bytes [a b] are a white space character of Python: U+0085 or
    U+00A0. *)
Definition is_space2 (a b : ascii) : bool :=
  Nat.eqb (code a) 194 && (Nat.eqb (code b) 133 || Nat.eqb (code b) 160).

(** The UTF-8 bytes [a b c] are a white space character of Python: U+1680,
    U+2000 to U+200A, U+2028, U+2029, U+202F, U+205F or U+3000. *)
Definition is_space3 (a b c : ascii) : bool :=
  (Nat.eqb (code a) 225 && Nat.eqb (code b) 154 && Nat.eqb (code c) 128)
  || (Nat.eqb (code a) 226 && Nat.eqb (code b) 128
      && (between 128 138 c || Nat.eqb (code c) 168 || Nat.eqb (code c) 169
          || Nat.eqb (code c) 175))
  || (Nat.eqb (code a) 226 && Nat.eqb (code b) 129 && Nat.eqb (code c) 159)
  || (Nat.eqb (code a) 227 && Nat.eqb (code b) 128 && Nat.eqb (code c) 128).

(** [s.lstrip()], on the UTF-8 encoding of [s]. *)
Fixpoint lstrip (s : string) : string :=
  match s with
  | EmptyString => EmptyString
  | String a s1 =>
      if is_space a then lstrip s1
      else
        match s1 with
        | EmptyString => s
        | String b s2 =>
            if is_space2 a b then lstrip s2
            else
              match s2 with
              | EmptyString => s
              | String c s3 => if is_space3 a b c then lstrip s3 else s
              end
        end
  end.

(** [s.isspace() or not s]: [s] is made of white space only. *)
Definition blank (s : string) : bool := String.eqb (lstrip s) "".

(** [s.rstrip()]: [s] without its longest suffix of white space. *)
Fixpoint rstrip (s : string) : string :=
  match s with
  | EmptyString => EmptyString
  | String a s' => if blank s then EmptyString else String a (rstrip s')
  end.

(** [s.strip()]. *)
Definition strip (s : string) : string := rstrip (lstrip s).

(** [[line.strip() for line in f if line.strip()]] of [main], [f] giving
    the lines [file_lines]. *)
Definition read_urls (file_lines : list string) : list string :=
  map strip (filter (fun line => negb (String.eqb (strip line) "")) file_lines).

(** What is left of [s] after one leading white space character, if [s]
    starts with one. *)
Definition space_prefix (s : string) : option string :=
  match s with
  | EmptyString => None
  | String a s1 =>
      if is_space a then Some s1
      else
        match s1 with
        | EmptyString => None
        | String b s2 =>
            if is_space2 a b then Some s2
            else
              match s2 with
              | EmptyString => None
              | String c s3 => if is_space3 a b c then Some s3 else None
              end
        end
  end.

(** Runs of a given number of steps. *)
Inductive steps_count (L : stdlib) (urls : list string) (cs : nat)
  : nat -> state -> state -> Prop :=
| steps_count_O : forall s, steps_count L urls cs 0 s s
| steps_count_S : forall n s1 s2 s3,
    steps_count L urls cs n s1 s2 -> step L urls cs s2 s3 ->
    steps_count L urls cs (S n) s1 s3.

(** The number of effects of [check_reflection] on [url]: two for each
    line, the closing message, and the read and the write of the counter. *)
Definition effect_count (L : stdlib) (url : string) : nat :=
  2 * List.length (lines L url) + 3.

(** The URL an [ERROR] message shows, if the message is one. *)
Definition error_msg (m : message) : list string :=
  match m with
  | MsgError url _ => [url]
  | _ => []
  end.

Definition error_event (e : event) : list string :=
  match e with
  | EPrint m => error_msg m
  | _ => []
  end.

(** The URLs of the [ERROR] messages on the console. *)
Definition error_urls (console : list message) : list string :=
  flat_map error_msg console.

(** A URL of ASCII characters that holds no square bracket. *)
Definition bracket_free (url : string) : Prop :=
  contains "[" url = false /\ contains "]" url = false /\ isascii url = true.

End Coverage.

(** ** Properties *)
Module Properties.
Import Py Urllib Reflection Spec.

(** *** Strings and dictionaries *)

Lemma split_not_nil (sep : ascii) (s : string) : split sep s <> [].
Proof.
  induction s as [|a s IH]; simpl; [discriminate|].
  destruct (Ascii.eqb a sep); [discriminate|].
  destruct (split sep s); [contradiction|discriminate].
Qed.

Lemma mem_In (x : string) (l : list string) : mem x l = true <-> In x l.
Proof.
  unfold mem. rewrite existsb_exists. split.
  - intros [y [Hy Heq]]. apply String.eqb_eq in Heq. now subst.
  - intros H. exists x. split; [assumption|apply String.eqb_refl].
Qed.

Lemma mem_false (x : string) (l : list string) : mem x l = false <-> ~ In x l.
Proof.
  rewrite <- mem_In. destruct (mem x l); split; intros; congruence.
Qed.

Section DictFacts.
Context {V : Type}.
Implicit Types (d : Dict.dict V) (k : string) (v : V).

Lemma keys_set d k v :
  Dict.keys (Dict.set d k v)
  = if mem k (Dict.keys d) then Dict.keys d else (Dict.keys d ++ [k])%list.
Proof.
  induction d as [|[k' v'] d IH]; simpl; [reflexivity|].
  rewrite (String.eqb_sym k k').
  destruct (String.eqb k' k) eqn:E; simpl; [reflexivity|].
  unfold Dict.keys in *. rewrite IH.
  unfold mem. destruct (existsb (String.eqb k) (map fst d)); reflexivity.
Qed.

Lemma get_set d k v k' :
  Dict.get (Dict.set d k v) k' = if String.eqb k k' then Some v else Dict.get d k'.
Proof.
  induction d as [|[k0 v0] d IH]; simpl.
  - reflexivity.
  - destruct (String.eqb k0 k) eqn:E; simpl.
    + apply String.eqb_eq in E; subst k0.
      destruct (String.eqb k k'); reflexivity.
    + destruct (String.eqb k0 k') eqn:E'.
      * apply String.eqb_eq in E'; subst k0.
        rewrite String.eqb_sym, E. reflexivity.
      * apply IH.
Qed.

(** Assigning to a key that is present changes that entry where it stands. *)
Lemma set_present d k v :
  NoDup (Dict.keys d) -> In k (Dict.keys d) ->
  Dict.set d k v
  = map (fun kv => if String.eqb (fst kv) k then (fst kv, v) else kv) d.
Proof.
  induction d as [|[k0 v0] d IH]; simpl; intros ND Hin; [contradiction|].
  inversion ND as [|? ? Hnot ND']; subst.
  destruct (String.eqb k0 k) eqn:E.
  - apply String.eqb_eq in E; subst k0. f_equal.
    clear IH ND Hin ND'. induction d as [|[k1 v1] d IH]; simpl; [reflexivity|].
    simpl in Hnot. destruct (String.eqb k1 k) eqn:E1.
    + apply String.eqb_eq in E1. subst. exfalso; auto.
    + f_equal. apply IH. intros H; auto.
  - f_equal. apply IH; [assumption|].
    destruct Hin as [H|H]; [|assumption].
    apply String.eqb_neq in E. contradiction.
Qed.

Lemma set_absent d k v :
  ~ In k (Dict.keys d) -> Dict.set d k v = (d ++ [(k, v)])%list.
Proof.
  induction d as [|[k0 v0] d IH]; simpl; intros Hn; [reflexivity|].
  destruct (String.eqb k0 k) eqn:E.
  - apply String.eqb_eq in E. exfalso; auto.
  - f_equal. apply IH. auto.
Qed.

End DictFacts.

Lemma dedup_onto_app (seen a b : list string) :
  dedup_onto seen (a ++ b) = dedup_onto (dedup_onto seen a) b.
Proof.
  revert seen. induction a as [|x a IH]; simpl; intros; [reflexivity|apply IH].
Qed.

Lemma dedup_onto_NoDup (seen l : list string) :
  NoDup seen -> NoDup (dedup_onto seen l).
Proof.
  revert seen. induction l as [|x l IH]; simpl; intros seen ND; [assumption|].
  apply IH. destruct (mem x seen) eqn:E; [assumption|].
  apply mem_false in E.
  apply NoDup_app; [assumption|constructor; [simpl; tauto|constructor]|].
  intros y Hy [Hx|[]]. subst. contradiction.
Qed.

Lemma dedup_onto_In (seen l : list string) (x : string) :
  In x (dedup_onto seen l) <-> In x seen \/ In x l.
Proof.
  revert seen. induction l as [|y l IH]; simpl; intros seen; [tauto|].
  rewrite IH. destruct (mem y seen) eqn:E.
  - apply mem_In in E. split; [tauto|]. intros [H|[H|H]]; subst; tauto.
  - rewrite in_app_iff. simpl. tauto.
Qed.

Lemma dedup_NoDup (l : list string) : NoDup (dedup l).
Proof. apply dedup_onto_NoDup. constructor. Qed.

Lemma dedup_In (l : list string) (x : string) : In x (dedup l) <-> In x l.
Proof. unfold dedup. rewrite dedup_onto_In. simpl. tauto. Qed.

(** *** The parameter map *)

Lemma parse_qs_unfold (qs : string) :
  parse_qs qs = fold_left gather (parse_qsl qs) [].
Proof. reflexivity. Qed.

Lemma gather_keys (pairs : list (string * string)) (acc : Dict.dict (list string)) :
  Dict.keys (fold_left gather pairs acc)
  = dedup_onto (Dict.keys acc) (map fst pairs).
Proof.
  revert acc. induction pairs as [|[n v] pairs IH]; intros acc; simpl; [reflexivity|].
  rewrite IH. f_equal.
  destruct (Dict.get acc n); apply keys_set.
Qed.

Lemma values_of_cons (k n v : string) (pairs : list (string * string)) :
  values_of k ((n, v) :: pairs)
  = if String.eqb n k then v :: values_of k pairs else values_of k pairs.
Proof. unfold values_of. simpl. destruct (String.eqb n k); reflexivity. Qed.

Lemma gather_get (pairs : list (string * string)) (acc : Dict.dict (list string))
    (k : string) :
  Dict.get (fold_left gather pairs acc) k
  = match Dict.get acc k, values_of k pairs with
    | Some l, vs => Some (l ++ vs)%list
    | None, [] => None
    | None, vs => Some vs
    end.
Proof.
  revert acc. induction pairs as [|[n v] pairs IH]; intros acc.
  - simpl. destruct (Dict.get acc k); [rewrite app_nil_r|]; reflexivity.
  - simpl fold_left. rewrite IH, values_of_cons. unfold gather.
    destruct (Dict.get acc n) eqn:En; rewrite get_set;
      destruct (String.eqb n k) eqn:E.
    + apply String.eqb_eq in E; subst. rewrite En, <- app_assoc. reflexivity.
    + reflexivity.
    + apply String.eqb_eq in E; subst. rewrite En. reflexivity.
    + reflexivity.
Qed.

Lemma ensure_empty_blank_keys (d : Dict.dict pyval) (q : string) :
  ensure_empty d q
  = fold_left (fun d k => Dict.set d k (PStr "")) (blank_keys q) d.
Proof.
  unfold ensure_empty, blank_keys. generalize (split "&" q) as segs.
  intros segs. revert d. induction segs as [|seg segs IH]; intros d; [reflexivity|].
  simpl. rewrite fold_left_app, IH. f_equal.
  destruct (split "=" seg) as [|key [|v rest]]; [reflexivity|reflexivity|].
  destruct v; reflexivity.
Qed.

Lemma blank_fold_keys (ks : list string) (d : Dict.dict pyval) :
  Dict.keys (fold_left (fun d k => Dict.set d k (PStr "")) ks d)
  = dedup_onto (Dict.keys d) ks.
Proof.
  revert d. induction ks as [|k ks IH]; intros d; simpl; [reflexivity|].
  rewrite IH, keys_set. reflexivity.
Qed.

Lemma blank_fold_get (ks : list string) (d : Dict.dict pyval) (k : string) :
  Dict.get (fold_left (fun d k => Dict.set d k (PStr "")) ks d) k
  = if mem k ks then Some (PStr "") else Dict.get d k.
Proof.
  revert d. induction ks as [|k0 ks IH]; intros d; simpl; [reflexivity|].
  rewrite IH, get_set. rewrite (String.eqb_sym k k0).
  destruct (mem k ks), (String.eqb k0 k); reflexivity.
Qed.

Lemma get_map_value {V W : Type} (f : V -> W) (d : Dict.dict V) (k : string) :
  Dict.get (map (fun '(k, v) => (k, f v)) d) k = option_map f (Dict.get d k).
Proof.
  induction d as [|[k0 v0] d IH]; simpl; [reflexivity|].
  destruct (String.eqb k0 k); [reflexivity|apply IH].
Qed.

(** The names the code generates a line for. *)
Lemma build_query_params_keys (q : string) :
  Dict.keys (build_query_params q) = param_names q.
Proof.
  unfold build_query_params, param_names, dedup.
  rewrite ensure_empty_blank_keys, blank_fold_keys, dedup_onto_app. f_equal.
  rewrite parse_qs_unfold.
  replace (Dict.keys (map (fun '(k, v) => (k, PList v)) (fold_left gather (parse_qsl q) [])))
    with (Dict.keys (fold_left gather (parse_qsl q) [])).
  - apply gather_keys.
  - unfold Dict.keys. rewrite map_map. apply map_ext. intros [k v]. reflexivity.
Qed.

Lemma build_query_params_get (q k : string) :
  Dict.get (build_query_params q) k
  = if mem k (blank_keys q) then Some (PStr "")
    else match values_of k (parse_qsl q) with
         | [] => None
         | vs => Some (PList vs)
         end.
Proof.
  unfold build_query_params.
  rewrite ensure_empty_blank_keys, blank_fold_get.
  destruct (mem k (blank_keys q)); [reflexivity|].
  rewrite get_map_value, parse_qs_unfold, gather_get. simpl.
  destruct (values_of k (parse_qsl q)); reflexivity.
Qed.

Lemma param_names_NoDup (q : string) : NoDup (param_names q).
Proof. apply dedup_NoDup. Qed.


Lemma dict_by_keys {V : Type} (d : Dict.dict V) (f : string -> V) :
  NoDup (Dict.keys d) ->
  (forall k, In k (Dict.keys d) -> Dict.get d k = Some (f k)) ->
  d = map (fun k => (k, f k)) (Dict.keys d).
Proof.
  induction d as [|[k0 v0] d IH]; simpl; intros ND Hget; [reflexivity|].
  inversion ND as [|? ? Hnot ND']; subst.
  f_equal.
  - specialize (Hget k0 (or_introl eq_refl)). rewrite String.eqb_refl in Hget.
    congruence.
  - apply IH; [assumption|]. intros k Hk.
    specialize (Hget k (or_intror Hk)).
    destruct (String.eqb k0 k) eqn:E; [|assumption].
    apply String.eqb_eq in E. subst. contradiction.
Qed.

Lemma dict_comprehension_map (f : pyval -> result pyval) (g : pyval -> pyval)
    (d acc : Dict.dict pyval) :
  NoDup (Dict.keys acc ++ Dict.keys d) ->
  (forall kv, In kv d -> f (snd kv) = Ok (g (snd kv))) ->
  dict_comprehension f d acc
  = Ok (acc ++ map (fun kv => (fst kv, g (snd kv))) d)%list.
Proof.
  revert acc. induction d as [|[k v] d IH]; intros acc ND Hf; simpl.
  - rewrite app_nil_r. reflexivity.
  - pose proof (Hf (k, v) (or_introl eq_refl)) as Hkv. simpl in Hkv.
    rewrite Hkv.
    assert (Hk : ~ In k (Dict.keys acc)).
    { intros Hin. apply NoDup_remove_2 in ND. apply ND.
      apply in_or_app. left. assumption. }
    rewrite IH.
    + rewrite (set_absent _ _ _ Hk), <- app_assoc. reflexivity.
    + rewrite (set_absent _ _ _ Hk). unfold Dict.keys in *.
      rewrite map_app, <- app_assoc. simpl. simpl in ND. assumption.
    + intros kv Hin. apply Hf. right. assumption.
Qed.

Lemma original_keys (q : string) : Dict.keys (original q) = param_names q.
Proof.
  unfold original, param_map, Dict.keys. rewrite !map_map. simpl.
  apply map_id.
Qed.

Lemma values_of_nil (k : string) (pairs : list (string * string)) :
  values_of k pairs = [] -> ~ In k (map fst pairs).
Proof.
  induction pairs as [|[n v] pairs IH]; simpl; [tauto|].
  rewrite values_of_cons. destruct (String.eqb n k) eqn:E; [discriminate|].
  apply String.eqb_neq in E. intros H [H1|H1]; [contradiction|]. now apply IH.
Qed.

(** [original_params] is always built: no value that [parse_qs] stores is
    an empty list, so [v[0]] never raises. *)
Lemma build_original_params_ok (q : string) :
  build_original_params q = Ok (original q).
Proof.
  unfold build_original_params, Dict.items.
  pose (val := fun k => if mem k (blank_keys q) then PStr ""
                        else PList (values_of k (parse_qsl q))).
  assert (Hd : build_query_params q
               = map (fun k => (k, val k)) (param_names q)).
  { rewrite <- build_query_params_keys. apply dict_by_keys.
    - rewrite build_query_params_keys. apply param_names_NoDup.
    - intros k Hk. rewrite build_query_params_get. unfold val.
      destruct (mem k (blank_keys q)) eqn:Eb; [reflexivity|].
      destruct (values_of k (parse_qsl q)) eqn:Ev; [|reflexivity].
      exfalso. rewrite build_query_params_keys in Hk.
      apply dedup_In, in_app_or in Hk. destruct Hk as [Hk|Hk].
      + revert Hk. apply values_of_nil. assumption.
      + apply mem_In in Hk. congruence. }
  rewrite Hd.
  rewrite (dict_comprehension_map first_or_self
             (fun v => match v with
                       | PList l => PStr (hd "" l)
                       | PStr s => PStr s
                       end)).
  - simpl. unfold original, param_map. rewrite !map_map.
    apply f_equal, map_ext. intros k. simpl. unfold val, param_value.
    destruct (mem k (blank_keys q)); reflexivity.
  - simpl. unfold Dict.keys. rewrite map_map. simpl. rewrite map_id.
    apply param_names_NoDup.
  - intros [k v] Hin. apply in_map_iff in Hin. destruct Hin as [k' [Heq Hin]].
    inversion Heq; subst. simpl. unfold val.
    destruct (mem k (blank_keys q)) eqn:Eb; [reflexivity|].
    destruct (values_of k (parse_qsl q)) eqn:Ev; [|reflexivity].
    exfalso. apply dedup_In, in_app_or in Hin. destruct Hin as [Hk|Hk].
    + revert Hk. apply values_of_nil. assumption.
    + apply mem_In in Hk. congruence.
Qed.

(** Assigning [{payload}] to a name of [original_params]. *)
Lemma original_set_payload (q name : string) :
  In name (param_names q) ->
  Dict.set (original q) name (PStr payload)
  = map (fun '(k, v) => (k, PStr v)) (with_payload name (param_map q)).
Proof.
  intros Hin. rewrite set_present.
  - unfold original, with_payload. rewrite !map_map. apply map_ext.
    intros [k v]. simpl. destruct (String.eqb k name); reflexivity.
  - rewrite original_keys. apply param_names_NoDup.
  - rewrite original_keys. assumption.
Qed.

Lemma set_set_same {V : Type} (d : Dict.dict V) (k : string) (v : V) :
  Dict.set (Dict.set d k v) k v = Dict.set d k v.
Proof.
  induction d as [|[k0 v0] d IH]; simpl.
  - rewrite String.eqb_refl. reflexivity.
  - destruct (String.eqb k0 k) eqn:E; simpl; rewrite E; [reflexivity|].
    f_equal. apply IH.
Qed.

Lemma render_strings (pairs : list (string * string)) :
  join "&" (map render (map (fun '(k, v) => (k, PStr v)) pairs)) = serialise pairs.
Proof.
  unfold serialise. rewrite map_map. f_equal. apply map_ext. intros [k v].
  reflexivity.
Qed.

Lemma for_ok {A : Type} (l : list A) (body : A -> M unit) (ev : A -> list event) :
  (forall x, In x l -> body x = (ev x, Ok tt)) ->
  for_ l body = (flat_map ev l, Ok tt).
Proof.
  induction l as [|x l IH]; intros H; simpl; [reflexivity|].
  rewrite (H x (or_introl eq_refl)). unfold bind.
  rewrite IH; [reflexivity|]. intros y Hy. apply H. right. assumption.
Qed.

Lemma bind_lift_ok {A B : Type} (a : A) (f : A -> M B) :
  bind (lift (Ok a)) f = f a.
Proof. unfold bind, lift. destruct (f a). reflexivity. Qed.

Section Expander.
Variable L : stdlib.

Lemma check_reflection_parsed (url : string) (p : ParseResult) :
  urlparse L url = Ok p ->
  check_reflection L url
  = ((flat_map (saved p) (param_names (query p))
      ++ [EPrint (MsgInfo url); ELoadProcessed; EStoreProcessed])%list, Ok tt).
Proof.
  intros Hp. unfold check_reflection, check_reflection_body.
  rewrite Hp, bind_lift_ok, build_original_params_ok, bind_lift_ok.
  rewrite original_keys.
  rewrite (for_ok _ _ (saved p)).
  - simpl. rewrite <- app_assoc. reflexivity.
  - intros name Hin. unfold save_reflected_url, Dict.copy, Dict.items.
    rewrite set_set_same, Hp, bind_lift_ok.
    rewrite original_set_payload by assumption.
    rewrite render_strings. reflexivity.
Qed.

Lemma check_reflection_failed (url : string) (e : exn) :
  urlparse L url = Raise e ->
  check_reflection L url
  = ([EPrint (MsgError url e); ELoadProcessed; EStoreProcessed], Ok tt).
Proof.
  intros Hp. unfold check_reflection, check_reflection_body.
  rewrite Hp. reflexivity.
Qed.

Lemma written_saved (p : ParseResult) (names : list string) :
  written (flat_map (saved p) names) = map (variant p) names.
Proof.
  induction names as [|n names IH]; simpl; [reflexivity|].
  f_equal. apply IH.
Qed.

Lemma written_app (a b : list event) :
  written (a ++ b) = (written a ++ written b)%list.
Proof. unfold written. apply flat_map_app. Qed.

(** The lines of a URL that parses: one for each name, in order. *)
Lemma lines_parsed (url : string) (p : ParseResult) :
  urlparse L url = Ok p ->
  lines L url = map (variant p) (param_names (query p)).
Proof.
  intros Hp. unfold lines. rewrite (check_reflection_parsed _ _ Hp). simpl.
  rewrite written_app, written_saved. simpl. apply app_nil_r.
Qed.

Lemma lines_failed (url : string) (e : exn) :
  urlparse L url = Raise e -> lines L url = [].
Proof.
  intros Hp. unfold lines. rewrite (check_reflection_failed _ _ Hp). reflexivity.
Qed.

End Expander.


(** *** The counter and the guarded region *)

Lemma run_app (a b : list event) (r : nat) (g : shared) :
  run (a ++ b) r g = run b (fst (run a r g)) (snd (run a r g)).
Proof.
  revert r g. induction a as [|e a IH]; intros r g; simpl; [reflexivity|].
  destruct (exec e r g) as [r' g']. apply IH.
Qed.

Lemma run_keeps_counter (es : list event) (r : nat) (g : shared) :
  forallb (fun e => negb (is_store e)) es = true ->
  processed_urls (snd (run es r g)) = processed_urls g.
Proof.
  revert r g. induction es as [|e es IH]; intros r g H; simpl in *; [reflexivity|].
  apply andb_true_iff in H. destruct H as [He Hes].
  destruct e; simpl in *; try discriminate; rewrite IH; auto.
Qed.

Lemma saved_no_store (p : ParseResult) (names : list string) :
  forallb (fun e => negb (is_store e)) (flat_map (saved p) names) = true.
Proof. induction names; simpl; auto. Qed.

Lemma worker_cons (L : stdlib) (url : string) (rest : list string) :
  snd (check_reflection L url) = Ok tt ->
  worker L (url :: rest)
  = ((fst (check_reflection L url) ++ fst (worker L rest))%list,
     snd (worker L rest)).
Proof.
  intros H. unfold worker. simpl. unfold bind.
  destruct (check_reflection L url) as [es r]. simpl in H. subst r.
  destruct (for_ rest (check_reflection L)). reflexivity.
Qed.

Lemma check_reflection_returns (L : stdlib) (url : string) :
  snd (check_reflection L url) = Ok tt.
Proof.
  unfold check_reflection, try_finally, try_except.
  destruct (check_reflection_body L url) as [es [[]|e]]; reflexivity.
Qed.

Lemma check_reflection_counts (L : stdlib) (url : string) (r : nat) (g : shared) :
  processed_urls (snd (run (fst (check_reflection L url)) r g))
  = processed_urls g + 1.
Proof.
  destruct (urlparse L url) as [p|e] eqn:Hp.
  - rewrite (check_reflection_parsed _ _ _ Hp). simpl fst.
    rewrite run_app. simpl. f_equal.
    apply run_keeps_counter, saved_no_store.
  - rewrite (check_reflection_failed _ _ _ Hp). reflexivity.
Qed.

(** C6: a failure while one URL is handled never leaves [check_reflection].
    Whatever the URL, the call returns; when the guarded body raises, the
    effects of the call are those the body had before it raised, then the
    error message with the URL and the exception, then the increment of
    the counter, so that no line is written after the failure; the counter
    grows by exactly one, failure or not, for the thread that runs the call
    (no other thread stepping between the read and the write of
    [processed_urls += 1]); and the worker goes on with the URLs that
    follow. *)
Theorem C6_failure_is_caught (L : stdlib) (url : string) :
  snd (check_reflection L url) = Ok tt
  /\ (forall es e,
        check_reflection_body L url = (es, Raise e) ->
        fst (check_reflection L url)
        = (es ++ [EPrint (MsgError url e); ELoadProcessed; EStoreProcessed])%list)
  /\ (forall e, urlparse L url = Raise e -> lines L url = [])
  /\ (forall r g,
        processed_urls (snd (run (fst (check_reflection L url)) r g))
        = processed_urls g + 1)
  /\ (forall rest,
        worker L (url :: rest)
        = ((fst (check_reflection L url) ++ fst (worker L rest))%list,
           snd (worker L rest))).
Proof.
  split; [apply check_reflection_returns|].
  split.
  { intros es e Hb. unfold check_reflection, try_finally, try_except.
    rewrite Hb. simpl. rewrite <- app_assoc. reflexivity. }
  split; [intros e He; apply (lines_failed _ _ _ He)|].
  split; [apply check_reflection_counts|].
  intros rest. apply worker_cons, check_reflection_returns.
Qed.

(** A URL on which [urlparse] raises: the host opens a bracket that is
    never closed.  The call returns, writes nothing, logs the error and
    counts the URL. *)
Lemma C6_failure_is_caught_witness :
  check_reflection ascii_stdlib "http://[abc/page?a=1"
  = ([EPrint (MsgError "http://[abc/page?a=1" (ValueError "Invalid IPv6 URL"));
      ELoadProcessed; EStoreProcessed], Ok tt)
  /\ lines ascii_stdlib "http://[abc/page?a=1" = [].
Proof.
  pose proof (C6_failure_is_caught ascii_stdlib "http://[abc/page?a=1")
    as [Hret [Hlog [Hlines _]]].
  split.
  - rewrite (surjective_pairing (check_reflection _ _)), Hret.
    rewrite (Hlog [] (ValueError "Invalid IPv6 URL") eq_refl). reflexivity.
  - apply (Hlines (ValueError "Invalid IPv6 URL")). reflexivity.
Defined.

(** C4, at the failing input: a URL with an empty query string is given
    one line, for a parameter whose name is the empty string, and is
    counted as processed. *)
Theorem C4_empty_query_emits_a_line :
  lines ascii_stdlib "http://example.com/page"
  = ["http://example.com/page?={payload}"]
  /\ forall r g,
       processed_urls
         (snd (run (fst (check_reflection ascii_stdlib "http://example.com/page")) r g))
       = processed_urls g + 1.
Proof.
  split; [reflexivity|]. intros r g. apply check_reflection_counts.
Qed.

Lemma split_partition (sep : ascii) (s : string) :
  split sep s
  = let '(b, f, r) := partition sep s in
    if f then b :: split sep r else [b].
Proof.
  induction s as [|a s IH]; simpl; [reflexivity|].
  destruct (Ascii.eqb a sep); [reflexivity|].
  rewrite IH. destruct (partition sep s) as [[b f] r].
  destruct f; reflexivity.
Qed.

(** A segment is stored by the loop of [check_reflection] or kept by
    [parse_qsl]. *)
Lemma segment_is_kept (seg : string) :
  (exists key, match split "=" seg with
               | [key'] => key' = key
               | key' :: "" :: _ => key' = key
               | _ => False
               end)
  \/ (seg <> "" /\ exists n v, split1 "=" seg = [n; v] /\ v <> "").
Proof.
  rewrite split_partition. unfold split1.
  destruct (partition "=" seg) as [[b f] r] eqn:Ep.
  destruct f.
  - destruct r as [|c r'].
    + left. exists b. reflexivity.
    + destruct (split "=" (String c r')) as [|v rest] eqn:Es;
        [now apply split_not_nil in Es|].
      destruct v as [|c' v'].
      * left. exists b. reflexivity.
      * right. split.
        -- intros ->. discriminate.
        -- exists b, (String c r'). split; [reflexivity|discriminate].
  - left. exists b. reflexivity.
Qed.

Lemma param_names_not_nil (q : string) : param_names q <> [].
Proof.
  assert (Hin : exists k, In k (map fst (parse_qsl q) ++ blank_keys q)%list).
  { destruct (split "&" q) as [|seg segs] eqn:Es; [now apply split_not_nil in Es|].
    destruct (segment_is_kept seg) as [[key Hk]|[Hne [n [v [Hs Hv]]]]].
    - exists key. apply in_or_app. right. unfold blank_keys. rewrite Es. simpl.
      apply in_or_app. left.
      destruct (split "=" seg) as [|k1 [|v1 rest]]; try contradiction.
      + subst. left. reflexivity.
      + destruct v1; [|contradiction]. subst. left. reflexivity.
    - exists (unquote (replace "+" " " n)). apply in_or_app. left.
      unfold parse_qsl.
      destruct (String.eqb q "") eqn:Eq.
      + apply String.eqb_eq in Eq. subst q. simpl in Es.
        inversion Es; subst. contradiction.
      + rewrite Es. simpl. rewrite map_app. apply in_or_app. left.
        destruct (String.eqb seg "") eqn:E1;
          [apply String.eqb_eq in E1; contradiction|].
        rewrite Hs.
        destruct (String.eqb v "") eqn:E2;
          [apply String.eqb_eq in E2; contradiction|].
        simpl. left. reflexivity. }
  destruct Hin as [k Hk]. apply dedup_In in Hk. fold (param_names q) in Hk.
  destruct (param_names q); [contradiction|discriminate].
Qed.

(** Every URL that parses is given at least one line: the loop over
    [parsed_url.query.split("&")] meets at least one segment, and a segment
    that [parse_qs] drops is one the loop stores. *)
Lemma parsed_url_emits_a_line (L : stdlib) (url : string) (p : ParseResult) :
  urlparse L url = Ok p -> lines L url <> [].
Proof.
  intros Hp. rewrite (lines_parsed _ _ _ Hp).
  pose proof (param_names_not_nil (query p)) as H.
  destruct (param_names (query p)); [congruence|discriminate].
Qed.


(** *** The lines of one URL, read off the dictionary of the code *)

Lemma get_map_keys {V : Type} (f : string -> V) (ks : list string) (k : string) :
  Dict.get (map (fun k => (k, f k)) ks) k
  = if mem k ks then Some (f k) else None.
Proof.
  induction ks as [|k0 ks IH]; simpl; [reflexivity|].
  rewrite (String.eqb_sym k k0).
  destruct (String.eqb k0 k) eqn:E; simpl; [|apply IH].
  apply String.eqb_eq in E. subst. reflexivity.
Qed.

Lemma original_get (q name : string) :
  Dict.get (original q) name
  = if mem name (param_names q) then Some (PStr (param_value q name)) else None.
Proof.
  unfold original, param_map. rewrite map_map. simpl.
  apply (get_map_keys (fun k => PStr (param_value q k))).
Qed.

Lemma get_In {V : Type} (d : Dict.dict V) (k : string) (v : V) :
  Dict.get d k = Some v -> In (k, v) d.
Proof.
  induction d as [|[k0 v0] d IH]; simpl; [discriminate|].
  destruct (String.eqb k0 k) eqn:E.
  - apply String.eqb_eq in E. intros H. inversion H. subst. left. reflexivity.
  - intros H. right. apply IH. assumption.
Qed.

Lemma in_set_other {V : Type} (d : Dict.dict V) (k name : string) (v x : V) :
  In (k, v) d -> k <> name -> In (k, v) (Dict.set d name x).
Proof.
  induction d as [|[k0 v0] d IH]; simpl; [tauto|].
  intros [H|H] Hne.
  - inversion H; subst. apply String.eqb_neq in Hne. rewrite Hne. left. reflexivity.
  - destruct (String.eqb k0 name); right; auto.
Qed.

Lemma in_set_same {V : Type} (d : Dict.dict V) (name : string) (x : V) :
  In (name, x) (Dict.set d name x).
Proof.
  induction d as [|[k0 v0] d IH]; simpl; [left; reflexivity|].
  destruct (String.eqb k0 name) eqn:E.
  - apply String.eqb_eq in E. subst. left. reflexivity.
  - right. assumption.
Qed.

Lemma variant_line_for (p : ParseResult) (name : string) :
  In name (param_names (query p)) ->
  variant p name = line_for p (original (query p)) name.
Proof.
  intros Hin. unfold variant, line_for, line_query, Dict.items.
  rewrite original_set_payload by assumption.
  rewrite render_strings. reflexivity.
Qed.

(** The lines of a URL that parses are those [save_reflected_url] builds
    from [original_params], one for every key, in the order of the keys. *)
Lemma lines_by_dict (L : stdlib) (url : string) (p : ParseResult)
    (d : Dict.dict pyval) :
  urlparse L url = Ok p ->
  build_original_params (query p) = Ok d ->
  lines L url = map (line_for p d) (Dict.keys d).
Proof.
  intros Hp Hd. rewrite build_original_params_ok in Hd.
  inversion Hd; subst d. rewrite original_keys, (lines_parsed _ _ _ Hp).
  apply map_ext_in. intros name Hin. apply variant_line_for. assumption.
Qed.

Lemma partition_absent (sep : ascii) (s : string) :
  contains sep s = false -> partition sep s = (s, false, "").
Proof.
  induction s as [|a s IH]; simpl; [reflexivity|].
  intros H. apply orb_false_iff in H. destruct H as [Ha Hs].
  rewrite Ha, (IH Hs). reflexivity.
Qed.

Lemma partition_first (sep : ascii) (a b : string) :
  contains sep a = false ->
  partition sep (a ++ String sep b) = (a, true, b).
Proof.
  induction a as [|c a IH]; simpl.
  - rewrite Ascii.eqb_refl. reflexivity.
  - intros H. apply orb_false_iff in H. destruct H as [Hc Ha].
    rewrite Hc, (IH Ha). reflexivity.
Qed.

Lemma split_absent (sep : ascii) (s : string) :
  contains sep s = false -> split sep s = [s].
Proof.
  intros H. rewrite split_partition, (partition_absent _ _ H). reflexivity.
Qed.

Lemma split_first (sep : ascii) (a b : string) :
  contains sep a = false ->
  split sep (a ++ String sep b) = a :: split sep b.
Proof.
  intros H. rewrite split_partition, (partition_first _ _ _ H). reflexivity.
Qed.

Lemma blank_segment_key (q seg key : string) :
  In seg (split "&" q) -> blank_segment seg key -> In key (blank_keys q).
Proof.
  intros Hseg [Hkey Hform]. unfold blank_keys. apply in_flat_map.
  exists seg. split; [assumption|].
  destruct Hform as [->| ->].
  - rewrite (split_absent _ _ Hkey). left. reflexivity.
  - rewrite (split_first _ _ _ Hkey). simpl. left. reflexivity.
Qed.

(** C5: a parameter that the query string names without a value, as
    [flag] or as [flag=], is not dropped.  It is a key of
    [original_params] with the empty string as its value; every line
    generated for another name carries [flag=], and the line generated for
    it carries [flag={payload}].  In particular the URL
    [http://example.com/page?x] yields the one line
    [http://example.com/page?x={payload}]. *)
Theorem C5_blank_parameter_is_kept (L : stdlib) (url : string) (p : ParseResult)
    (seg key : string) :
  urlparse L url = Ok p ->
  In seg (split "&" (query p)) ->
  blank_segment seg key ->
  (exists d,
      build_original_params (query p) = Ok d
      /\ In key (Dict.keys d)
      /\ Dict.get d key = Some (PStr "")
      /\ lines L url = map (line_for p d) (Dict.keys d)
      /\ (forall name,
            In name (Dict.keys d) -> name <> key ->
            In (key ++ "=")
               (map render (Dict.items (Dict.set d name (PStr payload)))))
      /\ In (key ++ "=" ++ payload)
            (map render (Dict.items (Dict.set d key (PStr payload)))))
  /\ lines ascii_stdlib "http://example.com/page?x"
     = ["http://example.com/page?x={payload}"].
Proof.
  intros Hp Hseg Hblank. split; [|reflexivity].
  pose proof (blank_segment_key _ _ _ Hseg Hblank) as Hkey.
  assert (Hname : In key (param_names (query p))).
  { apply dedup_In, in_or_app. right. assumption. }
  assert (Hget : Dict.get (original (query p)) key = Some (PStr "")).
  { rewrite original_get. apply mem_In in Hname. rewrite Hname.
    unfold param_value. apply mem_In in Hkey. rewrite Hkey. reflexivity. }
  exists (original (query p)).
  split; [apply build_original_params_ok|].
  split; [rewrite original_keys; assumption|].
  split; [assumption|].
  split; [apply (lines_by_dict _ _ _ _ Hp), build_original_params_ok|].
  split.
  - intros name _ Hne. unfold Dict.items.
    apply (in_map render _ (key, PStr "")).
    apply in_set_other; [apply get_In; assumption|congruence].
  - unfold Dict.items. apply (in_map render _ (key, PStr payload)).
    apply in_set_same.
Qed.

(** The URL [http://example.com/page?flag=&id=7]: the segment [flag=]
    names [flag] without a value. *)
Lemma C5_blank_parameter_is_kept_witness :
  lines ascii_stdlib "http://example.com/page?flag=&id=7"
  = ["http://example.com/page?id={payload}&flag=";
     "http://example.com/page?id=7&flag={payload}"]
  /\ exists d,
       build_original_params "flag=&id=7" = Ok d
       /\ Dict.get d "flag" = Some (PStr "").
Proof.
  split; [reflexivity|].
  destruct (C5_blank_parameter_is_kept ascii_stdlib
              "http://example.com/page?flag=&id=7"
              {| scheme := "http"; netloc := "example.com"; path := "/page";
                 params := ""; query := "flag=&id=7"; fragment := "" |}
              "flag=" "flag" eq_refl (or_introl eq_refl)
              (conj eq_refl (or_intror eq_refl)))
    as [[d [Hd [_ [Hget _]]]] _].
  exists d. split; assumption.
Defined.

Lemma nth_error_set {V : Type} (d : Dict.dict V) (name : string) (x : V)
    (i : nat) (k : string) (v : V) :
  NoDup (Dict.keys d) -> In name (Dict.keys d) ->
  nth_error d i = Some (k, v) ->
  nth_error (Dict.set d name x) i
  = Some (k, if String.eqb k name then x else v).
Proof.
  intros ND Hin Hi. rewrite (set_present _ _ _ ND Hin).
  rewrite nth_error_map, Hi. simpl.
  destruct (String.eqb k name); reflexivity.
Qed.

(** C10: all the lines of one URL serialise the same names in the same
    order.  The line for a name is built from [original_params] with that
    name assigned [{payload}]; the assignment leaves the keys and their
    order as they are, and changes the entry of that name where it stands,
    every other entry keeping its position and its value. *)
Theorem C10_same_names_same_order (L : stdlib) (url : string) (p : ParseResult) :
  urlparse L url = Ok p ->
  exists d,
    build_original_params (query p) = Ok d
    /\ NoDup (Dict.keys d)
    /\ lines L url = map (line_for p d) (Dict.keys d)
    /\ forall name,
         In name (Dict.keys d) ->
         Dict.keys (Dict.set d name (PStr payload)) = Dict.keys d
         /\ forall i k v,
              nth_error d i = Some (k, v) ->
              nth_error (Dict.set d name (PStr payload)) i
              = Some (k, if String.eqb k name then PStr payload else v).
Proof.
  intros Hp. exists (original (query p)).
  assert (ND : NoDup (Dict.keys (original (query p)))).
  { rewrite original_keys. apply param_names_NoDup. }
  split; [apply build_original_params_ok|].
  split; [assumption|].
  split; [apply (lines_by_dict _ _ _ _ Hp), build_original_params_ok|].
  intros name Hin. split.
  - rewrite keys_set. apply mem_In in Hin. rewrite Hin. reflexivity.
  - intros i k v Hi. apply nth_error_set; assumption.
Qed.

(** The URL [http://example.com/page?a=1&b=2&c=3]: three lines, the names
    [a], [b], [c] in that order in each. *)
Lemma C10_same_names_same_order_witness :
  lines ascii_stdlib "http://example.com/page?a=1&b=2&c=3"
  = ["http://example.com/page?a={payload}&b=2&c=3";
     "http://example.com/page?a=1&b={payload}&c=3";
     "http://example.com/page?a=1&b=2&c={payload}"]
  /\ exists d,
       build_original_params "a=1&b=2&c=3" = Ok d
       /\ NoDup (Dict.keys d).
Proof.
  split; [reflexivity|].
  destruct (C10_same_names_same_order ascii_stdlib
              "http://example.com/page?a=1&b=2&c=3"
              {| scheme := "http"; netloc := "example.com"; path := "/page";
                 params := ""; query := "a=1&b=2&c=3"; fragment := "" |}
              eq_refl)
    as [d [Hd [ND _]]].
  exists d. split; assumption.
Defined.






(** *** The stride loop of [process_urls] *)

Lemma range_from_length (fuel i stop step : nat) :
  1 <= step -> stop - i <= fuel ->
  List.length (range_from fuel i stop step) = (stop - i + step - 1) / step.
Proof.
  intros Hstep. revert i. induction fuel as [|fuel IH]; intros i Hfuel; simpl.
  - replace (stop - i + step - 1) with (step - 1) by lia.
    symmetry. apply Nat.div_small. lia.
  - destruct (Nat.ltb i stop) eqn:E.
    + apply Nat.ltb_lt in E. simpl. rewrite IH by lia.
      destruct (Nat.le_gt_cases stop (i + step)) as [Hle|Hgt].
      * replace (stop - (i + step) + step - 1) with (step - 1) by lia.
        rewrite (Nat.div_small (step - 1)) by lia.
        apply (Nat.div_unique _ _ 1 (stop - i - 1)); lia.
      * replace (stop - i + step - 1) with (stop - (i + step) + step - 1 + 1 * step)
          by lia.
        rewrite Nat.div_add by lia. lia.
    + apply Nat.ltb_ge in E. simpl.
      replace (stop - i + step - 1) with (step - 1) by lia.
      symmetry. apply Nat.div_small. lia.
Qed.

(** The number of workers started: the length of [range(0, n, cs)]. *)
Lemma chunks_length (urls : list string) (cs : nat) :
  1 <= cs ->
  List.length (chunks urls cs) = (List.length urls + cs - 1) / cs.
Proof.
  intros H. unfold chunks, range0. rewrite length_map, range_from_length by lia.
  f_equal. lia.
Qed.

Lemma chunk_size_positive (n : nat) (threads : Z) :
  (1 <= threads)%Z ->
  chunk_size n threads = Ok (Nat.max 1 (n / Z.to_nat threads)).
Proof.
  intros H. unfold chunk_size.
  destruct (Z.eqb threads 0) eqn:E; [apply Z.eqb_eq in E; lia|].
  f_equal.
  rewrite <- (Z2Nat.id threads) at 1 by lia.
  rewrite <- Nat2Z.inj_div.
  rewrite Z2Nat.inj_max. simpl Z.to_nat at 1.
  rewrite Nat2Z.id. reflexivity.
Qed.

Lemma concat_range_from (urls : list string) (cs fuel i : nat) :
  1 <= cs -> List.length urls - i <= fuel ->
  List.concat (map (fun i => slice urls i (i + cs))
              (range_from fuel i (List.length urls) cs))
  = skipn i urls.
Proof.
  intros Hcs. revert i. induction fuel as [|fuel IH]; intros i Hfuel; simpl.
  - symmetry. apply skipn_all2. lia.
  - destruct (Nat.ltb i (List.length urls)) eqn:E.
    + simpl. rewrite IH by (apply Nat.ltb_lt in E; lia).
      unfold slice. replace (i + cs - i) with cs by lia.
      rewrite <- (firstn_skipn cs (skipn i urls)) at 2.
      rewrite skipn_skipn. f_equal. f_equal. lia.
    + apply Nat.ltb_ge in E. simpl. symmetry. apply skipn_all2. assumption.
Qed.

(** The chunks are the input list cut at every [cs]-th URL. *)
Lemma concat_chunks (urls : list string) (cs : nat) :
  1 <= cs -> List.concat (chunks urls cs) = urls.
Proof.
  intros H. unfold chunks, range0. rewrite concat_range_from by lia. reflexivity.
Qed.

(** C9, as the code has it: with [n >= 1] URLs and [t >= 1] requested
    workers, the stride is [max(1, n div t)] and the loop starts
    [ceil(n / stride)] workers.  That number exceeds [t] only when [t] does
    not divide [n]; the excess is at most [n mod t], hence the number of
    workers is at most [2t - 1]; and the excess is at most one when
    [n mod t <= n div t]. *)
Theorem C9_workers_started (urls : list string) (threads : Z) :
  1 <= List.length urls ->
  (1 <= threads)%Z ->
  let n := List.length urls in
  let t := Z.to_nat threads in
  exists cs,
    chunk_size n threads = Ok cs
    /\ cs = Nat.max 1 (n / t)
    /\ List.length (chunks urls cs) = (n + cs - 1) / cs
    /\ (t < List.length (chunks urls cs) -> n mod t <> 0)
    /\ List.length (chunks urls cs) <= t + n mod t
    /\ List.length (chunks urls cs) <= 2 * t - 1
    /\ (n mod t <= n / t -> List.length (chunks urls cs) <= t + 1).
Proof.
  intros Hn Ht n t. exists (Nat.max 1 (n / t)).
  split; [apply chunk_size_positive; assumption|].
  split; [reflexivity|].
  assert (Ht' : 1 <= t) by (unfold t; lia).
  rewrite chunks_length by lia. fold n.
  split; [reflexivity|].
  pose proof (Nat.div_mod_eq n t) as Hdm.
  pose proof (Nat.mod_upper_bound n t ltac:(lia)) as Hr.
  set (q := n / t) in *. set (r := n mod t) in *.
  destruct (Nat.eq_dec q 0) as [Hq|Hq].
  - rewrite Hq in *. simpl Nat.max.
    replace (n + 1 - 1) with n by lia. rewrite Nat.div_1_r.
    repeat split; intros; lia.
  - replace (Nat.max 1 q) with q by lia.
    assert (Hw : (n + q - 1) / q <= t + r).
    { apply Nat.lt_succ_r. apply Nat.Div0.div_lt_upper_bound. nia. }
    repeat split.
    + intros Hgt Hr0. rewrite Hr0 in *.
      assert ((n + q - 1) / q < t + 1); [|lia].
      apply Nat.Div0.div_lt_upper_bound. nia.
    + exact Hw.
    + lia.
    + intros Hrq. apply Nat.lt_succ_r.
      apply Nat.Div0.div_lt_upper_bound. nia.
Qed.

(** Five URLs and three requested workers: the stride is one and five
    workers are started, two more than requested. *)
Lemma C9_five_urls_three_workers :
  chunk_size 5 3 = Ok 1
  /\ List.length (chunks ["u1"; "u2"; "u3"; "u4"; "u5"] 1) = 5.
Proof. split; reflexivity. Qed.

(** Seven URLs and two requested workers: the stride is three and three
    workers are started. *)
Lemma C9_workers_started_witness :
  exists cs,
    chunk_size 7 2 = Ok cs
    /\ List.length (chunks ["u1"; "u2"; "u3"; "u4"; "u5"; "u6"; "u7"] cs) <= 3.
Proof.
  destruct (C9_workers_started ["u1"; "u2"; "u3"; "u4"; "u5"; "u6"; "u7"] 2)
    as [cs [Hcs [_ [_ [_ [Hle _]]]]]].
  - simpl. lia.
  - lia.
  - exists cs. split; [exact Hcs|]. simpl in Hle. exact Hle.
Defined.


(** *** Runs of [process_urls] *)

Lemma update_length {A : Type} (l : list A) (k : nat) (x : A) :
  List.length (update l k x) = List.length l.
Proof.
  revert k. induction l as [|y l IH]; intros [|k]; simpl; auto.
Qed.

Lemma nth_error_update_other {A : Type} (l : list A) (k k' : nat) (x : A) :
  k' <> k -> nth_error (update l k x) k' = nth_error l k'.
Proof.
  revert k k'. induction l as [|y l IH]; intros [|k] [|k'] H; simpl; auto.
  congruence.
Qed.

(** The thread list around the thread that takes a step. *)
Lemma update_split (ths : list thread) (k : nat) (th th' : thread) :
  nth_error ths k = Some th ->
  exists before after,
    ths = (before ++ th :: after)%list
    /\ update ths k th' = (before ++ th' :: after)%list.
Proof.
  revert k. induction ths as [|t ths IH]; intros [|k] H; simpl in *;
    try discriminate.
  - inversion H; subst. exists [], ths. split; reflexivity.
  - destruct (IH k H) as [b [a [H1 H2]]].
    exists (t :: b), a. split; simpl; congruence.
Qed.

Lemma todo_events_app (a b : list thread) :
  todo_events (a ++ b) = (todo_events a ++ todo_events b)%list.
Proof. apply flat_map_app. Qed.

Section Runs.
Variable L : stdlib.
Variable urls : list string.
Variable cs : nat.

Lemma step_fuel_left (s s' : state) :
  step L urls cs s s' -> fuel_left L urls cs s' < fuel_left L urls cs s.
Proof.
  intros H. destruct H; unfold fuel_left; simpl.
  - rewrite todo_events_app, !length_app. simpl. rewrite length_app. simpl. lia.
  - rewrite length_seq. lia.
  - lia.
  - lia.
  - destruct (update_split ths k th
                {| reg := fst (exec e (reg th) g); todo := rest |} H)
      as [b [a [H1 H2]]].
    pose proof (update_length ths k
                  {| reg := fst (exec e (reg th) g); todo := rest |}) as Hlen.
    assert (Htodo :
              List.length (todo_events
                 (update ths k {| reg := fst (exec e (reg th) g); todo := rest |}))
              + 1 = List.length (todo_events ths)).
    { rewrite H2. rewrite H1. rewrite !todo_events_app, !length_app.
      unfold todo_events at 2 4. simpl. rewrite H0, !length_app. simpl. lia. }
    destruct pc; simpl; lia.
Qed.

Lemma step_joined (s s' : state) :
  step L urls cs s s' -> joined s -> joined s'.
Proof.
  intros H. destruct H; unfold joined; simpl.
  - trivial.
  - intros _. exists 0. split; [f_equal; lia|]. intros k th' Hk. lia.
  - intros [j [Hp Hdone]].
    assert (Hlen : j < List.length ths).
    { destruct (List.length ths - j) eqn:E; [discriminate|lia]. }
    replace (List.length ths - j) with (S (List.length ths - S j)) in Hp by lia.
    simpl in Hp. inversion Hp; subst.
    exists (S j). split; [reflexivity|].
    intros k th' Hk Hth'.
    destruct (Nat.eq_dec k j) as [->|Hne]; [congruence|].
    apply (Hdone k); [lia|assumption].
  - intros [j [Hp Hdone]].
    assert (Hlen : List.length ths <= j).
    { destruct (List.length ths - j) eqn:E; [lia|discriminate]. }
    apply Forall_forall. intros th' Hin.
    apply In_nth_error in Hin. destruct Hin as [k Hk].
    apply (Hdone k); [|assumption].
    assert (k < List.length ths) by (apply nth_error_Some; congruence). lia.
  - assert (Hkeep : forall k' th',
               nth_error ths k' = Some th' -> todo th' = [] ->
               nth_error (update ths k
                            {| reg := fst (exec e (reg th) g); todo := rest |}) k'
               = Some th').
    { intros k' th' Hk' Hdone.
      destruct (Nat.eq_dec k' k) as [->|Hne]; [congruence|].
      rewrite nth_error_update_other; assumption. }
    destruct pc; [trivial| |].
    + intros [j [Hp Hdone]]. exists j. rewrite update_length.
      split; [assumption|]. intros k' th' Hk' Hth'.
      destruct (Nat.eq_dec k' k) as [->|Hne].
      * exfalso. specialize (Hdone k th Hk' H). congruence.
      * rewrite nth_error_update_other in Hth' by assumption.
        apply (Hdone k'); assumption.
    + intros Hall. exfalso.
      rewrite Forall_forall in Hall.
      specialize (Hall th (nth_error_In _ _ H)). congruence.
Qed.

Lemma steps_joined (s s' : state) :
  steps L urls cs s s' -> joined s -> joined s'.
Proof.
  induction 1; intros Hj; [assumption|].
  eapply step_joined; eauto.
Qed.

Lemma steps_trans (s1 s2 s3 : state) :
  steps L urls cs s1 s2 -> steps L urls cs s2 s3 -> steps L urls cs s1 s3.
Proof.
  intros H12 H23. induction H23 as [|sa sb sc Hab IH Hbc]; [assumption|].
  apply steps_step with sb; [apply IH; assumption|assumption].
Qed.

(** A state that has not returned can take a step. *)
Lemma joined_progress (s : state) :
  joined s -> main s <> Returned -> exists s', step L urls cs s s'.
Proof.
  destruct s as [pc ths g]. unfold joined. simpl. intros Hj Hne.
  destruct pc as [[|i pending]|[|t pending]|].
  - eexists. apply step_started.
  - eexists. apply step_start.
  - eexists. apply step_return.
  - destruct Hj as [j [Hp _]].
    assert (Hlen : j < List.length ths).
    { destruct (List.length ths - j) eqn:E; [discriminate|lia]. }
    replace (List.length ths - j) with (S (List.length ths - S j)) in Hp by lia.
    simpl in Hp. inversion Hp; subst t.
    destruct (nth_error ths j) as [th|] eqn:Hth;
      [|apply nth_error_None in Hth; lia].
    destruct (todo th) as [|e rest] eqn:Htodo.
    + eexists. eapply step_join; eauto.
    + eexists. eapply step_thread; eauto.
  - congruence.
Qed.

(** From every state in which the joined threads are finished the main
    thread can reach its return. *)
Lemma joined_returns (s : state) :
  joined s -> exists s', steps L urls cs s s' /\ main s' = Returned.
Proof.
  remember (fuel_left L urls cs s) as n eqn:Hn.
  revert s Hn. induction n as [n IH] using lt_wf_ind. intros s Hn Hj.
  destruct (main s) eqn:Hm.
  3: { exists s. split; [apply steps_refl|assumption]. }
  all: destruct (joined_progress s Hj) as [s1 Hstep]; [congruence|];
    destruct (IH (fuel_left L urls cs s1)) with (s := s1) as [s' [Hs' Hr]];
    [subst n; apply step_fuel_left; assumption
    |reflexivity
    |eapply step_joined; eauto
    |exists s'; split; [|assumption];
     eapply steps_trans; [|exact Hs'];
     eapply steps_step; [apply steps_refl|assumption]].
Qed.

Lemma step_thread_count (s s' : state) :
  step L urls cs s s' ->
  List.length (thread_list s')
  + match main s' with Launching p => List.length p | _ => 0 end
  = List.length (thread_list s)
    + match main s with Launching p => List.length p | _ => 0 end.
Proof.
  intros H. destruct H; simpl; try lia.
  - rewrite length_app. simpl. lia.
  - rewrite update_length. reflexivity.
Qed.

Section Observation.
Context {X : Type}.
Variable proj : event -> list X.
Variable obs : shared -> list X.
Hypothesis obs_exec :
  forall e r g, obs (snd (exec e r g)) = (obs g ++ proj e)%list.
Hypothesis proj_complete : forall a b, proj (EPrint (MsgComplete a b)) = [].

Lemma step_observable (s s' : state) :
  step L urls cs s s' ->
  Permutation (observable L urls cs proj obs s) (observable L urls cs proj obs s').
Proof.
  intros H. destruct H; unfold observable;
    cbn [main thread_list globals unstarted_events].
  - rewrite todo_events_app, !flat_map_app. unfold todo_events.
    cbn [flat_map todo]. rewrite !flat_map_app, !app_nil_r, <- !app_assoc.
    reflexivity.
  - reflexivity.
  - reflexivity.
  - rewrite obs_exec, proj_complete, !app_nil_r. reflexivity.
  - destruct (update_split ths k th
                {| reg := fst (exec e (reg th) g); todo := rest |} H)
      as [b [a [H1 H2]]].
    rewrite H2, obs_exec. rewrite H1.
    rewrite !todo_events_app. unfold todo_events.
    cbn [flat_map todo]. rewrite H0, !flat_map_app.
    change (flat_map proj (e :: rest)) with (proj e ++ flat_map proj rest)%list.
    rewrite <- !app_assoc.
    apply Permutation_app_head. apply Permutation_app_swap_app.
Qed.

Lemma steps_observable (s s' : state) :
  steps L urls cs s s' ->
  Permutation (observable L urls cs proj obs s) (observable L urls cs proj obs s').
Proof.
  induction 1; [reflexivity|].
  etransitivity; [eassumption|]. apply step_observable. assumption.
Qed.

(** When the main thread has returned, what is observed is all of it. *)
Lemma returned_observable (s : state) :
  joined s -> main s = Returned ->
  observable L urls cs proj obs s = obs (globals s).
Proof.
  unfold joined, observable. intros Hj Hm. rewrite Hm in *. simpl.
  rewrite app_nil_r.
  replace (todo_events (thread_list s)) with (@nil event);
    [simpl; apply app_nil_r|].
  unfold todo_events. induction Hj as [|th ths Hth _ IH]; simpl; [reflexivity|].
  rewrite Hth. assumption.
Qed.

End Observation.
End Runs.


Lemma worker_events (L : stdlib) (l : list string) :
  worker L l = (flat_map (fun url => fst (check_reflection L url)) l, Ok tt).
Proof.
  induction l as [|url l IH]; [reflexivity|].
  rewrite worker_cons by apply check_reflection_returns.
  rewrite IH. reflexivity.
Qed.

Lemma unstarted_all (L : stdlib) (urls : list string) (cs : nat) :
  1 <= cs ->
  unstarted_events L urls cs (Launching (range0 (List.length urls) cs))
  = flat_map (fun url => fst (check_reflection L url)) urls.
Proof.
  intros Hcs. simpl.
  rewrite <- (concat_chunks urls cs Hcs) at 2. unfold chunks.
  generalize (range0 (List.length urls) cs) as is_.
  induction is_ as [|i is_ IH]; simpl; [reflexivity|].
  rewrite flat_map_app, IH, worker_events. reflexivity.
Qed.

Lemma written_check_reflection (L : stdlib) (urls : list string) :
  flat_map written_event (flat_map (fun url => fst (check_reflection L url)) urls)
  = flat_map (lines L) urls.
Proof.
  induction urls as [|url urls IH]; simpl; [reflexivity|].
  rewrite flat_map_app, IH. reflexivity.
Qed.



Lemma output_file_exec (e : event) (r : nat) (g : shared) :
  output_file (snd (exec e r g)) = (output_file g ++ written_event e)%list.
Proof. destruct e; simpl; rewrite ?app_nil_r; reflexivity. Qed.


Lemma parse_qsl_segments (q : string) :
  parse_qsl q
  = flat_map
      (fun name_value =>
         if String.eqb name_value "" then []
         else
           match split1 "=" name_value with
           | [n; v] =>
               if negb (String.eqb v "")
               then [(unquote (replace "+" " " n), unquote (replace "+" " " v))]
               else []
           | _ => []
           end)
      (split "&" q).
Proof.
  unfold parse_qsl. destruct (String.eqb q "") eqn:E; [|reflexivity].
  apply String.eqb_eq in E. subst. reflexivity.
Qed.

Lemma blank_key_of (seg k : string) :
  In k (match split "=" seg with
        | [key] => [key]
        | key :: "" :: _ => [key]
        | _ => []
        end) ->
  k = fst (fst (partition "=" seg)).
Proof.
  rewrite split_partition.
  destruct (partition "=" seg) as [[b f] r]. cbn [fst].
  destruct f.
  - destruct (split "=" r) as [|w ws].
    + intros [<-|[]]. reflexivity.
    + destruct w; [|contradiction]. intros [<-|[]]. reflexivity.
  - intros [<-|[]]. reflexivity.
Qed.

Lemma segment_gives_a_key (q seg : string) :
  In seg (split "&" q) -> seg <> "" ->
  In (segment_name seg) (map fst (parse_qsl q))
  \/ In (fst (fst (partition "=" seg))) (blank_keys q).
Proof.
  intros Hseg Hne. unfold segment_name.
  destruct (partition "=" seg) as [[b f] r] eqn:Ep. cbn [fst].
  assert (Hblank : (f = false \/ r = "") -> In b (blank_keys q)).
  { intros Hf. unfold blank_keys. apply in_flat_map. exists seg.
    split; [assumption|]. rewrite split_partition, Ep.
    destruct Hf as [->| ->].
    - left. reflexivity.
    - destruct f; left; reflexivity. }
  destruct f; [|right; apply Hblank; left; reflexivity].
  destruct (String.eqb_spec r "") as [Hr|Hr]; [right; apply Hblank; right; assumption|].
  left. apply in_map_iff. exists (decoded b, decoded r). split; [reflexivity|].
  rewrite parse_qsl_segments. apply in_flat_map. exists seg.
  split; [assumption|].
  apply String.eqb_neq in Hne. rewrite Hne. unfold split1. rewrite Ep.
  apply String.eqb_neq in Hr. rewrite Hr. left. reflexivity.
Qed.

(** On a regular query string the names the code knows are the query
    parameter names of the specification. *)
Lemma param_names_regular (q k : string) :
  regular_query q -> In k (param_names q) <-> In k (query_parameters q).
Proof.
  intros [Hsegs Hkeys]. unfold param_names, query_parameters.
  rewrite !dedup_In, in_app_iff, (in_map_iff segment_name). split.
  - intros [Hk|Hk].
    + apply in_map_iff in Hk. destruct Hk as ([k' v] & <- & Hin).
      rewrite parse_qsl_segments in Hin. apply in_flat_map in Hin.
      destruct Hin as (seg & Hseg & Hin). exists seg.
      destruct (String.eqb seg "") eqn:Es; [contradiction|].
      split; [|apply filter_In; rewrite Es; auto].
      unfold split1 in Hin. unfold segment_name.
      destruct (partition "=" seg) as [[b f] r]. cbn [fst].
      destruct f; [|contradiction].
      destruct (negb (String.eqb r "")); [|contradiction].
      destruct Hin as [Heq|[]]. injection Heq as <- _. reflexivity.
    + pose proof (proj1 (Forall_forall _ _) Hkeys k Hk) as Hstable.
      unfold blank_keys in Hk. apply in_flat_map in Hk.
      destruct Hk as (seg & Hseg & Hin). exists seg.
      apply blank_key_of in Hin. split.
      * unfold segment_name. rewrite <- Hin. exact Hstable.
      * apply filter_In. split; [assumption|].
        apply negb_true_iff, String.eqb_neq.
        apply (proj1 (Forall_forall _ _) Hsegs seg Hseg).
  - intros (seg & <- & Hin). apply filter_In in Hin. destruct Hin as [Hseg Hne].
    apply negb_true_iff, String.eqb_neq in Hne.
    destruct (segment_gives_a_key q seg Hseg Hne) as [H|H]; [left; assumption|].
    right. unfold segment_name.
    rewrite (proj1 (Forall_forall _ _) Hkeys _ H). exact H.
Qed.

Lemma lines_regular (L : stdlib) (url : string) :
  (forall p, urlparse L url = Ok p -> regular_query (query p)) ->
  List.length (lines L url) = parameter_count L url.
Proof.
  intros Hreg. unfold parameter_count.
  destruct (urlparse L url) as [p|e] eqn:Hp.
  - rewrite (lines_parsed _ _ _ Hp), length_map.
    apply Permutation_length. apply NoDup_Permutation.
    + apply param_names_NoDup.
    + apply dedup_NoDup.
    + intros k. apply param_names_regular, Hreg. reflexivity.
  - rewrite (lines_failed _ _ _ Hp). reflexivity.
Qed.

Lemma flat_map_lines_regular (L : stdlib) (urls : list string) :
  Forall (fun url => forall p, urlparse L url = Ok p -> regular_query (query p))
         urls ->
  List.length (flat_map (lines L) urls) = list_sum (map (parameter_count L) urls).
Proof.
  intros H. induction H as [|url urls Hurl _ IH]; simpl; [reflexivity|].
  rewrite length_app, IH, (lines_regular L url Hurl). reflexivity.
Qed.

Section Distributor.
Variable L : stdlib.
Variable urls : list string.
Variable threads : Z.
Variable g : shared.
Hypothesis threads_positive : (1 <= threads)%Z.

Let cs : nat := Nat.max 1 (List.length urls / Z.to_nat threads).

Let s0 : state :=
  {| main := Launching (range0 (List.length urls) cs);
     thread_list := [];
     globals := {| output_file := output_file g;
                   console := console g;
                   total_urls := List.length urls;
                   processed_urls := processed_urls g |} |}.

Lemma process_urls_start_positive :
  process_urls_start urls threads g = Ok (cs, s0).
Proof.
  unfold process_urls_start.
  rewrite (chunk_size_positive _ _ threads_positive). reflexivity.
Qed.

Lemma cs_positive : 1 <= cs.
Proof. unfold cs. lia. Qed.

Lemma reachable_joined (s : state) : steps L urls cs s0 s -> joined s.
Proof. intros H. apply (steps_joined _ _ _ _ _ H). exact I. Qed.

Lemma reachable_returns (s : state) :
  steps L urls cs s0 s ->
  exists s', steps L urls cs s s' /\ main s' = Returned.
Proof. intros H. apply joined_returns, reachable_joined, H. Qed.

Lemma returned_output (s : state) :
  steps L urls cs s0 s -> main s = Returned ->
  Permutation (output_file (globals s))
              (output_file g ++ flat_map (lines L) urls).
Proof.
  intros Hs Hm.
  pose proof (steps_observable L urls cs written_event output_file
                output_file_exec (fun _ _ => eq_refl) _ _ Hs) as Hperm.
  rewrite (returned_observable L urls cs written_event output_file s
             (reachable_joined _ Hs) Hm) in Hperm.
  symmetry. etransitivity; [|exact Hperm].
  unfold observable, s0. cbn [globals thread_list main output_file].
  rewrite (unstarted_all L urls cs cs_positive), written_check_reflection.
  reflexivity.
Qed.



End Distributor.


(** C3: with a worker count of at least one, whatever the interleaving,
    every run of [process_urls] returns, and the output file then holds
    what it held before and the lines of every URL of the list, each once:
    the same multiset for every worker count.  When the query string of
    every URL that parses is regular, the number of lines written is the
    sum of the parameter counts of the URLs that parse.  It is not for the
    URL [http://example.com/page], which has no parameter and is given one
    line. *)
Theorem C3_lines_whatever_the_worker_count (L : stdlib) (urls : list string)
    (threads : Z) (g : shared) :
  (1 <= threads)%Z ->
  exists cs s0,
    process_urls_start urls threads g = Ok (cs, s0)
    /\ (forall s,
          steps L urls cs s0 s ->
          exists s', steps L urls cs s s' /\ main s' = Returned)
    /\ (forall s,
          steps L urls cs s0 s -> main s = Returned ->
          Permutation (output_file (globals s))
                      (output_file g ++ flat_map (lines L) urls))
    /\ (Forall (fun url =>
                  forall p, urlparse L url = Ok p -> regular_query (query p))
               urls ->
        List.length (flat_map (lines L) urls)
        = list_sum (map (parameter_count L) urls))
    /\ (lines ascii_stdlib "http://example.com/page"
        = ["http://example.com/page?={payload}"]
        /\ parameter_count ascii_stdlib "http://example.com/page" = 0).
Proof.
  intros Ht. eexists _, _.
  split; [apply (process_urls_start_positive urls threads g Ht)|].
  split; [intros s Hs; apply (reachable_returns L urls threads g s Hs)|].
  split; [intros s Hs Hm; apply (returned_output L urls threads g s Hs Hm)|].
  split; [apply flat_map_lines_regular|].
  split; reflexivity.
Qed.


(** *** Query strings of plain names and values *)

Lemma plain_contains (s : string) (c : ascii) :
  plain s = true -> plain_char c = false -> contains c s = false.
Proof.
  intros Hs Hc. induction s as [|a s IH]; simpl in *; [reflexivity|].
  apply andb_true_iff in Hs. destruct Hs as [Ha Hs].
  rewrite (IH Hs), orb_false_r.
  destruct (Ascii.eqb a c) eqn:E; [|reflexivity].
  apply Ascii.eqb_eq in E. subst. congruence.
Qed.

Lemma replace_absent (c : ascii) (by_ s : string) :
  contains c s = false -> replace c by_ s = s.
Proof.
  induction s as [|a s IH]; simpl; [reflexivity|].
  intros H. apply orb_false_iff in H. destruct H as [Ha Hs].
  rewrite Ha, (IH Hs). reflexivity.
Qed.

(** [parse_qs] reads a plain name or value as it is written. *)
Lemma plain_decoded (s : string) :
  plain s = true -> unquote (replace "+" " " s) = s.
Proof.
  intros H. rewrite replace_absent by (apply plain_contains; auto).
  unfold unquote. rewrite (plain_contains s "%" H eq_refl). reflexivity.
Qed.

Lemma split_join (c : ascii) (segs : list string) :
  segs <> [] ->
  Forall (fun s => contains c s = false) segs ->
  split c (join (String c "") segs) = segs.
Proof.
  induction segs as [|x segs IH]; [congruence|].
  intros _ Hall. inversion Hall as [|? ? Hx Hrest]; subst.
  destruct segs as [|y segs].
  - simpl. apply split_absent. assumption.
  - change (join (String c "") (x :: y :: segs))
      with (x ++ String c (join (String c "") (y :: segs))).
    rewrite (split_first _ _ _ Hx). f_equal. apply IH; [discriminate|assumption].
Qed.

Lemma append_not_empty (a : string) (c : ascii) (b : string) :
  String.eqb (a ++ String c b) "" = false.
Proof. destruct a; reflexivity. Qed.

Lemma pair_text_no_amp (kv : string * string) :
  plain (fst kv) = true -> plain (snd kv) = true ->
  contains "&" (pair_text kv) = false.
Proof.
  intros Hk Hv. unfold pair_text.
  pose proof (plain_contains _ "&" Hk eq_refl) as H1.
  pose proof (plain_contains _ "&" Hv eq_refl) as H2.
  induction (fst kv) as [|a k IH]; simpl in *; [assumption|].
  apply orb_false_iff in H1. destruct H1 as [Ha H1].
  rewrite Ha. simpl. apply IH.
  - apply andb_true_iff in Hk. tauto.
  - assumption.
Qed.

Lemma serialise_segments (pairs : list (string * string)) :
  pairs <> [] ->
  Forall (fun kv => plain (fst kv) = true /\ plain (snd kv) = true) pairs ->
  split "&" (serialise pairs) = map pair_text pairs.
Proof.
  intros Hne Hall. unfold serialise.
  replace (map (fun '(k, v) => k ++ "=" ++ v) pairs) with (map pair_text pairs)
    by (apply map_ext; intros [k v]; reflexivity).
  apply split_join.
  - destruct pairs; [congruence|discriminate].
  - apply Forall_map. eapply Forall_impl; [|exact Hall].
    intros kv [Hk Hv]. apply pair_text_no_amp; assumption.
Qed.

(** What [parse_qsl] keeps of a plain query string: the pairs with a
    value. *)
Lemma parse_qsl_serialise (pairs : list (string * string)) :
  pairs <> [] ->
  Forall (fun kv => plain (fst kv) = true /\ plain (snd kv) = true) pairs ->
  parse_qsl (serialise pairs)
  = filter (fun kv => negb (String.eqb (snd kv) "")) pairs.
Proof.
  intros Hne Hall. rewrite parse_qsl_segments, (serialise_segments _ Hne Hall).
  clear Hne. induction Hall as [|[k v] pairs [Hk Hv] _ IH]; [reflexivity|].
  simpl map. simpl flat_map. rewrite IH. simpl in Hk, Hv.
  unfold pair_text at 1 2. simpl fst. simpl snd.
  change (k ++ "=" ++ v) with (k ++ String "=" v).
  rewrite append_not_empty. unfold split1.
  rewrite (partition_first "=" k v (plain_contains _ "=" Hk eq_refl)).
  rewrite !plain_decoded by assumption.
  simpl. destruct (String.eqb v ""); reflexivity.
Qed.

(** What the loop of [check_reflection] stores for a plain query string:
    the names without a value. *)
Lemma blank_keys_serialise (pairs : list (string * string)) :
  pairs <> [] ->
  Forall (fun kv => plain (fst kv) = true /\ plain (snd kv) = true) pairs ->
  blank_keys (serialise pairs)
  = map fst (filter (fun kv => String.eqb (snd kv) "") pairs).
Proof.
  intros Hne Hall. unfold blank_keys. rewrite (serialise_segments _ Hne Hall).
  clear Hne. induction Hall as [|[k v] pairs [Hk Hv] _ IH]; [reflexivity|].
  simpl map. simpl flat_map. rewrite IH. simpl in Hk, Hv.
  unfold pair_text. simpl fst. simpl snd.
  change (k ++ "=" ++ v) with (k ++ String "=" v).
  rewrite (split_first "=" k v (plain_contains _ "=" Hk eq_refl)).
  rewrite (split_absent "=" v (plain_contains _ "=" Hv eq_refl)).
  destruct v; reflexivity.
Qed.

Lemma values_of_unique (pairs : list (string * string)) (k v : string) :
  NoDup (map fst pairs) -> In (k, v) pairs -> values_of k pairs = [v].
Proof.
  induction pairs as [|[k0 v0] pairs IH]; simpl; [tauto|].
  intros ND Hin. inversion ND as [|? ? Hnot ND']; subst.
  rewrite values_of_cons. destruct Hin as [Heq|Hin].
  - inversion Heq; subst. rewrite String.eqb_refl. f_equal.
    destruct (values_of k pairs) eqn:Ev; [reflexivity|].
    exfalso. apply Hnot.
    destruct (in_dec string_dec k (map fst pairs)) as [H|H]; [assumption|].
    exfalso. revert H Ev. clear. induction pairs as [|[n w] pairs IH];
      [discriminate|].
    simpl. rewrite values_of_cons. intros Hn.
    destruct (String.eqb n k) eqn:E.
    + apply String.eqb_eq in E. tauto.
    + apply IH. tauto.
  - destruct (String.eqb k0 k) eqn:E.
    + apply String.eqb_eq in E. subst. exfalso. apply Hnot.
      apply (in_map fst _ (k, v)). assumption.
    + apply IH; assumption.
Qed.

Lemma filter_NoDup_fst (f : string * string -> bool) (pairs : list (string * string)) :
  NoDup (map fst pairs) -> NoDup (map fst (filter f pairs)).
Proof.
  induction pairs as [|kv pairs IH]; simpl; intros ND; [constructor|].
  inversion ND as [|? ? Hnot ND']; subst.
  destruct (f kv); simpl; [|auto].
  constructor; [|auto]. intros Hin. apply Hnot.
  apply in_map_iff in Hin. destruct Hin as [kv' [Heq Hin]].
  apply filter_In in Hin. apply in_map_iff. exists kv'. tauto.
Qed.

(** The value the code holds for a name of a plain query string is the one
    written there. *)
Lemma param_value_serialise (pairs : list (string * string)) (k v : string) :
  plain_pairs pairs -> In (k, v) pairs ->
  param_value (serialise pairs) k = v.
Proof.
  intros [ND Hall] Hin.
  assert (Hne : pairs <> []) by (destruct pairs; [contradiction|discriminate]).
  unfold param_value.
  rewrite (blank_keys_serialise _ Hne Hall), (parse_qsl_serialise _ Hne Hall).
  destruct (String.eqb v "") eqn:Ev.
  - apply String.eqb_eq in Ev. subst v.
    replace (mem k (map fst (filter (fun kv => String.eqb (snd kv) "") pairs)))
      with true; [reflexivity|].
    symmetry. apply mem_In. apply (in_map fst _ (k, "")).
    apply filter_In. split; [assumption|reflexivity].
  - replace (mem k (map fst (filter (fun kv => String.eqb (snd kv) "") pairs)))
      with false.
    + rewrite (values_of_unique _ k v); [reflexivity| |].
      * apply filter_NoDup_fst. assumption.
      * apply filter_In. split; [assumption|]. simpl. rewrite Ev. reflexivity.
    + symmetry. apply mem_false. intros H.
      apply in_map_iff in H. destruct H as [[k' v'] [Hk H]]. simpl in Hk. subst k'.
      apply filter_In in H. destruct H as [H Hv']. simpl in Hv'.
      apply String.eqb_eq in Hv'. subst v'.
      assert (values_of k pairs = [v]) by (apply values_of_unique; assumption).
      assert (values_of k pairs = [""]) by (apply values_of_unique; assumption).
      rewrite String.eqb_neq in Ev. congruence.
Qed.

(** The names the code knows of a plain query string are those written
    there. *)
Lemma param_names_serialise (pairs : list (string * string)) (k : string) :
  plain_pairs pairs -> pairs <> [] ->
  In k (param_names (serialise pairs)) <-> In k (map fst pairs).
Proof.
  intros [ND Hall] Hne. unfold param_names.
  rewrite dedup_In, in_app_iff.
  rewrite (blank_keys_serialise _ Hne Hall), (parse_qsl_serialise _ Hne Hall).
  rewrite !in_map_iff. split.
  - intros [[kv [Hk Hin]]|[kv [Hk Hin]]]; apply filter_In in Hin;
      exists kv; tauto.
  - intros [kv [Hk Hin]].
    destruct (String.eqb (snd kv) "") eqn:E.
    + right. exists kv. split; [assumption|]. apply filter_In. tauto.
    + left. exists kv. split; [assumption|]. apply filter_In.
      split; [assumption|]. rewrite E. reflexivity.
Qed.

Lemma dedup_onto_fresh (seen l : list string) :
  NoDup (seen ++ l) -> dedup_onto seen l = (seen ++ l)%list.
Proof.
  revert seen. induction l as [|x l IH]; intros seen ND; simpl.
  - rewrite app_nil_r. reflexivity.
  - assert (Hx : mem x seen = false).
    { apply mem_false. intros H. apply NoDup_remove_2 in ND. apply ND.
      apply in_or_app. left. assumption. }
    rewrite Hx, IH, <- app_assoc; [reflexivity|].
    rewrite <- app_assoc. assumption.
Qed.

(** A plain query string in which every name has a value is parsed to the
    very pairs it is written from. *)
Lemma param_map_serialise (pairs : list (string * string)) :
  plain_pairs pairs -> pairs <> [] ->
  Forall (fun kv => snd kv <> "") pairs ->
  param_map (serialise pairs) = pairs.
Proof.
  intros Hp Hne Hval. pose proof Hp as [ND Hall].
  assert (Hkeep : filter (fun kv => negb (String.eqb (snd kv) "")) pairs = pairs).
  { clear -Hval. induction Hval as [|kv pairs Hkv _ IH]; [reflexivity|].
    simpl. apply String.eqb_neq in Hkv. rewrite Hkv. simpl. f_equal. assumption. }
  assert (Hdrop : filter (fun kv => String.eqb (snd kv) "") pairs = []).
  { clear -Hval. induction Hval as [|kv pairs Hkv _ IH]; [reflexivity|].
    simpl. apply String.eqb_neq in Hkv. rewrite Hkv. assumption. }
  assert (Hnames : param_names (serialise pairs) = map fst pairs).
  { unfold param_names.
    rewrite (blank_keys_serialise _ Hne Hall), (parse_qsl_serialise _ Hne Hall).
    rewrite Hkeep, Hdrop. simpl. rewrite app_nil_r.
    unfold dedup. apply (dedup_onto_fresh [] (map fst pairs)). assumption. }
  unfold param_map. rewrite Hnames, map_map.
  rewrite <- (map_id pairs) at 2. apply map_ext_in.
  intros [k v] Hin. simpl. f_equal. apply param_value_serialise; assumption.
Qed.


(** C1, as the code has it: a URL that parses is given exactly one line
    for every key of [original_params], that is for every distinct name
    among the decoded names that [parse_qs] keeps and the raw names of the
    segments without a value.  The line for a name is the URL rebuilt by
    [urlunparse] from the parsed components, its query string serialising
    [original_params] with [{payload}] assigned to that name; the other
    names carry the values the dictionary holds, which are the decoded
    ones, not the text of the original URL.  When the query string is
    [n1=v1&...&nk=vk] with distinct names, no empty value and none of
    [&], [=], [+], [%] in a name or a value, the dictionary holds exactly
    these pairs: there are [k] lines, and the line for [ni] is rebuilt
    with the same query string but for [vi], replaced by [{payload}]. *)
Theorem C1_one_line_per_parameter (L : stdlib) (url : string) (p : ParseResult) :
  urlparse L url = Ok p ->
  exists d,
    build_original_params (query p) = Ok d
    /\ NoDup (Dict.keys d)
    /\ (forall name,
          In name (Dict.keys d)
          <-> In name (map fst (parse_qsl (query p)))
              \/ In name (blank_keys (query p)))
    /\ lines L url = map (line_for p d) (Dict.keys d)
    /\ List.length (lines L url) = List.length (Dict.keys d)
    /\ (forall pairs,
          plain_pairs pairs ->
          pairs <> [] ->
          Forall (fun kv => snd kv <> "") pairs ->
          query p = serialise pairs ->
          d = map (fun '(k, v) => (k, PStr v)) pairs
          /\ List.length (lines L url) = List.length pairs
          /\ lines L url
             = map (fun name =>
                      urlunparse
                        (replace_query p (serialise (with_payload name pairs))))
                   (map fst pairs)).
Proof.
  intros Hp. exists (original (query p)).
  pose proof (lines_by_dict L url p _ Hp (build_original_params_ok (query p)))
    as Hlines.
  split; [apply build_original_params_ok|].
  split; [rewrite original_keys; apply param_names_NoDup|].
  split.
  { intros name. rewrite original_keys. unfold param_names.
    rewrite dedup_In, in_app_iff. reflexivity. }
  split; [assumption|].
  split; [rewrite Hlines; apply length_map|].
  intros pairs Hplain Hne Hval Hq.
  assert (Hmap : param_map (query p) = pairs).
  { rewrite Hq. apply param_map_serialise; assumption. }
  assert (Hnames : param_names (query p) = map fst pairs).
  { rewrite <- Hmap. unfold param_map. rewrite map_map. simpl.
    symmetry. apply map_id. }
  split; [unfold original; rewrite Hmap; reflexivity|].
  rewrite (lines_parsed L url p Hp), Hnames.
  split; [rewrite !length_map; reflexivity|].
  apply map_ext. intros name. unfold variant. rewrite Hmap. reflexivity.
Qed.

(** The value of [a] is written [%41] in the URL and [A] in the line for
    [b]: that line is not the original URL with the value of [b] replaced. *)
Lemma C1_other_values_are_decoded :
  lines ascii_stdlib "http://example.com/page?a=%41&b=2"
  = ["http://example.com/page?a={payload}&b=2";
     "http://example.com/page?a=A&b={payload}"]
  /\ ~ In "http://example.com/page?a=%41&b={payload}"
          (lines ascii_stdlib "http://example.com/page?a=%41&b=2").
Proof.
  split; [reflexivity|].
  simpl. intros [H|[H|[]]]; discriminate.
Qed.

(** The URL [http://example.com/page?a=1&b=2] of the specification. *)
Lemma C1_one_line_per_parameter_witness :
  lines ascii_stdlib "http://example.com/page?a=1&b=2"
  = ["http://example.com/page?a={payload}&b=2";
     "http://example.com/page?a=1&b={payload}"]
  /\ exists d,
       build_original_params "a=1&b=2" = Ok d
       /\ d = [("a", PStr "1"); ("b", PStr "2")].
Proof.
  split; [reflexivity|].
  destruct (C1_one_line_per_parameter ascii_stdlib
              "http://example.com/page?a=1&b=2"
              {| scheme := "http"; netloc := "example.com"; path := "/page";
                 params := ""; query := "a=1&b=2"; fragment := "" |}
              eq_refl)
    as [d [Hd [_ [_ [_ [_ Hplain]]]]]].
  exists d. split; [exact Hd|].
  apply (Hplain [("a", "1"); ("b", "2")]).
  - split.
    + simpl. repeat constructor; simpl; intuition discriminate.
    + repeat constructor.
  - discriminate.
  - repeat constructor; discriminate.
  - reflexivity.
Defined.

Lemma NoDup_singleton (l : list string) (a : string) :
  NoDup l -> (forall x, In x l <-> x = a) -> l = [a].
Proof.
  intros ND H. destruct l as [|x l].
  - exfalso. apply (H a). reflexivity.
  - assert (x = a) by (apply H; left; reflexivity). subst x.
    f_equal. destruct l as [|y l]; [reflexivity|].
    exfalso. inversion ND as [|? ? Hnot _]; subst.
    apply Hnot. assert (y = a) by (apply H; right; left; reflexivity).
    subst. left. reflexivity.
Qed.

Lemma payload_keys_original (q : string) :
  payload_keys (original q)
  = filter (fun k => String.eqb (param_value q k) payload) (param_names q).
Proof.
  unfold payload_keys, original, param_map. rewrite map_map. simpl.
  induction (param_names q) as [|k ks IH]; simpl; [reflexivity|].
  destruct (String.eqb (param_value q k) payload); simpl; rewrite IH; reflexivity.
Qed.

Lemma with_payload_fst (name : string) (pairs : list (string * string)) :
  map fst (with_payload name pairs) = map fst pairs.
Proof.
  unfold with_payload. rewrite map_map. apply map_ext. intros [k v].
  destruct (String.eqb k name); reflexivity.
Qed.

Lemma with_payload_In (name : string) (pairs : list (string * string)) (k v : string) :
  In (k, v) (with_payload name pairs) ->
  (k = name /\ v = payload) \/ (k <> name /\ In (k, v) pairs).
Proof.
  unfold with_payload. rewrite in_map_iff. intros [[k0 v0] [Heq Hin]].
  destruct (String.eqb k0 name) eqn:E; inversion Heq; subst.
  - apply String.eqb_eq in E. left. tauto.
  - apply String.eqb_neq in E. right. tauto.
Qed.


(** The same URLs and three requested workers: some run reaches the return
    of [process_urls], and there the output file holds the three lines,
    as many as the two URLs that parse have parameters. *)
Lemma C3_lines_whatever_the_worker_count_witness :
  exists cs s0 s,
    process_urls_start
      ["http://example.com/page?a=1&b=2"; "http://[abc/"; "http://example.com/page?x"]
      3 empty_shared = Ok (cs, s0)
    /\ steps ascii_stdlib
         ["http://example.com/page?a=1&b=2"; "http://[abc/"; "http://example.com/page?x"]
         cs s0 s
    /\ main s = Returned
    /\ Permutation (output_file (globals s))
         ["http://example.com/page?a={payload}&b=2";
          "http://example.com/page?a=1&b={payload}";
          "http://example.com/page?x={payload}"]
    /\ list_sum
         (map (parameter_count ascii_stdlib)
              ["http://example.com/page?a=1&b=2"; "http://[abc/";
               "http://example.com/page?x"])
       = 3.
Proof.
  destruct (C3_lines_whatever_the_worker_count ascii_stdlib
              ["http://example.com/page?a=1&b=2"; "http://[abc/";
               "http://example.com/page?x"]
              3 empty_shared ltac:(lia))
    as [cs [s0 [Hstart [Hreturns [Hout [Hcount _]]]]]].
  destruct (Hreturns s0 (steps_refl _ _ _ s0)) as [s [Hs Hm]].
  exists cs, s0, s.
  split; [exact Hstart|]. split; [exact Hs|]. split; [exact Hm|].
  split; [apply (Hout s Hs Hm)|].
  rewrite <- Hcount; [reflexivity|].
  apply Forall_cons; [|apply Forall_cons; [|apply Forall_cons; [|apply Forall_nil]]];
    intros p Hp; vm_compute in Hp; try discriminate Hp; injection Hp as <-;
    (split; cbn; repeat (apply Forall_cons; [try discriminate; try reflexivity|]);
     apply Forall_nil).
Defined.


(** *** Parsing a generated line again *)

Lemma contains_app (c : ascii) (a b : string) :
  contains c (a ++ b) = contains c a || contains c b.
Proof.
  induction a as [|x a IH]; simpl; [reflexivity|].
  rewrite IH. apply orb_assoc.
Qed.

Lemma partition_spec (c : ascii) (s : string) :
  contains c (fst (fst (partition c s))) = false
  /\ snd (fst (partition c s)) = contains c s
  /\ s = if snd (fst (partition c s))
         then fst (fst (partition c s)) ++ String c (snd (partition c s))
         else fst (fst (partition c s)).
Proof.
  induction s as [|a s IH]; simpl; [auto|].
  destruct (Ascii.eqb a c) eqn:E.
  - apply Ascii.eqb_eq in E. subst. simpl. auto.
  - destruct (partition c s) as [[b f] r]. simpl in *.
    destruct IH as [Hb [Hf Hs]]. rewrite E, Hb. repeat split; auto.
    destruct f; simpl; congruence.
Qed.

Lemma partition_contains (d c : ascii) (s : string) :
  contains d s = false ->
  contains d (fst (fst (partition c s))) = false
  /\ contains d (snd (partition c s)) = false.
Proof.
  induction s as [|a s IH]; simpl; [auto|].
  intros H. apply orb_false_iff in H. destruct H as [Ha Hs].
  destruct (Ascii.eqb a c); [simpl; auto|].
  destruct (partition c s) as [[b f] r]. simpl in *.
  destruct (IH Hs) as [Hb Hr]. rewrite Ha, Hb. auto.
Qed.

Lemma rpartition_contains (d c : ascii) (s : string) :
  contains d s = false ->
  contains d (fst (fst (rpartition c s))) = false
  /\ contains d (snd (rpartition c s)) = false.
Proof.
  induction s as [|a s IH]; simpl; [auto|].
  intros H. apply orb_false_iff in H. destruct H as [Ha Hs].
  destruct (rpartition c s) as [[b f] r]. simpl in *.
  destruct (IH Hs) as [Hb Hr].
  destruct f; simpl; [rewrite Ha, Hb; auto|].
  destruct (Ascii.eqb a c); simpl; [auto|]. rewrite Ha, Hr. auto.
Qed.

Lemma until_delim_spec (s : string) :
  s = fst (until_delim s) ++ snd (until_delim s)
  /\ contains "/" (fst (until_delim s)) = false
  /\ contains "?" (fst (until_delim s)) = false
  /\ contains "#" (fst (until_delim s)) = false.
Proof.
  induction s as [|a s IH]; simpl; [auto|].
  destruct (Ascii.eqb a "/") eqn:E1; simpl; [auto|].
  destruct (Ascii.eqb a "?") eqn:E2; simpl; [auto|].
  destruct (Ascii.eqb a "#") eqn:E3; simpl; [auto|].
  destruct (until_delim s) as [n r]. simpl in *.
  destruct IH as [Hs [H1 [H2 H3]]]. rewrite E1, E2, E3, H1, H2, H3.
  repeat split; auto. congruence.
Qed.

Lemma until_delim_contains (d : ascii) (s : string) :
  contains d s = false ->
  contains d (fst (until_delim s)) = false
  /\ contains d (snd (until_delim s)) = false.
Proof.
  intros H. destruct (until_delim_spec s) as [Hs _].
  rewrite Hs, contains_app in H. apply orb_false_iff in H. assumption.
Qed.

Lemma drop_contains (d : ascii) (n : nat) (s : string) :
  contains d s = false -> contains d (drop n s) = false.
Proof.
  revert s. induction n as [|n IH]; intros [|a s]; simpl; auto.
  intros H. apply orb_false_iff in H. apply IH. tauto.
Qed.

Lemma lstrip_contains (d : ascii) (s : string) :
  contains d s = false -> contains d (lstrip_c0_space s) = false.
Proof.
  induction s as [|a s IH]; simpl; [auto|].
  intros H. destruct (between 0 32 a); [|assumption].
  apply orb_false_iff in H. apply IH. tauto.
Qed.

Lemma replace_removes (c : ascii) (s : string) :
  contains c (replace c "" s) = false.
Proof.
  induction s as [|a s IH]; simpl; [reflexivity|].
  destruct (Ascii.eqb a c) eqn:E; simpl; [assumption|].
  rewrite E, IH. reflexivity.
Qed.

Lemma replace_contains (d c : ascii) (s : string) :
  contains d s = false -> contains d (replace c "" s) = false.
Proof.
  induction s as [|a s IH]; simpl; [auto|].
  intros H. apply orb_false_iff in H. destruct H as [Ha Hs].
  destruct (Ascii.eqb a c); simpl; [auto|]. rewrite Ha. auto.
Qed.

Lemma replace_app (c : ascii) (a b : string) :
  replace c "" (a ++ b) = replace c "" a ++ replace c "" b.
Proof.
  induction a as [|x a IH]; simpl; [reflexivity|].
  destruct (Ascii.eqb x c); simpl; rewrite IH; reflexivity.
Qed.

Lemma scheme_char_lower (a : ascii) (d : ascii) :
  scheme_char a = true -> scheme_char d = false ->
  Ascii.eqb (if is_upper a then ascii_of_nat (code a + 32) else a) d = false.
Proof.
  intros Ha Hd.
  destruct (Ascii.eqb (if is_upper a then ascii_of_nat (code a + 32) else a) d)
    eqn:E; [|reflexivity].
  apply Ascii.eqb_eq in E. subst d. exfalso. revert Ha Hd.
  destruct a as [[] [] [] [] [] [] [] []]; vm_compute; congruence.
Qed.

Lemma lower_scheme_contains (s : string) (d : ascii) :
  all_chars scheme_char s = true -> scheme_char d = false ->
  contains d (lower s) = false.
Proof.
  intros Hs Hd. induction s as [|a s IH]; simpl in *; [reflexivity|].
  apply andb_true_iff in Hs. destruct Hs as [Ha Hs].
  rewrite (scheme_char_lower a d Ha Hd), (IH Hs). reflexivity.
Qed.

Lemma clean_app (a b : string) : clean a -> clean b -> clean (a ++ b).
Proof.
  intros [H1 H2] [H3 H4]. split; rewrite contains_app, ?H1, ?H2, ?H3, ?H4;
    reflexivity.
Qed.

Lemma split_scheme_spec (url : string) :
  clean (fst (split_scheme url))
  /\ forall d, contains d url = false ->
               contains d (snd (split_scheme url)) = false.
Proof.
  unfold split_scheme.
  destruct (partition ":" url) as [[pre f] rest] eqn:Ep.
  assert (Hdef : clean "" /\ forall d, contains d url = false -> contains d url = false)
    by (split; [split; reflexivity|auto]).
  destruct pre as [|a pre]; [exact Hdef|].
  destruct f; [|exact Hdef].
  destruct (is_ascii_alpha a && all_chars scheme_char (String a pre)) eqn:E;
    [|exact Hdef].
  apply andb_true_iff in E. destruct E as [_ E]. cbn [fst snd]. split.
  - split; apply (lower_scheme_contains (String a pre)); auto.
  - intros d Hd. pose proof (partition_contains d ":" url Hd) as [_ H].
    rewrite Ep in H. exact H.
Qed.


Lemma sanitize_spec (url : string) :
  no_unsafe (sanitize url)
  /\ forall d, contains d url = false -> contains d (sanitize url) = false.
Proof.
  unfold sanitize, no_unsafe. repeat split.
  - apply replace_contains, replace_contains, replace_removes.
  - apply replace_contains, replace_removes.
  - apply replace_removes.
  - intros d Hd. repeat apply replace_contains. apply lstrip_contains. assumption.
Qed.

Lemma split_netloc_spec (L : stdlib) (url nl rest : string) :
  split_netloc L url = Ok (nl, rest) ->
  clean nl
  /\ (startswith "//" url = true /\ (nl, rest) = until_delim (drop 2 url)
      \/ startswith "//" url = false /\ nl = "" /\ rest = url).
Proof.
  unfold split_netloc, _splitnetloc2.
  destruct (startswith "//" url) eqn:Es.
  - destruct (until_delim (drop 2 url)) as [n r] eqn:Eu.
    pose proof (until_delim_spec (drop 2 url)) as [_ [_ [H2 H3]]].
    rewrite Eu in H2, H3. simpl in H2, H3.
    intros H.
    assert (Heq : n = nl /\ r = rest).
    { destruct ((contains "[" n && negb (contains "]" n))
                || (contains "]" n && negb (contains "[" n))); [discriminate|].
      destruct (contains "[" n && contains "]" n).
      - destruct (_check_bracketed_netloc L n); [|discriminate].
        inversion H. auto.
      - inversion H. auto. }
    destruct Heq; subst. split; [split; assumption|]. left. auto.
  - intros H. inversion H; subst. split; [split; reflexivity|]. right. auto.
Qed.

Lemma split_fragment_spec (url : string) :
  contains "#" (fst (split_fragment url)) = false
  /\ forall d, contains d url = false ->
               contains d (fst (split_fragment url)) = false
               /\ contains d (snd (split_fragment url)) = false.
Proof.
  unfold split_fragment. destruct (contains "#" url) eqn:E.
  - pose proof (partition_spec "#" url) as [Hb _].
    destruct (partition "#" url) as [[b f] r] eqn:Ep. simpl in *.
    split; [assumption|]. intros d Hd.
    pose proof (partition_contains d "#" url Hd) as H. rewrite Ep in H. exact H.
  - simpl. split; [assumption|]. auto.
Qed.

Lemma split_query_spec (url : string) :
  contains "?" (fst (split_query url)) = false
  /\ forall d, contains d url = false ->
               contains d (fst (split_query url)) = false
               /\ contains d (snd (split_query url)) = false.
Proof.
  unfold split_query. destruct (contains "?" url) eqn:E.
  - pose proof (partition_spec "?" url) as [Hb _].
    destruct (partition "?" url) as [[b f] r] eqn:Ep. simpl in *.
    split; [assumption|]. intros d Hd.
    pose proof (partition_contains d "?" url Hd) as H. rewrite Ep in H. exact H.
  - simpl. split; [assumption|]. auto.
Qed.

(** The stages of [urlsplit], for a URL on which it returns. *)
Lemma urlsplit_stages (L : stdlib) (url sch nl pa qu fr : string) :
  urlsplit L url = Ok (sch, nl, pa, qu, fr) ->
  exists u2 u3,
    split_scheme (sanitize url) = (sch, u2)
    /\ split_netloc L u2 = Ok (nl, u3)
    /\ split_fragment u3 = (fst (split_fragment u3), fr)
    /\ split_query (fst (split_fragment u3)) = (pa, qu).
Proof.
  unfold urlsplit. intros H.
  destruct (split_scheme (sanitize url)) as [sch0 u2] eqn:E1.
  destruct (split_netloc L u2) as [[nl0 u3]|e] eqn:E2; [|discriminate].
  destruct (split_fragment u3) as [u4 fr0] eqn:E3.
  destruct (split_query u4) as [pa0 qu0] eqn:E4.
  destruct (_checknetloc L nl0); [|discriminate].
  inversion H; subst. exists u2, u3. rewrite E3. simpl. auto.
Qed.

Lemma no_unsafe_contains (s t : string) :
  (forall d, contains d s = false -> contains d t = false) ->
  no_unsafe s -> no_unsafe t.
Proof. intros H [H1 [H2 H3]]. repeat split; apply H; assumption. Qed.

(** What [urlsplit] returns: no [?] and no [#] before the query string,
    and none of the removed characters in the fragment. *)
Lemma urlsplit_wellformed (L : stdlib) (url sch nl pa qu fr : string) :
  urlsplit L url = Ok (sch, nl, pa, qu, fr) ->
  clean sch /\ clean nl /\ clean pa /\ no_unsafe fr.
Proof.
  intros H. destruct (urlsplit_stages _ _ _ _ _ _ _ H)
    as [u2 [u3 [E1 [E2 [E3 E4]]]]].
  pose proof (sanitize_spec url) as [Hs _].
  pose proof (split_scheme_spec (sanitize url)) as [Hsch Hu2].
  rewrite E1 in Hsch, Hu2. simpl in Hsch, Hu2.
  pose proof (split_netloc_spec _ _ _ _ E2) as [Hnl Hu3].
  pose proof (split_fragment_spec u3) as [Hf1 Hf2].
  pose proof (split_query_spec (fst (split_fragment u3))) as [Hq1 Hq2].
  rewrite E4 in Hq1, Hq2. simpl in Hq1, Hq2.
  assert (Hfr : snd (split_fragment u3) = fr) by (rewrite E3; reflexivity).
  split; [assumption|]. split; [assumption|].
  split; [split; [assumption|apply Hq2; assumption]|].
  assert (Hu3' : forall d, contains d u2 = false -> contains d u3 = false).
  { intros d Hd. destruct Hu3 as [[_ Heq]|[_ [_ ->]]]; [|assumption].
    pose proof (until_delim_contains d (drop 2 u2) (drop_contains d 2 u2 Hd))
      as [_ Hr].
    rewrite <- Heq in Hr. exact Hr. }
  apply (no_unsafe_contains (sanitize url)); [|assumption].
  intros d Hd. rewrite <- Hfr. apply Hf2, Hu3', Hu2, Hd.
Qed.

Lemma splitparams_contains (d : ascii) (url : string) :
  contains d url = false -> Ascii.eqb "/" d = false ->
  contains d (fst (_splitparams url)) = false
  /\ contains d (snd (_splitparams url)) = false.
Proof.
  intros Hd Hslash. unfold _splitparams.
  destruct (contains "/" url).
  - pose proof (rpartition_contains d "/" url Hd) as [Hdir Hlast].
    destruct (rpartition "/" url) as [[dir f] last]. simpl in *.
    destruct (contains ";" last); [|simpl; auto].
    pose proof (partition_contains d ";" last Hlast) as [Hb Hr].
    destruct (partition ";" last) as [[b f'] r]. simpl in *.
    rewrite !contains_app. simpl. rewrite Hdir, Hslash, Hb, Hr. auto.
  - pose proof (partition_contains d ";" url Hd) as H.
    destruct (partition ";" url) as [[b f] r]. exact H.
Qed.

Lemma urlparse_wellformed (L : stdlib) (url : string) (p : ParseResult) :
  urlparse L url = Ok p ->
  clean (scheme p) /\ clean (netloc p) /\ clean (path p) /\ clean (params p)
  /\ no_unsafe (fragment p).
Proof.
  unfold urlparse. intros H.
  destruct (urlsplit L url) as [[[[[sch nl] pa] qu] fr]|e] eqn:E; [|discriminate].
  destruct (urlsplit_wellformed _ _ _ _ _ _ _ E) as [Hsch [Hnl [[Hp1 Hp2] Hfr]]].
  destruct (mem sch uses_params && contains ";" pa).
  - pose proof (splitparams_contains "?" pa Hp1 eq_refl) as [H1 H2].
    pose proof (splitparams_contains "#" pa Hp2 eq_refl) as [H3 H4].
    destruct (_splitparams pa) as [u pr]. inversion H; subst. simpl in *.
    split; [exact Hsch|]. split; [exact Hnl|].
    split; [split; assumption|]. split; [split; assumption|]. exact Hfr.
  - inversion H; subst. simpl.
    split; [exact Hsch|]. split; [exact Hnl|].
    split; [split; assumption|]. split; [split; reflexivity|]. exact Hfr.
Qed.


Lemma append_nil (s : string) : s ++ "" = s.
Proof. induction s as [|a s IH]; simpl; congruence. Qed.

Lemma append_assoc (a b c : string) : (a ++ b) ++ c = a ++ (b ++ c).
Proof. induction a as [|x a IH]; simpl; congruence. Qed.

(** A prefix free of [m], of a string whose first [m] stands after [Y],
    lies within [Y]. *)
Lemma prefix_within (n r Y R : string) (m : ascii) :
  n ++ r = Y ++ String m R ->
  contains m n = false ->
  exists Y', Y = n ++ Y' /\ r = Y' ++ String m R.
Proof.
  revert Y. induction n as [|x n IH]; intros Y Heq Hn; simpl in *.
  - exists Y. auto.
  - apply orb_false_iff in Hn. destruct Hn as [Hx Hn].
    destruct Y as [|y Y]; simpl in Heq; inversion Heq; subst.
    + rewrite Ascii.eqb_refl in Hx. discriminate.
    + destruct (IH Y H1 Hn) as [Y' [HY Hr]]. exists Y'. split; congruence.
Qed.

Lemma clean_parts (a b : string) : clean (a ++ b) -> clean a /\ clean b.
Proof.
  intros [H1 H2]. rewrite contains_app in H1, H2.
  apply orb_false_iff in H1, H2. unfold clean. tauto.
Qed.

Lemma lstrip_shape (Y R : string) :
  lstrip_c0_space (Y ++ String "?" R) = lstrip_c0_space Y ++ String "?" R.
Proof.
  induction Y as [|a Y IH]; simpl; [reflexivity|].
  destruct (between 0 32 a); [assumption|reflexivity].
Qed.

Lemma sanitize_shape (Y R : string) :
  no_unsafe R -> sanitize (Y ++ String "?" R) = sanitize Y ++ String "?" R.
Proof.
  intros [H1 [H2 H3]]. unfold sanitize.
  rewrite lstrip_shape, !replace_app. simpl.
  rewrite !(replace_absent _ _ R) by assumption. reflexivity.
Qed.

Lemma split_scheme_cases (url : string) :
  split_scheme url = ("", url)
  \/ exists pre rest,
       url = pre ++ String ":" rest
       /\ all_chars scheme_char pre = true
       /\ split_scheme url = (lower pre, rest).
Proof.
  unfold split_scheme.
  pose proof (partition_spec ":" url) as [_ [_ Hs]].
  destruct (partition ":" url) as [[pre f] rest]. simpl in Hs.
  destruct pre as [|a pre]; [left; reflexivity|].
  destruct f; [|left; reflexivity].
  destruct (is_ascii_alpha a && all_chars scheme_char (String a pre)) eqn:E;
    [|left; reflexivity].
  apply andb_true_iff in E. right. exists (String a pre), rest. tauto.
Qed.

Lemma scheme_chars_contains (s : string) (d : ascii) :
  all_chars scheme_char s = true -> scheme_char d = false ->
  contains d s = false.
Proof.
  intros Hs Hd. induction s as [|a s IH]; simpl in *; [reflexivity|].
  apply andb_true_iff in Hs. destruct Hs as [Ha Hs]. rewrite (IH Hs).
  destruct (Ascii.eqb a d) eqn:E; [|reflexivity].
  apply Ascii.eqb_eq in E. congruence.
Qed.

Lemma split_scheme_shape (Y R : string) :
  clean Y ->
  exists sch Y',
    split_scheme (Y ++ String "?" R) = (sch, Y' ++ String "?" R) /\ clean Y'.
Proof.
  intros HY. destruct (split_scheme_cases (Y ++ String "?" R))
    as [H|[pre [rest [Heq [Hpre H]]]]].
  - exists "", Y. auto.
  - symmetry in Heq.
    destruct (prefix_within pre (String ":" rest) Y R "?" Heq
                (scheme_chars_contains pre "?" Hpre eq_refl))
      as [Y0 [HY0 Hrest]].
    destruct Y0 as [|c Y1]; simpl in Hrest; inversion Hrest; subst.
    exists (lower pre), Y1. split; [assumption|].
    apply clean_parts in HY. destruct HY as [_ HY].
    apply (clean_parts (String ":" "") Y1). exact HY.
Qed.

Lemma startswith_slashes (Y R : string) :
  startswith "//" (Y ++ String "?" R) = true ->
  exists Y2, Y = "//" ++ Y2.
Proof.
  unfold startswith. intros H. apply String.prefix_correct in H.
  destruct Y as [|a [|b Y2]]; simpl in H.
  - inversion H.
  - inversion H.
  - injection H as Ha Hb _. subst a b. exists Y2. reflexivity.
Qed.

Lemma split_netloc_shape (L : stdlib) (Y R nl rest : string) :
  clean Y ->
  split_netloc L (Y ++ String "?" R) = Ok (nl, rest) ->
  exists Y', rest = Y' ++ String "?" R /\ clean Y'.
Proof.
  intros HY H.
  destruct (split_netloc_spec _ _ _ _ H) as [[Hnl _] [[Hs Heq]|[_ [_ ->]]]].
  - destruct (startswith_slashes _ _ Hs) as [Y2 ->].
    simpl in Heq.
    pose proof (until_delim_spec (Y2 ++ String "?" R)) as [Hsplit _].
    rewrite <- Heq in Hsplit. simpl in Hsplit.
    destruct (prefix_within nl rest Y2 R "?" (eq_sym Hsplit) Hnl)
      as [Y' [HY2 Hrest]].
    exists Y'. split; [assumption|]. subst Y2.
    apply (clean_parts "//") in HY. destruct HY as [_ HY].
    apply clean_parts in HY. tauto.
  - exists Y. auto.
Qed.

Lemma split_fragment_shape (Y q F frag : string) :
  clean Y -> contains "#" q = false ->
  (F = "" /\ frag = "") \/ F = String "#" frag ->
  split_fragment (Y ++ String "?" (q ++ F)) = (Y ++ String "?" q, frag).
Proof.
  intros [_ HY] Hq HF. unfold split_fragment.
  assert (Hpre : contains "#" (Y ++ String "?" q) = false).
  { rewrite contains_app. simpl. rewrite HY, Hq. reflexivity. }
  destruct HF as [[-> ->]| ->].
  - rewrite append_nil, Hpre. reflexivity.
  - replace (Y ++ String "?" (q ++ String "#" frag))
      with ((Y ++ String "?" q) ++ String "#" frag)
      by (rewrite append_assoc; reflexivity).
    rewrite contains_app. simpl. rewrite ?Ascii.eqb_refl, ?orb_true_r.
    rewrite (partition_first _ _ _ Hpre). reflexivity.
Qed.

Lemma split_query_shape (Y q : string) :
  clean Y -> split_query (Y ++ String "?" q) = (Y, q).
Proof.
  intros [HY _]. unfold split_query.
  rewrite contains_app. simpl. rewrite orb_true_r.
  rewrite (partition_first _ _ _ HY). reflexivity.
Qed.

(** [urlsplit] gives back the query string that stands between a clean
    prefix and the fragment. *)
Lemma urlsplit_query (L : stdlib) (Y q F frag sch nl pa qu fr : string) :
  clean Y ->
  contains "#" q = false ->
  no_unsafe q -> no_unsafe frag ->
  (F = "" /\ frag = "") \/ F = String "#" frag ->
  urlsplit L (Y ++ String "?" (q ++ F)) = Ok (sch, nl, pa, qu, fr) ->
  qu = q.
Proof.
  intros HY Hq Hsafe Hfrag HF H.
  assert (HR : no_unsafe (q ++ F)).
  { destruct Hsafe as [H1 [H2 H3]]. destruct Hfrag as [H4 [H5 H6]].
    unfold no_unsafe. rewrite !contains_app, H1, H2, H3.
    destruct HF as [[-> _]| ->]; simpl; auto. }
  destruct (urlsplit_stages _ _ _ _ _ _ _ H) as [u2 [u3 [E1 [E2 [E3 E4]]]]].
  rewrite (sanitize_shape _ _ HR) in E1.
  assert (HY1 : clean (sanitize Y)).
  { destruct HY as [H1 H2]. split; apply sanitize_spec; assumption. }
  destruct (split_scheme_shape (sanitize Y) (q ++ F) HY1) as [sch' [Y2 [E1' HY2]]].
  rewrite E1 in E1'. inversion E1'; subst sch' u2.
  destruct (split_netloc_shape _ _ _ _ _ HY2 E2) as [Y3 [-> HY3]].
  rewrite (split_fragment_shape _ _ _ _ HY3 Hq HF) in E4. simpl in E4.
  rewrite (split_query_shape _ _ HY3) in E4. congruence.
Qed.

Lemma unsplit_hierarchy_clean (sch nl url : string) :
  clean sch -> clean nl -> clean url -> clean (unsplit_hierarchy sch nl url).
Proof.
  intros Hs Hn Hu. unfold unsplit_hierarchy.
  assert (Hslash : clean "/") by (split; reflexivity).
  assert (Hcolon : clean ":") by (split; reflexivity).
  assert (H2 : clean "//") by (split; reflexivity).
  repeat match goal with
         | |- clean (if ?c then _ else _) => destruct c
         | |- clean (_ ++ _) => apply clean_app
         end; assumption.
Qed.

(** The generated line, as [urlsplit] reads it again. *)
Lemma urlunparse_shape (p : ParseResult) (q : string) :
  clean (scheme p) -> clean (netloc p) -> clean (path p) -> clean (params p) ->
  q <> "" ->
  exists Y F,
    urlunparse (replace_query p q) = Y ++ String "?" (q ++ F)
    /\ clean Y
    /\ ((F = "" /\ fragment p = "") \/ F = String "#" (fragment p)).
Proof.
  intros Hs Hn Hp Hpr Hq. unfold urlunparse, urlunsplit. simpl.
  set (url := if negb (String.eqb (params p) "") then path p ++ ";" ++ params p
              else path p).
  assert (Hurl : clean url).
  { unfold url. destruct (negb (String.eqb (params p) "")); [|assumption].
    apply clean_app; [assumption|].
    apply (clean_app ";"); [split; reflexivity|assumption]. }
  exists (unsplit_hierarchy (scheme p) (netloc p) url).
  apply String.eqb_neq in Hq. rewrite Hq. simpl.
  destruct (String.eqb (fragment p) "") eqn:Ef; simpl.
  - apply String.eqb_eq in Ef. exists "". rewrite append_nil.
    split; [reflexivity|]. split; [apply unsplit_hierarchy_clean; assumption|].
    left. auto.
  - exists (String "#" (fragment p)).
    split; [rewrite append_assoc; reflexivity|].
    split; [apply unsplit_hierarchy_clean; assumption|]. right. reflexivity.
Qed.

(** Parsing a generated line gives back the query string it was built
    with, when that string holds no [#] and none of the characters that
    [urlsplit] removes. *)
Lemma reparse_line_query (L : stdlib) (url : string) (p p' : ParseResult)
    (q : string) :
  urlparse L url = Ok p ->
  q <> "" -> contains "#" q = false -> no_unsafe q ->
  urlparse L (urlunparse (replace_query p q)) = Ok p' ->
  query p' = q.
Proof.
  intros Hp Hq Hhash Hsafe Hp'.
  destruct (urlparse_wellformed _ _ _ Hp) as [Hs [Hn [Hpa [Hpr Hfr]]]].
  destruct (urlunparse_shape p q Hs Hn Hpa Hpr Hq) as [Y [F [Heq [HY HF]]]].
  rewrite Heq in Hp'. unfold urlparse in Hp'.
  destruct (urlsplit L (Y ++ String "?" (q ++ F)))
    as [[[[[sch nl] pa] qu] fr]|e] eqn:E; [|discriminate].
  assert (Hqu : qu = q).
  { destruct HF as [[HF Hfrag]|HF].
    - apply (urlsplit_query L Y q F "" sch nl pa qu fr); auto.
      repeat split; reflexivity.
    - apply (urlsplit_query L Y q F (fragment p) sch nl pa qu fr); auto. }
  destruct (mem sch uses_params && contains ";" pa);
    [destruct (_splitparams pa)|]; inversion Hp'; subst; reflexivity.
Qed.

Lemma join_cons_not_empty (sep x : string) (l : list string) :
  x <> "" -> join sep (x :: l) <> "".
Proof.
  intros Hx. destruct l; simpl; [assumption|].
  destruct x; [congruence|discriminate].
Qed.

Lemma serialise_not_empty (pairs : list (string * string)) :
  pairs <> [] -> serialise pairs <> "".
Proof.
  destruct pairs as [|[k v] pairs]; [congruence|]. intros _.
  unfold serialise. cbn [map]. apply join_cons_not_empty.
  destruct k; discriminate.
Qed.

Lemma plain_read_back (k : string) : plain k = true -> read_back k.
Proof.
  intros H. split; [apply plain_contains; auto|].
  split; [apply plain_contains; auto|]. apply plain_decoded, H.
Qed.

Lemma segments_of_pairs (pairs : list (string * string)) :
  pairs <> [] ->
  Forall (fun kv => read_back (fst kv) /\ contains "&" (snd kv) = false) pairs ->
  split "&" (serialise pairs) = map pair_text pairs.
Proof.
  intros Hne Hall. unfold serialise.
  replace (map (fun '(k, v) => k ++ "=" ++ v) pairs) with (map pair_text pairs)
    by (apply map_ext; intros [k v]; reflexivity).
  apply split_join.
  - destruct pairs; [congruence|discriminate].
  - apply Forall_map. eapply Forall_impl; [|exact Hall].
    intros [k v] [[Hk _] Hv]. unfold pair_text. cbn [fst snd] in *.
    rewrite !contains_app, Hk, Hv. reflexivity.
Qed.

(** What [parse_qsl] keeps of the query string: the pairs with a value,
    the values decoded. *)
Lemma parse_qsl_pairs (pairs : list (string * string)) :
  pairs <> [] ->
  Forall (fun kv => read_back (fst kv) /\ contains "&" (snd kv) = false) pairs ->
  parse_qsl (serialise pairs)
  = map (fun kv => (fst kv, decoded (snd kv)))
        (filter (fun kv => negb (String.eqb (snd kv) "")) pairs).
Proof.
  intros Hne Hall. rewrite parse_qsl_segments, (segments_of_pairs _ Hne Hall).
  clear Hne. induction Hall as [|[k v] l [[_ [Hk Hd]] _] _ IH]; [reflexivity|].
  cbn [map flat_map filter fst snd] in *. rewrite IH.
  unfold pair_text at 1 2. cbn [fst snd].
  change (k ++ "=" ++ v) with (k ++ String "=" v).
  rewrite append_not_empty. unfold split1.
  rewrite (partition_first "=" k v Hk).
  change (unquote (replace "+" " " k)) with (decoded k). rewrite Hd.
  destruct (String.eqb v ""); reflexivity.
Qed.

(** What the loop of [check_reflection] stores for the query string: the
    names whose value is empty or starts with [=]. *)
Lemma blank_keys_pairs (pairs : list (string * string)) (k : string) :
  pairs <> [] ->
  Forall (fun kv => read_back (fst kv) /\ contains "&" (snd kv) = false) pairs ->
  In k (blank_keys (serialise pairs)) ->
  exists v, In (k, v) pairs /\ hd "" (split "=" v) = "".
Proof.
  intros Hne Hall. unfold blank_keys. rewrite (segments_of_pairs _ Hne Hall).
  clear Hne. induction Hall as [|[k0 v0] l [[_ [Hk _]] _] _ IH]; [contradiction|].
  cbn [map flat_map fst snd] in *. intros Hin.
  apply in_app_or in Hin. destruct Hin as [Hin|Hin].
  - exists v0. unfold pair_text in Hin. cbn [fst snd] in Hin.
    change (k0 ++ "=" ++ v0) with (k0 ++ String "=" v0) in Hin.
    rewrite (split_first "=" k0 v0 Hk) in Hin.
    pose proof (split_not_nil "=" v0) as Hnn.
    destruct (split "=" v0) as [|w ws]; [congruence|].
    destruct w; [|contradiction].
    destruct Hin as [<-|[]]. split; [left; reflexivity|reflexivity].
  - destruct (IH Hin) as (v & Hv & Hhd). exists v. split; [right|]; assumption.
Qed.

(** C8, as the code has it: let every name of [original_params] be read
    back by [parse_qs] as it is written, and let no value but that of the
    targeted name hold [&] or be decoded to [{payload}].  Then the query
    string built for the line of the targeted name, parsed again as
    [check_reflection] parses a query string, gives a dictionary in which
    exactly one key has the value [{payload}]: the targeted name.  That
    query string is the one [urlparse] finds in the generated line,
    whenever it parses the line and the string holds no [#] and none of the
    characters [urlsplit] removes. *)
Theorem C8_payload_key_is_the_target (q name : string) (d : Dict.dict pyval) :
  build_original_params q = Ok d ->
  In name (Dict.keys d) ->
  (forall k v,
      In (k, PStr v) d ->
      read_back k
      /\ (k <> name -> contains "&" v = false /\ decoded v <> payload)) ->
  (exists d',
      build_original_params (line_query d name) = Ok d'
      /\ payload_keys d' = [name])
  /\ (forall L url p p',
        urlparse L url = Ok p ->
        query p = q ->
        contains "#" (line_query d name) = false ->
        no_unsafe (line_query d name) ->
        urlparse L (line_for p d name) = Ok p' ->
        query p' = line_query d name).
Proof.
  intros Hd Hname Hok.
  rewrite build_original_params_ok in Hd. inversion Hd; subst d. clear Hd.
  rewrite original_keys in Hname.
  assert (Hq' : line_query (original q) name
                = serialise (with_payload name (param_map q))).
  { unfold line_query, Dict.items.
    rewrite (original_set_payload _ _ Hname), render_strings. reflexivity. }
  rewrite Hq'.
  set (pairs' := with_payload name (param_map q)).
  assert (Hne : pairs' <> []).
  { unfold pairs', with_payload, param_map.
    destruct (param_names q); [contradiction|discriminate]. }
  split.
  2: { intros L url p p' Hp _ Hhash Hsafe Hp'. unfold line_for in Hp'.
       rewrite Hq' in Hp'. fold pairs' in Hp'.
       apply (reparse_line_query L url p p' (serialise pairs') Hp); auto.
       apply serialise_not_empty. assumption. }
  exists (original (serialise pairs')).
  split; [apply build_original_params_ok|].
  assert (Hin : forall k v, In (k, v) (param_map q) -> In (k, PStr v) (original q)).
  { intros k v H. unfold original.
    apply (in_map (fun '(k, v) => (k, PStr v)) _ (k, v)). assumption. }
  assert (Hmap : In (name, param_value q name) (param_map q)).
  { unfold param_map.
    apply (in_map (fun name => (name, param_value q name))). assumption. }
  assert (Hpairs : Forall (fun kv => read_back (fst kv)
                                     /\ contains "&" (snd kv) = false) pairs').
  { apply Forall_forall. intros [k v] Hkv. cbn [fst snd].
    apply with_payload_In in Hkv. destruct Hkv as [[-> ->]|[Hk Hkv]].
    - split; [apply (Hok name _ (Hin _ _ Hmap))|reflexivity].
    - destruct (Hok k v (Hin _ _ Hkv)) as [Hrb Hv]. split; [assumption|].
      apply (Hv Hk). }
  assert (Hnd : NoDup (map fst pairs')).
  { unfold pairs'. rewrite with_payload_fst.
    unfold param_map. rewrite map_map. simpl. rewrite map_id.
    apply param_names_NoDup. }
  assert (Htarget : In (name, payload) pairs').
  { unfold pairs', with_payload.
    apply in_map_iff. exists (name, param_value q name).
    rewrite String.eqb_refl. split; [reflexivity|assumption]. }
  assert (Hother : forall k v, In (k, v) pairs' -> k <> name ->
                               decoded v <> payload).
  { intros k v Hkv Hk. apply with_payload_In in Hkv.
    destruct Hkv as [[Heq _]|[_ Hkv]]; [contradiction|].
    apply (Hok k v (Hin _ _ Hkv)). assumption. }
  assert (Hsame : forall v, In (name, v) pairs' -> v = payload).
  { intros v Hkv. apply with_payload_In in Hkv.
    destruct Hkv as [[_ Hv]|[Hk _]]; [assumption|congruence]. }
  pose proof (parse_qsl_pairs pairs' Hne Hpairs) as Hparsed.
  assert (Hkept : In (name, payload) (parse_qsl (serialise pairs'))).
  { rewrite Hparsed. apply in_map_iff. exists (name, payload).
    split; [reflexivity|]. apply filter_In. split; [assumption|reflexivity]. }
  assert (Hnot_blank : mem name (blank_keys (serialise pairs')) = false).
  { apply mem_false. intros Hb.
    destruct (blank_keys_pairs pairs' name Hne Hpairs Hb) as (v & Hv & Hhd).
    rewrite (Hsame v Hv) in Hhd. discriminate. }
  rewrite payload_keys_original. apply NoDup_singleton.
  - apply NoDup_filter, param_names_NoDup.
  - intros k. rewrite filter_In. split.
    + intros [_ Hv]. apply String.eqb_eq in Hv.
      destruct (string_dec k name) as [|Hk]; [assumption|]. exfalso.
      unfold param_value in Hv.
      destruct (mem k (blank_keys (serialise pairs'))); [discriminate|].
      unfold values_of in Hv.
      destruct (map snd (filter (fun nv => String.eqb (fst nv) k)
                                (parse_qsl (serialise pairs'))))
        as [|w ws] eqn:Ew; [discriminate|].
      cbn [hd] in Hv. subst w.
      assert (Hw : In payload
                      (map snd (filter (fun nv => String.eqb (fst nv) k)
                                       (parse_qsl (serialise pairs'))))).
      { rewrite Ew. left. reflexivity. }
      apply in_map_iff in Hw. destruct Hw as ([k' w] & Hw & Hkw).
      cbn [snd] in Hw. subst w.
      apply filter_In in Hkw. destruct Hkw as [Hkw Hk'].
      cbn [fst] in Hk'. apply String.eqb_eq in Hk'. subst k'.
      rewrite Hparsed in Hkw. apply in_map_iff in Hkw.
      destruct Hkw as ([k0 v0] & Heq & Hkv). cbn [fst snd] in Heq.
      injection Heq as -> Hdec. apply filter_In in Hkv. destruct Hkv as [Hkv _].
      apply (Hother k v0 Hkv Hk Hdec).
    + intros ->. split.
      * unfold param_names. apply dedup_In. apply in_or_app. left.
        apply (in_map fst _ (name, payload)). assumption.
      * unfold param_value. rewrite Hnot_blank.
        rewrite (values_of_unique _ name payload); [apply String.eqb_refl| |assumption].
        rewrite Hparsed, map_map. cbn [fst].
        apply filter_NoDup_fst. assumption.
Qed.

(** The value of [a] is [{payload}] in the URL itself: in the line for [b]
    two keys have that value, and parsing the line again does not tell
    which of them was targeted.  The value of [q] holds [&]: in the line
    for [t] it ends in a segment [t] that makes the value of [t] empty,
    and no key has the value [{payload}].  The name [a+b] is read back as
    [a b]: the key that has the value [{payload}] is not the targeted
    name. *)
Lemma C8_another_value_is_the_token :
  (lines ascii_stdlib "http://example.com/page?a={payload}&b=2"
   = ["http://example.com/page?a={payload}&b=2";
      "http://example.com/page?a={payload}&b={payload}"]
   /\ build_original_params "a={payload}&b={payload}"
      = Ok [("a", PStr "{payload}"); ("b", PStr "{payload}")]
   /\ payload_keys [("a", PStr "{payload}"); ("b", PStr "{payload}")] = ["a"; "b"])
  /\ (lines ascii_stdlib "http://example.com/page?q=x%26t&t=1"
      = ["http://example.com/page?q={payload}&t=1";
         "http://example.com/page?q=x&t&t={payload}"]
      /\ build_original_params "q=x&t&t={payload}"
         = Ok [("q", PStr "x"); ("t", PStr "")]
      /\ payload_keys [("q", PStr "x"); ("t", PStr "")] = [])
  /\ (build_original_params "a%2Bb=1" = Ok [("a+b", PStr "1")]
      /\ lines ascii_stdlib "http://example.com/page?a%2Bb=1"
         = ["http://example.com/page?a+b={payload}"]
      /\ build_original_params "a+b={payload}" = Ok [("a b", PStr "{payload}")]
      /\ payload_keys [("a b", PStr "{payload}")] = ["a b"]).
Proof. repeat split; reflexivity. Qed.

(** The URL [http://example.com/page?a=dGVzdA==&q=a%26b], whose first
    value holds [=] and whose second value is decoded to [a&b], and the
    line for [q]: parsed again, it has the query string
    [a=dGVzdA==&q={payload}], in which [q] alone has the value
    [{payload}]. *)
Lemma C8_payload_key_is_the_target_witness :
  (exists d',
      build_original_params "a=dGVzdA==&q={payload}" = Ok d'
      /\ payload_keys d' = ["q"])
  /\ forall p',
       urlparse ascii_stdlib "http://example.com/page?a=dGVzdA==&q={payload}"
       = Ok p' ->
       query p' = "a=dGVzdA==&q={payload}".
Proof.
  destruct (C8_payload_key_is_the_target "a=dGVzdA==&q=a%26b" "q"
              [("a", PStr "dGVzdA=="); ("q", PStr "a&b")]) as [Hkeys Hline].
  - reflexivity.
  - simpl. right. left. reflexivity.
  - intros k v [H|[H|[]]]; inversion H; subst.
    + split; [repeat split; reflexivity|]. intros _.
      split; [reflexivity|discriminate].
    + split; [repeat split; reflexivity|]. intros Hne. congruence.
  - split; [exact Hkeys|]. intros p' Hp'.
    apply (Hline ascii_stdlib "http://example.com/page?a=dGVzdA==&q=a%26b"
             {| scheme := "http"; netloc := "example.com"; path := "/page";
                params := ""; query := "a=dGVzdA==&q=a%26b"; fragment := "" |} p').
    + reflexivity.
    + reflexivity.
    + reflexivity.
    + repeat split; reflexivity.
    + exact Hp'.
Defined.

End Properties.

(** ** Further properties of [reflection.py] *)
Module Extras.
Import Py Urllib Reflection Spec Coverage Properties.

(** *** The chunks handed to the workers *)

Lemma range_from_nth (fuel i stop step k x : nat) :
  nth_error (range_from fuel i stop step) k = Some x ->
  x = i + k * step /\ x < stop.
Proof.
  revert i k. induction fuel as [|fuel IH]; intros i k; simpl.
  - destruct k; discriminate.
  - destruct (Nat.ltb i stop) eqn:E; [|destruct k; discriminate].
    apply Nat.ltb_lt in E. destruct k as [|k]; simpl.
    + intros H. inversion H; subst. lia.
    + intros H. apply IH in H. lia.
Qed.

Lemma chunk_size_at_least_one (n : nat) (threads : Z) (cs : nat) :
  chunk_size n threads = Ok cs -> 1 <= cs.
Proof.
  unfold chunk_size. destruct (Z.eqb threads 0); [discriminate|].
  intros H. inversion H. lia.
Qed.

Lemma slice_length {A : Type} (l : list A) (i cs : nat) :
  List.length (slice l i (i + cs)) = Nat.min cs (List.length l - i).
Proof.
  unfold slice. rewrite length_firstn, length_skipn. f_equal. lia.
Qed.

(** X1: whatever the non-zero worker count, the [k]-th worker is handed
    the URLs from index [k * chunk_size] on, at least one and at most
    [chunk_size] of them, and exactly [chunk_size] unless it is the last
    worker. *)
Theorem X1_chunk_bounds (urls : list string) (threads : Z) (cs k : nat)
    (c : list string) :
  chunk_size (List.length urls) threads = Ok cs ->
  nth_error (chunks urls cs) k = Some c ->
  c = slice urls (k * cs) (k * cs + cs)
  /\ 1 <= List.length c <= cs
  /\ (S k < List.length (chunks urls cs) -> List.length c = cs).
Proof.
  intros Hcs Hk. pose proof (chunk_size_at_least_one _ _ _ Hcs) as Hpos.
  unfold chunks in *. rewrite nth_error_map in Hk.
  destruct (nth_error (range0 (List.length urls) cs) k) as [i|] eqn:Hi;
    [|discriminate].
  simpl in Hk. inversion Hk; subst c. clear Hk.
  apply range_from_nth in Hi. destruct Hi as [Hi Hlt]. simpl in Hi. subst i.
  split; [reflexivity|]. rewrite slice_length. split; [lia|].
  rewrite length_map. intros Hnext.
  destruct (nth_error (range0 (List.length urls) cs) (S k)) as [j|] eqn:Hj.
  - apply range_from_nth in Hj. simpl in Hj. lia.
  - apply nth_error_None in Hj. lia.
Qed.

(** Seven URLs and two requested workers: the second worker is handed the
    fourth, fifth and sixth URL. *)
Lemma X1_chunk_bounds_witness :
  chunk_size 7 2 = Ok 3
  /\ nth_error (chunks ["u1"; "u2"; "u3"; "u4"; "u5"; "u6"; "u7"] 3) 1
     = Some ["u4"; "u5"; "u6"]
  /\ 1 <= List.length ["u4"; "u5"; "u6"] <= 3.
Proof.
  split; [reflexivity|]. split; [reflexivity|].
  apply (X1_chunk_bounds ["u1"; "u2"; "u3"; "u4"; "u5"; "u6"; "u7"] 2 3 1
           ["u4"; "u5"; "u6"]); reflexivity.
Defined.

Lemma singletons_from (urls : list string) (fuel i : nat) :
  List.length urls - i <= fuel ->
  map (fun i => slice urls i (i + 1)) (range_from fuel i (List.length urls) 1)
  = map (fun u => [u]) (skipn i urls).
Proof.
  revert i. induction fuel as [|fuel IH]; intros i Hfuel; simpl.
  - rewrite skipn_all2 by lia. reflexivity.
  - destruct (Nat.ltb i (List.length urls)) eqn:E.
    + apply Nat.ltb_lt in E. simpl. rewrite IH by lia.
      unfold slice. replace (i + 1 - i) with 1 by lia.
      replace (skipn (i + 1) urls) with (skipn 1 (skipn i urls))
        by (rewrite skipn_skipn; f_equal; lia).
      destruct (skipn i urls) as [|u rest] eqn:Es.
      * exfalso. assert (H : List.length (skipn i urls) = 0) by (rewrite Es; reflexivity).
        rewrite length_skipn in H. lia.
      * reflexivity.
    + apply Nat.ltb_ge in E. rewrite skipn_all2 by lia. reflexivity.
Qed.

(** X2: a worker count of zero makes [process_urls] raise
    [ZeroDivisionError] before any worker is started; a negative worker
    count, or one greater than the number of URLs, gives a chunk size of
    one, and every URL a worker of its own. *)
Theorem X2_worker_count_edges (urls : list string) :
  (exists msg, forall g,
      process_urls_start urls 0 g = Raise (ZeroDivisionError msg))
  /\ forall threads,
       (threads < 0 \/ Z.of_nat (List.length urls) < threads)%Z ->
       chunk_size (List.length urls) threads = Ok 1
       /\ chunks urls 1 = map (fun u => [u]) urls.
Proof.
  split; [eexists; intros g; reflexivity|].
  intros threads Ht. split.
  - unfold chunk_size.
    destruct (Z.eqb threads 0) eqn:E; [apply Z.eqb_eq in E; lia|].
    f_equal.
    assert (H : (Z.of_nat (List.length urls) / threads <= 0)%Z).
    { destruct Ht as [Hneg|Hbig].
      - pose proof (Z.div_mod (Z.of_nat (List.length urls)) threads ltac:(lia)) as Hdm.
        pose proof (Z.mod_neg_bound (Z.of_nat (List.length urls)) threads Hneg) as Hb.
        nia.
      - rewrite Z.div_small by lia. lia. }
    lia.
  - unfold chunks, range0. rewrite singletons_from by lia. reflexivity.
Qed.

(** Two URLs: with [--threads -3], and with [--threads 5], each URL is a
    chunk. *)
Lemma X2_worker_count_edges_witness :
  chunk_size 2 (-3) = Ok 1
  /\ chunk_size 2 5 = Ok 1
  /\ chunks ["u1"; "u2"] 1 = [["u1"]; ["u2"]].
Proof.
  destruct (X2_worker_count_edges ["u1"; "u2"]) as [_ H].
  destruct (H (-3)%Z) as [H1 H2]; [left; lia|].
  destruct (H 5%Z) as [H3 _]; [right; simpl; lia|].
  split; [exact H1|]. split; [exact H3|exact H2].
Defined.

(** *** Runs with a single worker *)

Lemma update_same {A : Type} (l : list A) (k : nat) (x : A) :
  nth_error l k = Some x -> update l k x = l.
Proof.
  revert k; induction l as [|y l IH]; intros [|k] H; simpl in *; try discriminate.
  - congruence.
  - f_equal. apply IH. assumption.
Qed.

Lemma update_update {A : Type} (l : list A) (k : nat) (x y : A) :
  update (update l k x) k y = update l k y.
Proof.
  revert k; induction l as [|z l IH]; intros [|k]; simpl; try reflexivity.
  f_equal. apply IH.
Qed.

Lemma nth_error_update_same {A : Type} (l : list A) (k : nat) (x y : A) :
  nth_error l k = Some x -> nth_error (update l k y) k = Some y.
Proof.
  revert k; induction l as [|z l IH]; intros [|k] H; simpl in *; try discriminate.
  - reflexivity.
  - apply IH. assumption.
Qed.

Lemma run_output (es : list event) (r : nat) (g : shared) :
  output_file (snd (run es r g)) = (output_file g ++ written es)%list.
Proof.
  revert r g; induction es as [|e es IH]; intros r g; simpl.
  - symmetry; apply app_nil_r.
  - pose proof (output_file_exec e r g) as He.
    destruct (exec e r g) as [r' g'] eqn:E. simpl in He.
    rewrite IH, He, <- app_assoc. reflexivity.
Qed.

Lemma console_exec (e : event) (r : nat) (g : shared) :
  console (snd (exec e r g)) = (console g ++ printed_event e)%list.
Proof.
  destruct e; simpl; try reflexivity; symmetry; apply app_nil_r.
Qed.

Lemma total_urls_exec (e : event) (r : nat) (g : shared) :
  total_urls (snd (exec e r g)) = total_urls g.
Proof. destruct e; reflexivity. Qed.

Lemma run_console (es : list event) (r : nat) (g : shared) :
  console (snd (run es r g)) = (console g ++ printed es)%list.
Proof.
  revert r g; induction es as [|e es IH]; intros r g; simpl.
  - symmetry; apply app_nil_r.
  - pose proof (console_exec e r g) as He.
    destruct (exec e r g) as [r' g'] eqn:E. simpl in He.
    rewrite IH, He, <- app_assoc. reflexivity.
Qed.

Lemma run_total_urls (es : list event) (r : nat) (g : shared) :
  total_urls (snd (run es r g)) = total_urls g.
Proof.
  revert r g; induction es as [|e es IH]; intros r g; simpl.
  - reflexivity.
  - pose proof (total_urls_exec e r g) as He.
    destruct (exec e r g) as [r' g'] eqn:E. simpl in He.
    rewrite IH, He. reflexivity.
Qed.

Lemma run_check_reflections (L : stdlib) (urls : list string) (r : nat) (g : shared) :
  processed_urls
    (snd (run (flat_map (fun url => fst (check_reflection L url)) urls) r g))
  = processed_urls g + List.length urls.
Proof.
  revert r g; induction urls as [|u urls IH]; intros r g; simpl.
  - lia.
  - rewrite run_app, IH, check_reflection_counts. lia.
Qed.

Lemma printed_saved (p : ParseResult) (names : list string) :
  printed (flat_map (saved p) names) = map MsgSaved (map (variant p) names).
Proof.
  induction names as [|n names IH]; simpl.
  - reflexivity.
  - f_equal. apply IH.
Qed.

Lemma printed_app (a b : list event) :
  printed (a ++ b) = (printed a ++ printed b)%list.
Proof. unfold printed. apply flat_map_app. Qed.

Lemma printed_check_reflection (L : stdlib) (url : string) :
  printed (fst (check_reflection L url)) = url_messages L url.
Proof.
  unfold url_messages, closing_msg.
  destruct (urlparse L url) as [p|e] eqn:E.
  - rewrite (check_reflection_parsed L url p E), (lines_parsed L url p E).
    cbn [fst]. rewrite printed_app, printed_saved. reflexivity.
  - rewrite (check_reflection_failed L url e E), (lines_failed L url e E).
    reflexivity.
Qed.

Lemma printed_check_reflections (L : stdlib) (urls : list string) :
  printed (flat_map (fun url => fst (check_reflection L url)) urls)
  = flat_map (url_messages L) urls.
Proof.
  induction urls as [|u urls IH]; simpl.
  - reflexivity.
  - rewrite printed_app, printed_check_reflection, IH. reflexivity.
Qed.

Lemma chunk_size_nonzero (n : nat) (threads : Z) :
  threads <> 0%Z -> exists cs, chunk_size n threads = Ok cs /\ 1 <= cs.
Proof.
  intros H. unfold chunk_size.
  destruct (Z.eqb_spec threads 0) as [E|E]; [contradiction|].
  eexists; split; [reflexivity|]. lia.
Qed.

Lemma finished_threads (ths : list thread) :
  (forall k th, nth_error ths k = Some th -> todo th = []) ->
  todo_events ths = [].
Proof.
  induction ths as [|th ths IH]; intros H; simpl.
  - reflexivity.
  - rewrite (H 0 th eq_refl). simpl. apply IH.
    intros k th' Hk. apply (H (S k) th'). assumption.
Qed.

Section OneWorker.
Variable L : stdlib.
Variable urls : list string.
Variable cs : nat.
Variable F : shared.

Lemma step_worker_count (s s' : state) :
  step L urls cs s s' -> worker_count s' = worker_count s.
Proof. intros H. unfold worker_count. apply (step_thread_count L urls cs s s' H). Qed.

Lemma step_sequential (s s' : state) :
  step L urls cs s s' ->
  joined s -> worker_count s <= 1 ->
  sequential_invariant L urls cs F s -> sequential_invariant L urls cs F s'.
Proof.
  intros Hs Hj Hc Hi.
  destruct Hs as [i pending ths g|ths g|t pending ths g th Hn Ht|ths g
                  |pc ths g k th e rest Hn Ht];
    unfold sequential_invariant, remaining, worker_count, joined in *;
    cbn [main thread_list globals] in *.
  - destruct ths as [|th ths]; [|simpl in Hc; lia].
    destruct pending as [|j pending]; [|simpl in Hc; lia].
    simpl in *. rewrite !app_nil_r in *. assumption.
  - simpl in *. assumption.
  - assumption.
  - destruct Hj as (j & Hp & Hdone).
    assert (Hlen : List.length ths - j = 0).
    { destruct (List.length ths - j); [reflexivity|discriminate]. }
    rewrite finished_threads in Hi.
    + simpl in Hi. subst g. reflexivity.
    + intros k th Hk. apply (Hdone k th); [|assumption].
      assert (k < List.length ths) by (apply nth_error_Some; congruence). lia.
  - assert (Hths : ths = [th] /\ k = 0).
    { destruct ths as [|th0 ths]; [destruct k; discriminate|].
      destruct ths as [|th1 ths]; [|simpl in Hc; lia].
      destruct k as [|k]; [simpl in Hn; split; congruence|].
      destruct k; discriminate. }
    destruct Hths as [-> ->].
    destruct pc as [pending|pending|].
    + destruct pending as [|j pending]; [|simpl in Hc; lia].
      simpl in *. rewrite Ht in Hi. simpl in Hi.
      destruct (exec e (reg th) g) as [r' g']. simpl. assumption.
    + simpl in *. rewrite Ht in Hi. simpl in Hi.
      destruct (exec e (reg th) g) as [r' g']. simpl. assumption.
    + inversion Hj as [|? ? Hd ?]; subst. congruence.
Qed.

Lemma steps_sequential (s s' : state) :
  steps L urls cs s s' ->
  joined s -> worker_count s <= 1 ->
  sequential_invariant L urls cs F s ->
  sequential_invariant L urls cs F s'.
Proof.
  intros H Hj Hc Hi.
  assert (G : joined s' /\ worker_count s' <= 1
              /\ sequential_invariant L urls cs F s').
  { induction H as [s|s1 s2 s3 H12 IH H23].
    - auto.
    - destruct (IH Hj Hc Hi) as (Hj2 & Hc2 & Hi2).
      split; [apply (step_joined L urls cs s2 s3 H23 Hj2)|].
      split; [rewrite (step_worker_count s2 s3 H23); assumption|].
      apply (step_sequential s2 s3 H23 Hj2 Hc2 Hi2). }
  apply G.
Qed.

End OneWorker.

Lemma one_chunk (urls : list string) (threads : Z) (cs : nat) :
  chunk_size (List.length urls) threads = Ok cs ->
  threads = 1%Z \/ List.length urls <= 1 ->
  List.length (chunks urls cs) <= 1.
Proof.
  intros Hcs Hone.
  pose proof (chunk_size_at_least_one _ _ _ Hcs) as Hpos.
  rewrite (chunks_length urls cs Hpos).
  assert (Hle : List.length urls <= cs).
  { destruct Hone as [-> | Hn]; [|lia].
    unfold chunk_size in Hcs. simpl in Hcs. injection Hcs as <-.
    rewrite Z.div_1_r. lia. }
  destruct (Nat.eq_dec (List.length urls) 0) as [E|E].
  - rewrite E. simpl. rewrite Nat.div_small; lia.
  - apply Nat.lt_succ_r. apply Nat.Div0.div_lt_upper_bound. lia.
Qed.

(** X3: with a single worker -- [threads] is 1, or there is at most one
    URL -- a run is sequential whatever the scheduling: when
    [process_urls] returns, the output file holds the lines of the URLs in
    the order of the input, the console shows for each URL in turn its
    [SAVED] messages and then its [INFO] or [ERROR] message, and last the
    summary, whose two counts are the number of URLs and the old value of
    [processed_urls] plus that number. *)
Theorem X3_one_worker_runs_in_order (L : stdlib) (urls : list string)
    (threads : Z) (g : shared) :
  threads <> 0%Z ->
  threads = 1%Z \/ List.length urls <= 1 ->
  exists cs s0,
    process_urls_start urls threads g = Ok (cs, s0)
    /\ List.length (chunks urls cs) <= 1
    /\ forall s,
         steps L urls cs s0 s -> main s = Returned ->
         output_file (globals s) = (output_file g ++ flat_map (lines L) urls)%list
         /\ console (globals s)
            = (console g ++ flat_map (url_messages L) urls
               ++ [MsgComplete (List.length urls)
                               (processed_urls g + List.length urls)])%list
         /\ total_urls (globals s) = List.length urls
         /\ processed_urls (globals s) = processed_urls g + List.length urls.
Proof.
  intros Hnz Hone.
  destruct (chunk_size_nonzero (List.length urls) threads Hnz) as (cs & Hcs & Hpos).
  pose proof (one_chunk urls threads cs Hcs Hone) as Hchunks.
  unfold process_urls_start. rewrite Hcs.
  eexists; eexists; split; [reflexivity|]. split; [assumption|].
  intros s Hsteps Hret.
  set (g0 := {| output_file := output_file g; console := console g;
                total_urls := List.length urls;
                processed_urls := processed_urls g |}) in *.
  set (E := flat_map (fun url => fst (check_reflection L url)) urls).
  pose proof (steps_sequential L urls cs (snd (run E 0 g0)) _ s Hsteps) as Hinv.
  unfold sequential_invariant in Hinv at 2. rewrite Hret in Hinv.
  rewrite Hinv.
  - cbn [exec snd output_file console total_urls processed_urls].
    rewrite run_output, run_console, run_total_urls.
    unfold E at 1 2. rewrite printed_check_reflections.
    unfold written. rewrite written_check_reflection.
    unfold E. rewrite run_check_reflections.
    subst g0. cbn [output_file console total_urls processed_urls].
    rewrite <- app_assoc. auto.
  - exact I.
  - unfold worker_count. cbn [main thread_list]. unfold chunks in Hchunks.
    rewrite length_map in Hchunks. simpl. assumption.
  - unfold sequential_invariant, remaining. cbn [main thread_list globals].
    rewrite (unstarted_all L urls cs Hpos). reflexivity.
Qed.

Lemma X3_one_worker_runs_in_order_witness :
  exists cs s0,
    process_urls_start ["http://h/p?a=1"; "http://h/p?b=2"] 1 empty_shared
    = Ok (cs, s0)
    /\ List.length (chunks ["http://h/p?a=1"; "http://h/p?b=2"] cs) <= 1.
Proof.
  destruct (X3_one_worker_runs_in_order ascii_stdlib
              ["http://h/p?a=1"; "http://h/p?b=2"] 1 empty_shared)
    as (cs & s0 & H & Hl & _).
  - lia.
  - left; reflexivity.
  - exists cs, s0. split; assumption.
Defined.

(** *** The output file of a run with several workers *)

Lemma written_worker (L : stdlib) (chunk : list string) :
  written (fst (worker L chunk)) = chunk_lines L chunk.
Proof.
  rewrite worker_events. cbn [fst]. unfold written, chunk_lines.
  apply written_check_reflection.
Qed.

Lemma pending_lines_start (L : stdlib) (urls : list string) (cs : nat) (g : shared) :
  pending_lines L urls cs
    {| main := Launching (range0 (List.length urls) cs);
       thread_list := []; globals := g |}
  = map (chunk_lines L) (chunks urls cs).
Proof.
  unfold pending_lines, chunks. cbn [main thread_list map app].
  rewrite map_map. apply map_ext. intros i. apply written_worker.
Qed.

Section Interleaving.
Variable L : stdlib.
Variable urls : list string.
Variable cs : nat.
Variable init : list (list string).
Variable out0 : list string.

Lemma step_merge (s s' : state) :
  step L urls cs s s' ->
  merge_invariant L urls cs init out0 s -> merge_invariant L urls cs init out0 s'.
Proof.
  intros Hs (done & Hout & Hm).
  destruct Hs as [i pending ths g|ths g|t pending ths g th Hn Ht|ths g
                  |pc ths g k th e rest Hn Ht];
    unfold merge_invariant, pending_lines in *;
    cbn [main thread_list globals] in *.
  - exists done. split; [assumption|]. intros m H. apply Hm.
    rewrite map_app, <- app_assoc in H. exact H.
  - exists done. split; [assumption|]. intros m H. apply Hm. exact H.
  - exists done. split; [assumption|]. intros m H. apply Hm. exact H.
  - exists done. split; [assumption|]. intros m H. apply Hm. exact H.
  - destruct (update_split ths k th
                {| reg := fst (exec e (reg th) g); todo := rest |} Hn)
      as (before & after & Hths & Hupd).
    rewrite Hupd. rewrite Hths in Hm. clear Hupd Hths.
    rewrite output_file_exec, Hout.
    rewrite !map_app in *. cbn [map todo] in *. rewrite Ht in Hm.
    rewrite <- !app_assoc in *. cbn [app] in *.
    destruct e as [x| | |]; cbn [written written_event flat_map app] in *.
    + exists (done ++ [x])%list. split; [rewrite app_assoc; reflexivity|].
      intros m H. rewrite <- app_assoc. cbn [app]. apply Hm.
      apply Merge_take. exact H.
    + exists done. split; [rewrite app_nil_r; reflexivity|]. exact Hm.
    + exists done. split; [rewrite app_nil_r; reflexivity|]. exact Hm.
    + exists done. split; [rewrite app_nil_r; reflexivity|]. exact Hm.
Qed.

Lemma steps_merge (s s' : state) :
  steps L urls cs s s' ->
  merge_invariant L urls cs init out0 s -> merge_invariant L urls cs init out0 s'.
Proof.
  intros H. induction H as [s|s1 s2 s3 H12 IH H23]; intros Hi.
  - assumption.
  - apply (step_merge s2 s3 H23). apply IH. assumption.
Qed.

Lemma returned_merge (s : state) :
  joined s -> main s = Returned ->
  merge_invariant L urls cs init out0 s ->
  exists m, output_file (globals s) = (out0 ++ m)%list /\ Merge init m.
Proof.
  intros Hj Hret (done & Hout & Hm).
  exists done. split; [assumption|].
  rewrite <- (app_nil_r done). apply Hm.
  apply Merge_done. unfold pending_lines. rewrite Hret, app_nil_r.
  unfold joined in Hj. rewrite Hret in Hj.
  apply Forall_map. eapply Forall_impl; [|exact Hj].
  intros th Hth. simpl in Hth. rewrite Hth. reflexivity.
Qed.

End Interleaving.

(** X4: when [process_urls] returns, what the run added to the output file
    is an interleaving of the workers' lines: the lines of each chunk stand
    in it in the order of the chunk's URLs, each URL's lines in the order
    of its parameters, and nothing else was written.  Only lines of
    different chunks can change places from one run to another. *)
Theorem X4_output_interleaves_the_chunks (L : stdlib) (urls : list string)
    (threads : Z) (g : shared) :
  threads <> 0%Z ->
  exists cs s0,
    process_urls_start urls threads g = Ok (cs, s0)
    /\ forall s,
         steps L urls cs s0 s -> main s = Returned ->
         exists m,
           output_file (globals s) = (output_file g ++ m)%list
           /\ Merge (map (chunk_lines L) (chunks urls cs)) m.
Proof.
  intros Hnz.
  destruct (chunk_size_nonzero (List.length urls) threads Hnz) as (cs & Hcs & Hpos).
  unfold process_urls_start. rewrite Hcs.
  eexists; eexists; split; [reflexivity|].
  intros s Hsteps Hret.
  apply (returned_merge L urls cs); [|assumption|].
  - apply (steps_joined L urls cs _ s Hsteps). exact I.
  - apply (steps_merge L urls cs _ _ _ s Hsteps).
    exists []. cbn [globals output_file]. split; [rewrite app_nil_r; reflexivity|].
    intros m H. rewrite pending_lines_start in H. exact H.
Qed.

Lemma X4_output_interleaves_the_chunks_witness :
  exists cs s0,
    process_urls_start ["http://h/p?a=1"; "http://h/p?b=2"] 2 empty_shared
    = Ok (cs, s0).
Proof.
  destruct (X4_output_interleaves_the_chunks ascii_stdlib
              ["http://h/p?a=1"; "http://h/p?b=2"] 2 empty_shared)
    as (cs & s0 & H & _).
  - lia.
  - exists cs, s0. assumption.
Defined.

(** *** The counter [processed_urls] and the summary *)

Lemma stores_app (a b : list event) : stores (a ++ b) = stores a + stores b.
Proof. unfold stores. rewrite filter_app, length_app. reflexivity. Qed.

Lemma stores_cons (e : event) (es : list event) :
  stores (e :: es) = (if is_store e then 1 else 0) + stores es.
Proof. unfold stores. simpl. destruct (is_store e); reflexivity. Qed.

Lemma stores_none (es : list event) :
  forallb (fun e => negb (is_store e)) es = true -> stores es = 0.
Proof.
  unfold stores. induction es as [|e es IH]; simpl; intros H.
  - reflexivity.
  - apply andb_true_iff in H. destruct H as [He H].
    destruct (is_store e); [discriminate|]. apply IH. assumption.
Qed.

Lemma stores_check_reflection (L : stdlib) (url : string) :
  stores (fst (check_reflection L url)) = 1.
Proof.
  destruct (urlparse L url) as [p|e] eqn:E.
  - rewrite (check_reflection_parsed L url p E). cbn [fst].
    rewrite stores_app, (stores_none _ (saved_no_store p _)). reflexivity.
  - rewrite (check_reflection_failed L url e E). reflexivity.
Qed.

Lemma stores_check_reflections (L : stdlib) (urls : list string) :
  stores (flat_map (fun url => fst (check_reflection L url)) urls)
  = List.length urls.
Proof.
  induction urls as [|u urls IH]; simpl.
  - reflexivity.
  - rewrite stores_app, stores_check_reflection, IH. reflexivity.
Qed.

Lemma guarded_saved (p : ParseResult) (names : list string) (es : list event) :
  guarded (flat_map (saved p) names ++ es) = guarded es.
Proof.
  induction names as [|n names IH]; simpl.
  - reflexivity.
  - apply IH.
Qed.

Lemma guarded_check_reflections (L : stdlib) (urls : list string) :
  guarded (flat_map (fun url => fst (check_reflection L url)) urls) = true.
Proof.
  destruct urls as [|u urls]; simpl.
  - reflexivity.
  - destruct (urlparse L u) as [p|e] eqn:E.
    + rewrite (check_reflection_parsed L u p E). cbn [fst].
      rewrite <- app_assoc, guarded_saved. reflexivity.
    + rewrite (check_reflection_failed L u e E). reflexivity.
Qed.

Lemma Forall_update {A : Type} (P Q : A -> Prop) (l : list A) (k : nat) (y : A) :
  Forall P l -> (forall z, P z -> Q z) -> Q y -> Forall Q (update l k y).
Proof.
  intros H Himp Hy. revert k.
  induction H as [|z l Hz H IH]; intros k; simpl.
  - constructor.
  - destruct k; constructor; auto.
    eapply Forall_impl; [|exact H]. exact Himp.
Qed.

Lemma Forall_nth_error {A : Type} (P : A -> Prop) (l : list A) (k : nat) (x : A) :
  Forall P l -> nth_error l k = Some x -> P x.
Proof.
  intros H Hn. apply (proj1 (Forall_forall P l) H). eapply nth_error_In; eassumption.
Qed.

Section Counter.
Variable L : stdlib.
Variable urls : list string.
Variable cs : nat.
Variables p0 n : nat.

Lemma remaining_thread (pc : main_pc) (ths : list thread) (g g' : shared)
    (k : nat) (th : thread) (e : event) (rest : list event) (r : nat) :
  nth_error ths k = Some th ->
  todo th = e :: rest ->
  stores (remaining L urls cs {| main := pc; thread_list := ths; globals := g |})
  = (if is_store e then 1 else 0)
    + stores (remaining L urls cs
                {| main := pc;
                   thread_list := update ths k {| reg := r; todo := rest |};
                   globals := g' |}).
Proof.
  intros Hn Ht.
  destruct (update_split ths k th {| reg := r; todo := rest |} Hn)
    as (before & after & Hths & Hupd).
  unfold remaining. cbn [main thread_list]. rewrite Hupd, Hths.
  unfold todo_events. rewrite !flat_map_app. cbn [flat_map todo]. rewrite Ht.
  rewrite !stores_app, stores_cons, ?stores_app. lia.
Qed.

Lemma remaining_start (i : nat) (pending : list nat) (ths : list thread)
    (g : shared) :
  remaining L urls cs
    {| main := Launching pending;
       thread_list :=
         (ths ++ [{| reg := 0;
                     todo := fst (worker L (slice urls i (i + cs))) |}])%list;
       globals := g |}
  = remaining L urls cs
      {| main := Launching (i :: pending); thread_list := ths; globals := g |}.
Proof.
  unfold remaining. cbn [main thread_list unstarted_events flat_map].
  unfold todo_events. rewrite flat_map_app. cbn [flat_map todo].
  rewrite app_nil_r, <- app_assoc. reflexivity.
Qed.

Lemma step_counter (s s' : state) :
  step L urls cs s s' ->
  joined s ->
  counter_invariant L urls cs p0 n s -> counter_invariant L urls cs p0 n s'.
Proof.
  intros Hs Hj (Hup & Hregs & Hlow & Hone & Hguard).
  destruct Hs as [i pending ths g|ths g|t pending ths g th Hn Ht|ths g
                  |pc ths g k th e rest Hn Ht];
    unfold counter_invariant in *.
  - rewrite remaining_start. cbn [globals thread_list] in *.
    repeat split; try assumption.
    + apply Forall_app. split; [assumption|].
      constructor; [|constructor]. cbn [reg]. lia.
    + apply Forall_app. split; [assumption|].
      constructor; [|constructor]. right. cbn [todo].
      rewrite worker_events. apply guarded_check_reflections.
  - repeat split; assumption.
  - repeat split; assumption.
  - repeat split; assumption.
  - pose proof (remaining_thread pc ths g (snd (exec e (reg th) g)) k th e rest
                  (fst (exec e (reg th) g)) Hn Ht) as Hc.
    cbn [globals thread_list] in *.
    set (c := stores (remaining L urls cs
                        {| main := pc; thread_list := ths; globals := g |})) in *.
    set (c' := stores (remaining L urls cs _)) in *.
    pose proof (Forall_nth_error _ _ _ _ Hregs Hn) as Hreg. cbn beta in Hreg.
    pose proof (Forall_nth_error _ _ _ _ Hguard Hn) as Hg. cbn beta in Hg.
    rewrite Ht in Hg.
    destruct e as [x|m| |]; cbn [is_store exec fst snd processed_urls] in *.
    + repeat split; try lia.
      * apply (Forall_update _ _ _ _ _ Hregs); cbn [reg]; intros; lia.
      * apply (Forall_update _ _ _ _ _ Hguard); cbn [reg todo]; auto.
    + repeat split; try lia.
      * apply (Forall_update _ _ _ _ _ Hregs); cbn [reg]; intros; lia.
      * apply (Forall_update _ _ _ _ _ Hguard); cbn [reg todo]; auto.
    + repeat split; try lia.
      * apply (Forall_update _ _ _ _ _ Hregs); cbn [reg]; intros; lia.
      * apply (Forall_update _ _ _ _ _ Hguard); cbn [reg todo]; auto.
    + assert (Hr : p0 <= reg th) by (destruct Hg as [Hg|Hg]; [assumption|discriminate]).
      repeat split; try lia.
      * apply (Forall_update _ _ _ _ _ Hregs); cbn [reg]; intros; lia.
      * apply (Forall_update _ _ _ _ _ Hguard); cbn [reg todo]; auto.
Qed.

Lemma steps_counter (s s' : state) :
  steps L urls cs s s' ->
  joined s ->
  counter_invariant L urls cs p0 n s -> counter_invariant L urls cs p0 n s'.
Proof.
  intros H Hj Hi.
  assert (G : joined s' /\ counter_invariant L urls cs p0 n s').
  { induction H as [s|s1 s2 s3 H12 IH H23].
    - auto.
    - destruct (IH Hj Hi) as (Hj2 & Hi2).
      split; [apply (step_joined L urls cs s2 s3 H23 Hj2)|].
      apply (step_counter s2 s3 H23 Hj2 Hi2). }
  apply G.
Qed.

Lemma step_summary (s s' : state) :
  step L urls cs s s' ->
  joined s -> summary_invariant n s -> summary_invariant n s'.
Proof.
  intros Hs Hj (Htot & Hlast).
  destruct Hs as [i pending ths g|ths g|t pending ths g th Hn Ht|ths g
                  |pc ths g k th e rest Hn Ht];
    unfold summary_invariant, joined in *; cbn [main globals thread_list] in *.
  - split; [assumption|discriminate].
  - split; [assumption|discriminate].
  - split; [assumption|discriminate].
  - split; [assumption|]. intros _. exists (console g).
    cbn [exec snd console processed_urls]. rewrite Htot. reflexivity.
  - rewrite total_urls_exec. split; [assumption|]. intros ->.
    pose proof (Forall_nth_error _ _ _ _ Hj Hn) as Hd. cbn beta in Hd. congruence.
Qed.

Lemma steps_summary (s s' : state) :
  steps L urls cs s s' ->
  joined s -> summary_invariant n s -> summary_invariant n s'.
Proof.
  intros H Hj Hi.
  assert (G : joined s' /\ summary_invariant n s').
  { induction H as [s|s1 s2 s3 H12 IH H23].
    - auto.
    - destruct (IH Hj Hi) as (Hj2 & Hi2).
      split; [apply (step_joined L urls cs s2 s3 H23 Hj2)|].
      apply (step_summary s2 s3 H23 Hj2 Hi2). }
  apply G.
Qed.

Lemma returned_is_final (s s' : state) :
  joined s -> main s = Returned -> ~ step L urls cs s s'.
Proof.
  intros Hj Hret Hs.
  destruct Hs as [i pending ths g|ths g|t pending ths g th Hn Ht|ths g
                  |pc ths g k th e rest Hn Ht];
    unfold joined in *; cbn [main thread_list] in *; try discriminate.
  subst pc. pose proof (Forall_nth_error _ _ _ _ Hj Hn) as Hd.
  cbn beta in Hd. congruence.
Qed.

Lemma returned_nothing_left (s : state) :
  joined s -> main s = Returned -> remaining L urls cs s = [].
Proof.
  intros Hj Hret. unfold remaining, joined in *. rewrite Hret in *.
  cbn [unstarted_events]. rewrite app_nil_r.
  apply finished_threads. intros k th Hk.
  apply (Forall_nth_error _ _ _ _ Hj Hk).
Qed.

End Counter.

(** X5: all along a run of [process_urls], whatever the scheduling, the
    counter [processed_urls] stays between its value at the start and that
    value plus the number of URLs; when [process_urls] returns with at
    least one URL, the counter is above its value at the start. *)
Theorem X5_counter_bounds (L : stdlib) (urls : list string) (threads : Z)
    (g : shared) :
  threads <> 0%Z ->
  exists cs s0,
    process_urls_start urls threads g = Ok (cs, s0)
    /\ forall s,
         steps L urls cs s0 s ->
         processed_urls g <= processed_urls (globals s)
                          <= processed_urls g + List.length urls
         /\ (main s = Returned -> 1 <= List.length urls ->
             processed_urls g + 1 <= processed_urls (globals s)).
Proof.
  intros Hnz.
  destruct (chunk_size_nonzero (List.length urls) threads Hnz) as (cs & Hcs & Hpos).
  unfold process_urls_start. rewrite Hcs.
  eexists; eexists; split; [reflexivity|].
  intros s Hsteps.
  pose proof (steps_joined L urls cs _ s Hsteps I) as Hj.
  pose proof (steps_counter L urls cs (processed_urls g) (List.length urls)
                _ s Hsteps I) as Hinv.
  destruct Hinv as (Hup & _ & Hlow & Hone & _).
  - unfold counter_invariant, remaining.
    cbn [main thread_list globals processed_urls todo_events flat_map app].
    rewrite (unstarted_all L urls cs Hpos), stores_check_reflections.
    repeat split; try lia; constructor.
  - split; [lia|]. intros Hret Hn. apply Hone.
    rewrite (returned_nothing_left L urls cs s Hj Hret). unfold stores. simpl. lia.
Qed.

Lemma X5_counter_bounds_witness :
  exists cs s0,
    process_urls_start ["http://h/p?a=1"; "http://h/p?b=2"] 2 empty_shared
    = Ok (cs, s0)
    /\ processed_urls (globals s0) <= 2.
Proof.
  destruct (X5_counter_bounds ascii_stdlib
              ["http://h/p?a=1"; "http://h/p?b=2"] 2 empty_shared)
    as (cs & s0 & H & Hb).
  - lia.
  - exists cs, s0. split; [assumption|].
    destruct (Hb s0 (steps_refl _ _ _ s0)) as [[_ Hle] _]. exact Hle.
Defined.

(** X6: all along a run of [process_urls], [total_urls] is the number of
    URLs; once [process_urls] has returned, the last message on the console
    is the summary, which shows that number and the counter as the workers
    left it, every worker is finished, and nothing runs any more. *)
Theorem X6_summary_closes_the_run (L : stdlib) (urls : list string)
    (threads : Z) (g : shared) :
  threads <> 0%Z ->
  exists cs s0,
    process_urls_start urls threads g = Ok (cs, s0)
    /\ forall s,
         steps L urls cs s0 s ->
         total_urls (globals s) = List.length urls
         /\ (main s = Returned ->
             (exists c,
                console (globals s)
                = (c ++ [MsgComplete (List.length urls)
                                     (processed_urls (globals s))])%list)
             /\ remaining L urls cs s = []
             /\ forall s', ~ step L urls cs s s').
Proof.
  intros Hnz.
  destruct (chunk_size_nonzero (List.length urls) threads Hnz) as (cs & Hcs & Hpos).
  unfold process_urls_start. rewrite Hcs.
  eexists; eexists; split; [reflexivity|].
  intros s Hsteps.
  pose proof (steps_joined L urls cs _ s Hsteps I) as Hj.
  destruct (steps_summary L urls cs (List.length urls) _ s Hsteps I) as (Htot & Hlast).
  - split; [reflexivity|discriminate].
  - split; [assumption|]. intros Hret.
    split; [apply Hlast; assumption|].
    split; [apply returned_nothing_left; assumption|].
    intros s'. apply returned_is_final; assumption.
Qed.

Lemma X6_summary_closes_the_run_witness :
  exists cs s0,
    process_urls_start ["http://h/p?a=1"; "http://h/p?b=2"] 2 empty_shared
    = Ok (cs, s0)
    /\ total_urls (globals s0) = 2.
Proof.
  destruct (X6_summary_closes_the_run ascii_stdlib
              ["http://h/p?a=1"; "http://h/p?b=2"] 2 empty_shared)
    as (cs & s0 & H & Hb).
  - lia.
  - exists cs, s0. split; [assumption|].
    destruct (Hb s0 (steps_refl _ _ _ s0)) as [Ht _]. exact Ht.
Defined.

(** *** A schedule that loses an update of the counter *)

Lemma check_reflection_split (L : stdlib) (url : string) :
  exists body,
    fst (check_reflection L url) = (body ++ [ELoadProcessed; EStoreProcessed])%list
    /\ forallb (fun e => negb (is_store e)) body = true.
Proof.
  destruct (urlparse L url) as [p|e] eqn:E.
  - rewrite (check_reflection_parsed L url p E). cbn [fst].
    exists (flat_map (saved p) (param_names (query p)) ++ [EPrint (MsgInfo url)])%list.
    split; [rewrite <- app_assoc; reflexivity|].
    rewrite forallb_app, saved_no_store. reflexivity.
  - rewrite (check_reflection_failed L url e E). cbn [fst].
    exists [EPrint (MsgError url e)]. split; reflexivity.
Qed.

Section Schedules.
Variable L : stdlib.
Variable urls : list string.
Variable cs : nat.

Lemma steps_one (s s' : state) : step L urls cs s s' -> steps L urls cs s s'.
Proof. intros H. eapply steps_step; [apply steps_refl|exact H]. Qed.

(** A started worker can perform any number of its next effects in a row. *)
Lemma thread_runs (es : list event) :
  forall pc ths g k th rest,
    nth_error ths k = Some th ->
    todo th = (es ++ rest)%list ->
    steps L urls cs
      {| main := pc; thread_list := ths; globals := g |}
      {| main := pc;
         thread_list :=
           update ths k {| reg := fst (run es (reg th) g); todo := rest |};
         globals := snd (run es (reg th) g) |}.
Proof.
  induction es as [|e es IH]; intros pc ths g k th rest Hn Ht.
  - cbn [run fst snd]. destruct th as [r t]. cbn [reg todo app] in *. subst t.
    rewrite (update_same ths k _ Hn). apply steps_refl.
  - cbn [run app] in *.
    pose proof (step_thread L urls cs pc ths g k th e (es ++ rest)%list Hn Ht) as Hs.
    destruct (exec e (reg th) g) as [r1 g1] eqn:E. cbn [fst snd] in Hs.
    pose proof (IH pc (update ths k {| reg := r1; todo := (es ++ rest)%list |}) g1 k
                  {| reg := r1; todo := (es ++ rest)%list |} rest
                  (nth_error_update_same ths k th _ Hn) eq_refl) as Hrun.
    rewrite update_update in Hrun. cbn [reg] in Hrun.
    eapply steps_trans; [apply steps_one; exact Hs|exact Hrun].
Qed.

End Schedules.

(** X7: the increment of [processed_urls] is a read and then a write, and
    nothing keeps the workers from interleaving them: with two URLs and two
    workers, whatever the URLs, there is a run of [process_urls] in which
    both URLs are handled and the counter has gone up by one only, so that
    the summary shows a total of 2 and one URL less as processed. *)
Theorem X7_an_update_can_be_lost (L : stdlib) (u1 u2 : string) (g : shared) :
  exists cs s0 s,
    process_urls_start [u1; u2] 2 g = Ok (cs, s0)
    /\ steps L [u1; u2] cs s0 s
    /\ main s = Returned
    /\ remaining L [u1; u2] cs s = []
    /\ total_urls (globals s) = 2
    /\ processed_urls (globals s) = processed_urls g + 1.
Proof.
  destruct (check_reflection_split L u1) as (body1 & Hev1 & Hbody1).
  set (g0 := {| output_file := output_file g; console := console g;
                total_urls := 2; processed_urls := processed_urls g |}).
  set (tA := fst (worker L (slice [u1; u2] 0 (0 + 1)))).
  set (tB := fst (worker L (slice [u1; u2] 1 (1 + 1)))).
  assert (HtA : tA = ((body1 ++ [ELoadProcessed]) ++ [EStoreProcessed])%list).
  { unfold tA. cbn [slice Nat.add Nat.sub skipn firstn].
    rewrite worker_events. cbn [fst flat_map]. rewrite app_nil_r, Hev1.
    rewrite <- app_assoc. reflexivity. }
  assert (HtB : tB = (fst (check_reflection L u2) ++ [])%list).
  { unfold tB. cbn [slice Nat.add Nat.sub skipn firstn].
    rewrite worker_events. reflexivity. }
  set (A := {| reg := 0; todo := tA |}).
  set (B := {| reg := 0; todo := tB |}).
  set (rA := fst (run (body1 ++ [ELoadProcessed]) 0 g0)).
  set (g1 := snd (run (body1 ++ [ELoadProcessed]) 0 g0)).
  set (A1 := {| reg := rA; todo := [EStoreProcessed] |}).
  set (rB := fst (run (fst (check_reflection L u2)) 0 g1)).
  set (g2 := snd (run (fst (check_reflection L u2)) 0 g1)).
  set (B1 := {| reg := rB; todo := [] |}).
  set (g3 := snd (run [EStoreProcessed] rA g2)).
  set (A2 := {| reg := fst (run [EStoreProcessed] rA g2); todo := [] |}).
  assert (HrA : rA = processed_urls g).
  { unfold rA. rewrite run_app. cbn [run exec fst].
    rewrite (run_keeps_counter body1 0 g0 Hbody1). reflexivity. }
  exists 1, {| main := Launching [0; 1]; thread_list := []; globals := g0 |},
         {| main := Returned; thread_list := [A2; B1];
            globals := snd (exec (EPrint (MsgComplete (total_urls g3)
                                                      (processed_urls g3))) 0 g3) |}.
  split; [reflexivity|]. split.
  - eapply steps_trans.
    { apply steps_one. apply step_start. }
    eapply steps_trans.
    { apply steps_one. apply step_start. }
    eapply steps_trans.
    { apply steps_one. apply step_started. }
    cbn [app List.length seq]. fold tA tB A B.
    eapply steps_trans.
    { apply (thread_runs L [u1; u2] 1 (body1 ++ [ELoadProcessed])
               (Joining [0; 1]) [A; B] g0 0 A [EStoreProcessed] eq_refl HtA). }
    cbn [update reg]. fold rA g1 A1.
    eapply steps_trans.
    { apply (thread_runs L [u1; u2] 1 (fst (check_reflection L u2))
               (Joining [0; 1]) [A1; B] g1 1 B [] eq_refl HtB). }
    cbn [update reg]. fold rB g2 B1.
    eapply steps_trans.
    { apply (thread_runs L [u1; u2] 1 [EStoreProcessed]
               (Joining [0; 1]) [A1; B1] g2 0 A1 [] eq_refl eq_refl). }
    cbn [update reg]. fold g3 A2.
    eapply steps_trans.
    { apply steps_one. apply (step_join L [u1; u2] 1 0 [1] [A2; B1] g3 A2); reflexivity. }
    eapply steps_trans.
    { apply steps_one. apply (step_join L [u1; u2] 1 1 [] [A2; B1] g3 B1); reflexivity. }
    apply steps_one. apply step_return.
  - split; [reflexivity|]. split; [reflexivity|].
    cbn [globals exec snd total_urls processed_urls].
    unfold g3. cbn [run exec snd total_urls processed_urls].
    split; [|lia].
    unfold g2. rewrite run_total_urls. unfold g1. rewrite run_total_urls.
    reflexivity.
Qed.

(** *** The effects of [check_reflection], and the [SAVED] messages *)

Lemma saved_save_effects (p : ParseResult) (names : list string) :
  flat_map (saved p) names = flat_map save_effects (map (variant p) names).
Proof.
  induction names as [|n names IH]; simpl.
  - reflexivity.
  - rewrite IH. reflexivity.
Qed.

(** X8: the effects of [check_reflection(url, output_file)] in the order
    they happen, when every append to the output file and every print
    succeeds, as the effects are modelled: for each line in turn the
    append and right after it the [SAVED] message that shows the same
    line; then one closing message, [INFO] for a URL that [urlparse]
    accepts and [ERROR] with the exception for one that it rejects; and
    last the read and the write of [processed_urls]. *)
Theorem X8_effects_of_check_reflection (L : stdlib) (url : string) :
  fst (check_reflection L url)
  = (flat_map save_effects (lines L url)
     ++ [EPrint (closing_msg L url); ELoadProcessed; EStoreProcessed])%list.
Proof.
  unfold closing_msg.
  destruct (urlparse L url) as [p|e] eqn:E.
  - rewrite (check_reflection_parsed L url p E), (lines_parsed L url p E).
    rewrite saved_save_effects. reflexivity.
  - rewrite (check_reflection_failed L url e E), (lines_failed L url e E).
    reflexivity.
Qed.

Lemma saved_urls_exec (e : event) (r : nat) (g : shared) :
  saved_urls (console (snd (exec e r g)))
  = (saved_urls (console g) ++ saved_event e)%list.
Proof.
  unfold saved_urls. rewrite console_exec, flat_map_app.
  destruct e; simpl; rewrite ?app_nil_r; reflexivity.
Qed.

Lemma saved_event_check_reflections (L : stdlib) (urls : list string) :
  flat_map saved_event (flat_map (fun url => fst (check_reflection L url)) urls)
  = flat_map (lines L) urls.
Proof.
  induction urls as [|u urls IH]; simpl.
  - reflexivity.
  - rewrite flat_map_app, IH. f_equal.
    destruct (urlparse L u) as [p|e] eqn:E.
    + rewrite (check_reflection_parsed L u p E), (lines_parsed L u p E).
      cbn [fst]. rewrite flat_map_app. simpl. rewrite app_nil_r.
      generalize (param_names (query p)) as names.
      induction names as [|n names IHn]; simpl; [reflexivity|].
      rewrite IHn. reflexivity.
    + rewrite (check_reflection_failed L u e E), (lines_failed L u e E).
      reflexivity.
Qed.

(** X9: when [process_urls] returns, the [SAVED] messages the run has
    printed show the lines it has appended to the output file, each line as
    many times as it was written: the console and the file agree, up to the
    order in which the workers got to print and to write. *)
Theorem X9_saved_messages_match_the_file (L : stdlib) (urls : list string)
    (threads : Z) (g : shared) :
  threads <> 0%Z ->
  exists cs s0,
    process_urls_start urls threads g = Ok (cs, s0)
    /\ forall s,
         steps L urls cs s0 s -> main s = Returned ->
         exists written_lines,
           output_file (globals s) = (output_file g ++ written_lines)%list
           /\ Permutation (saved_urls (console (globals s)))
                          (saved_urls (console g) ++ written_lines).
Proof.
  intros Hnz.
  destruct (chunk_size_nonzero (List.length urls) threads Hnz) as (cs & Hcs & Hpos).
  unfold process_urls_start. rewrite Hcs.
  eexists; eexists; split; [reflexivity|].
  intros s Hsteps Hret.
  pose proof (steps_joined L urls cs _ s Hsteps I) as Hj.
  pose proof (steps_observable L urls cs saved_event
                (fun g => saved_urls (console g)) saved_urls_exec
                (fun a b => eq_refl) _ s Hsteps) as Hsaved.
  rewrite (returned_observable L urls cs saved_event _ s Hj Hret) in Hsaved.
  unfold observable in Hsaved.
  cbn [main thread_list globals console todo_events flat_map app] in Hsaved.
  rewrite (unstarted_all L urls cs Hpos), saved_event_check_reflections in Hsaved.
  pose proof (steps_observable L urls cs written_event output_file output_file_exec
                (fun a b => eq_refl) _ s Hsteps) as Hout.
  rewrite (returned_observable L urls cs written_event _ s Hj Hret) in Hout.
  unfold observable in Hout.
  cbn [main thread_list globals output_file todo_events flat_map app] in Hout.
  rewrite (unstarted_all L urls cs Hpos), written_check_reflection in Hout.
  destruct (steps_merge L urls cs (map (chunk_lines L) (chunks urls cs))
              (output_file g) _ s Hsteps) as (done & Hdone & _).
  { exists []. cbn [globals output_file]. split; [rewrite app_nil_r; reflexivity|].
    intros m H. rewrite pending_lines_start in H. exact H. }
  exists done. split; [assumption|].
  rewrite Hdone in Hout. apply Permutation_app_inv_l in Hout.
  rewrite <- Hsaved. apply Permutation_app_head. assumption.
Qed.

Lemma X9_saved_messages_match_the_file_witness :
  exists cs s0,
    process_urls_start ["http://h/p?a=1"; "http://h/p?b=2"] 2 empty_shared
    = Ok (cs, s0).
Proof.
  destruct (X9_saved_messages_match_the_file ascii_stdlib
              ["http://h/p?a=1"; "http://h/p?b=2"] 2 empty_shared)
    as (cs & s0 & H & _).
  - lia.
  - exists cs, s0. assumption.
Defined.

(** *** URLs that pass the parsing steps *)

Lemma isascii_app (a b : string) : isascii (a ++ b) = isascii a && isascii b.
Proof.
  induction a as [|c a IH]; simpl.
  - reflexivity.
  - rewrite IH. apply andb_assoc.
Qed.

Lemma isascii_replace (c : ascii) (s : string) :
  isascii s = true -> isascii (replace c "" s) = true.
Proof.
  induction s as [|a s IH]; simpl; intros H.
  - reflexivity.
  - apply andb_true_iff in H. destruct H as [Ha Hs].
    destruct (Ascii.eqb a c); simpl.
    + apply IH. assumption.
    + rewrite Ha. apply IH. assumption.
Qed.

Lemma isascii_lstrip (s : string) :
  isascii s = true -> isascii (lstrip_c0_space s) = true.
Proof.
  induction s as [|a s IH]; simpl; intros H.
  - reflexivity.
  - destruct (between 0 32 a); [|exact H].
    apply andb_true_iff in H. apply IH. apply H.
Qed.

Lemma isascii_drop (n : nat) (s : string) :
  isascii s = true -> isascii (drop n s) = true.
Proof.
  revert s; induction n as [|n IH]; intros s H.
  - destruct s; exact H.
  - destruct s as [|a s]; [exact H|]. simpl in *.
    apply andb_true_iff in H. apply IH. apply H.
Qed.

Lemma isascii_sanitize (url : string) :
  isascii url = true -> isascii (sanitize url) = true.
Proof.
  intros H. unfold sanitize.
  repeat apply isascii_replace. apply isascii_lstrip. assumption.
Qed.

Lemma isascii_split_scheme (url : string) :
  isascii url = true -> isascii (snd (split_scheme url)) = true.
Proof.
  intros H. destruct (split_scheme_cases url) as [E|(pre & rest & Hu & _ & E)];
    rewrite E; cbn [snd].
  - assumption.
  - rewrite Hu, isascii_app in H. apply andb_true_iff in H.
    destruct H as [_ H]. simpl in H. exact H.
Qed.

Lemma isascii_until_delim (s : string) :
  isascii s = true -> isascii (fst (until_delim s)) = true.
Proof.
  intros H. destruct (until_delim_spec s) as [Hs _].
  rewrite Hs, isascii_app in H. apply andb_true_iff in H. apply H.
Qed.

Lemma split_netloc_plain (L : stdlib) (url : string) :
  contains "[" url = false -> contains "]" url = false ->
  isascii url = true ->
  exists nl rest,
    split_netloc L url = Ok (nl, rest) /\ isascii nl = true.
Proof.
  intros Ho Hc Ha. unfold split_netloc, _splitnetloc2.
  destruct (startswith "//" url).
  - pose proof (until_delim_contains "[" (drop 2 url) (drop_contains _ 2 _ Ho)) as [Ho' _].
    pose proof (until_delim_contains "]" (drop 2 url) (drop_contains _ 2 _ Hc)) as [Hc' _].
    pose proof (isascii_until_delim (drop 2 url) (isascii_drop 2 _ Ha)) as Ha'.
    destruct (until_delim (drop 2 url)) as [n r]. cbn [fst] in *.
    rewrite Ho', Hc'. simpl. exists n, r. auto.
  - exists "", url. auto.
Qed.

Lemma urlparse_plain (L : stdlib) (url : string) :
  contains "[" url = false -> contains "]" url = false ->
  isascii url = true ->
  exists p, urlparse L url = Ok p.
Proof.
  intros Ho Hc Ha. unfold urlparse, urlsplit.
  pose proof (sanitize_spec url) as [_ Hsan].
  pose proof (split_scheme_spec (sanitize url)) as [_ Hsch].
  pose proof (isascii_split_scheme _ (isascii_sanitize _ Ha)) as Ha2.
  pose proof (Hsch _ (Hsan _ Ho)) as Ho2.
  pose proof (Hsch _ (Hsan _ Hc)) as Hc2.
  destruct (split_scheme (sanitize url)) as [sch u2]. cbn [snd] in *.
  destruct (split_netloc_plain L u2 Ho2 Hc2 Ha2) as (nl & rest & Hnl & Hanl).
  rewrite Hnl.
  destruct (split_fragment rest) as [u3 fr].
  destruct (split_query u3) as [pa qu].
  unfold _checknetloc. rewrite Hanl, orb_true_r.
  destruct (if mem sch uses_params && contains ";" pa
            then _splitparams pa else (pa, "")) as [pa' pr].
  eexists. reflexivity.
Qed.

Lemma error_urls_exec (e : event) (r : nat) (g : shared) :
  error_urls (console (snd (exec e r g)))
  = (error_urls (console g) ++ error_event e)%list.
Proof.
  unfold error_urls. rewrite console_exec, flat_map_app.
  destruct e; simpl; rewrite ?app_nil_r; reflexivity.
Qed.

Lemma error_event_saved (p : ParseResult) (names : list string) :
  flat_map error_event (flat_map (saved p) names) = [].
Proof. induction names as [|n names IH]; [reflexivity|exact IH]. Qed.

Lemma error_event_bracket_free (L : stdlib) (urls : list string) :
  Forall bracket_free urls ->
  flat_map error_event (flat_map (fun url => fst (check_reflection L url)) urls)
  = [].
Proof.
  intros H. induction H as [|u urls (Ho & Hc & Ha) _ IH]; [reflexivity|].
  cbn [flat_map]. rewrite flat_map_app, IH, app_nil_r.
  destruct (urlparse_plain L u Ho Hc Ha) as (p & E).
  rewrite (check_reflection_parsed L u p E). cbn [fst].
  rewrite flat_map_app, error_event_saved. reflexivity.
Qed.

(** X10: URLs of ASCII characters without square brackets pass the
    parsing steps of [check_reflection]: [urlparse] accepts each of them,
    whatever else it is -- a word, an empty string, a path -- and the
    parameter map is built.  So, when every append and every print
    succeeds, as the effects are modelled, each of them is given at least
    one line, and a run of [process_urls] over such URLs has printed no
    [ERROR] message when it returns: for these URLs an [ERROR] message can
    only come from a failed append or print. *)
Theorem X10_bracket_free_urls_are_parsed (L : stdlib) (urls : list string)
    (threads : Z) (g : shared) :
  Forall bracket_free urls ->
  threads <> 0%Z ->
  Forall (fun url =>
            (exists p d,
                urlparse L url = Ok p
                /\ build_original_params (query p) = Ok d
                /\ lines L url = map (line_for p d) (Dict.keys d))
            /\ lines L url <> [])
         urls
  /\ exists cs s0,
       process_urls_start urls threads g = Ok (cs, s0)
       /\ forall s,
            steps L urls cs s0 s -> main s = Returned ->
            Permutation (error_urls (console (globals s)))
                        (error_urls (console g)).
Proof.
  intros Hplain Hnz. split.
  - eapply Forall_impl; [|exact Hplain].
    intros url (Ho & Hc & Ha).
    destruct (urlparse_plain L url Ho Hc Ha) as (p & E).
    split; [|apply (parsed_url_emits_a_line L url p E)].
    exists p, (original (query p)).
    split; [assumption|]. split; [apply build_original_params_ok|].
    apply (lines_by_dict L url p _ E (build_original_params_ok _)).
  - destruct (chunk_size_nonzero (List.length urls) threads Hnz) as (cs & Hcs & Hpos).
    unfold process_urls_start. rewrite Hcs.
    eexists; eexists; split; [reflexivity|].
    intros s Hsteps Hret.
    pose proof (steps_joined L urls cs _ s Hsteps I) as Hj.
    pose proof (steps_observable L urls cs error_event
                  (fun g => error_urls (console g)) error_urls_exec
                  (fun a b => eq_refl) _ s Hsteps) as Herr.
    rewrite (returned_observable L urls cs error_event _ s Hj Hret) in Herr.
    unfold observable in Herr.
    cbn [main thread_list globals console todo_events flat_map app] in Herr.
    rewrite (unstarted_all L urls cs Hpos),
            (error_event_bracket_free L urls Hplain), app_nil_r in Herr.
    symmetry. exact Herr.
Qed.

Lemma X10_bracket_free_urls_are_parsed_witness :
  lines ascii_stdlib "not a url" <> []
  /\ exists cs s0,
       process_urls_start ["not a url"; "http://h/p?a=1"] 2 empty_shared
       = Ok (cs, s0).
Proof.
  destruct (X10_bracket_free_urls_are_parsed ascii_stdlib
              ["not a url"; "http://h/p?a=1"] 2 empty_shared)
    as (Hurls & cs & s0 & Hstart & _).
  - repeat constructor.
  - lia.
  - split.
    + inversion Hurls as [|? ? [_ Hl] _]. exact Hl.
    + exists cs, s0. exact Hstart.
Defined.

(** *** [save_reflected_url] and the values it is given *)







(** *** Lines that stay on one line *)

Lemma split_contains (d c : ascii) (s : string) :
  contains d s = false -> Forall (fun w => contains d w = false) (split c s).
Proof.
  induction s as [|a s IH]; cbn [contains split]; intros H.
  - constructor; [reflexivity|constructor].
  - apply orb_false_iff in H. destruct H as [Ha Hs].
    specialize (IH Hs).
    destruct (Ascii.eqb a c).
    + constructor; [reflexivity|assumption].
    + destruct (split c s) as [|w ws].
      * constructor; [cbn [contains append]; rewrite Ha; reflexivity|constructor].
      * inversion IH as [|? ? Hw Hws]; subst.
        constructor; [cbn [contains append]; rewrite Ha, Hw; reflexivity|assumption].
Qed.

Lemma replace_by_contains (d c : ascii) (by_ s : string) :
  contains d by_ = false -> contains d s = false ->
  contains d (replace c by_ s) = false.
Proof.
  intros Hb. induction s as [|a s IH]; cbn [contains replace]; intros H.
  - reflexivity.
  - apply orb_false_iff in H. destruct H as [Ha Hs].
    destruct (Ascii.eqb a c).
    + rewrite contains_app, Hb, (IH Hs). reflexivity.
    + cbn [contains append]. rewrite Ha, (IH Hs). reflexivity.
Qed.

Lemma join_contains (d : ascii) (sep : string) (l : list string) :
  contains d sep = false ->
  Forall (fun w => contains d w = false) l ->
  contains d (join sep l) = false.
Proof.
  intros Hsep H. induction H as [|w l Hw Hl IH]; [reflexivity|].
  cbn [join]. destruct l as [|w' l]; [assumption|].
  rewrite !contains_app, Hw, Hsep, IH. reflexivity.
Qed.

Lemma unquote_absent (s : string) : contains "%" s = false -> unquote s = s.
Proof. intros H. unfold unquote. rewrite H. reflexivity. Qed.

Lemma decoded_contains (d : ascii) (s : string) :
  Ascii.eqb " " d = false ->
  contains "%" s = false -> contains d s = false ->
  contains d (unquote (replace "+" " " s)) = false.
Proof.
  intros Hsp Hpc Hd. rewrite unquote_absent.
  - apply replace_by_contains; [cbn [contains append]; rewrite Hsp; reflexivity|assumption].
  - apply replace_by_contains; [reflexivity|assumption].
Qed.

Lemma parse_qsl_contains (d : ascii) (q k v : string) :
  Ascii.eqb " " d = false ->
  contains "%" q = false -> contains d q = false ->
  In (k, v) (parse_qsl q) ->
  contains d k = false /\ contains d v = false.
Proof.
  intros Hsp Hpc Hd Hin. rewrite parse_qsl_segments in Hin.
  apply in_flat_map in Hin. destruct Hin as (nv & Hnv & Hin).
  pose proof (proj1 (Forall_forall _ _) (split_contains "%" "&" q Hpc) nv Hnv) as Hpnv.
  pose proof (proj1 (Forall_forall _ _) (split_contains d "&" q Hd) nv Hnv) as Hdnv.
  cbn beta in Hpnv, Hdnv.
  destruct (String.eqb nv ""); [contradiction|].
  unfold split1 in Hin.
  pose proof (partition_contains "%" "=" nv Hpnv) as [Hp1 Hp2].
  pose proof (partition_contains d "=" nv Hdnv) as [Hd1 Hd2].
  destruct (partition "=" nv) as [[b f] r]. cbn [fst snd] in *.
  destruct f; [|contradiction].
  destruct (negb (String.eqb r "")); [|contradiction].
  destruct Hin as [Heq|[]]. injection Heq as <- <-.
  split; apply decoded_contains; assumption.
Qed.

Lemma blank_keys_contains (d : ascii) (q k : string) :
  contains d q = false -> In k (blank_keys q) -> contains d k = false.
Proof.
  intros Hd Hin. unfold blank_keys in Hin.
  apply in_flat_map in Hin. destruct Hin as (param & Hparam & Hin).
  pose proof (proj1 (Forall_forall _ _) (split_contains d "&" q Hd) param Hparam) as Hp.
  cbn beta in Hp.
  pose proof (split_contains d "=" param Hp) as Hs.
  destruct (split "=" param) as [|key [|v rest]]; [contradiction| |].
  - destruct Hin as [<-|[]]. inversion Hs; assumption.
  - destruct v; [|contradiction].
    destruct Hin as [<-|[]]. inversion Hs; assumption.
Qed.

Lemma param_names_contains (d : ascii) (q k : string) :
  Ascii.eqb " " d = false ->
  contains "%" q = false -> contains d q = false ->
  In k (param_names q) -> contains d k = false.
Proof.
  intros Hsp Hpc Hd Hin. unfold param_names in Hin.
  apply (proj1 (dedup_In _ _)) in Hin. apply in_app_or in Hin. destruct Hin as [Hin|Hin].
  - apply in_map_iff in Hin. destruct Hin as ([k' v] & <- & Hin).
    apply (parse_qsl_contains d q k' v Hsp Hpc Hd Hin).
  - apply (blank_keys_contains d q k Hd Hin).
Qed.

Lemma param_value_contains (d : ascii) (q k : string) :
  Ascii.eqb " " d = false ->
  contains "%" q = false -> contains d q = false ->
  contains d (param_value q k) = false.
Proof.
  intros Hsp Hpc Hd. unfold param_value.
  destruct (mem k (blank_keys q)); [reflexivity|].
  unfold values_of.
  destruct (map snd (filter (fun nv => String.eqb (fst nv) k) (parse_qsl q)))
    as [|v vs] eqn:E; [reflexivity|].
  cbn [hd].
  assert (Hin : In v (map snd (filter (fun nv => String.eqb (fst nv) k) (parse_qsl q)))).
  { rewrite E. left. reflexivity. }
  apply in_map_iff in Hin. destruct Hin as ([k' v'] & <- & Hin).
  apply filter_In in Hin. destruct Hin as [Hin _].
  apply (parse_qsl_contains d q k' v' Hsp Hpc Hd Hin).
Qed.

Lemma serialise_contains (d : ascii) (pairs : list (string * string)) :
  contains d "&=" = false ->
  Forall (fun kv => contains d (fst kv) = false /\ contains d (snd kv) = false) pairs ->
  contains d (serialise pairs) = false.
Proof.
  intros Hsep H. cbn [contains] in Hsep.
  apply orb_false_iff in Hsep. destruct Hsep as [Hamp Heq].
  unfold serialise. apply join_contains; [cbn [contains append]; rewrite Hamp; reflexivity|].
  apply Forall_map. eapply Forall_impl; [|exact H].
  intros [k v] [Hk Hv]. cbn [fst snd] in *.
  rewrite !contains_app, Hk, Hv. cbn [contains append]. rewrite Heq. reflexivity.
Qed.

Lemma variant_query_contains (d : ascii) (q name : string) :
  Ascii.eqb " " d = false ->
  contains d "&=" = false -> contains d payload = false ->
  contains "%" q = false -> contains d q = false ->
  contains d (serialise (with_payload name (param_map q))) = false.
Proof.
  intros Hsp Hsep Hpl Hpc Hd. apply serialise_contains; [assumption|].
  unfold with_payload, param_map. rewrite map_map.
  apply Forall_forall. intros kv Hin.
  apply in_map_iff in Hin. destruct Hin as (k & <- & Hk).
  pose proof (param_names_contains d q k Hsp Hpc Hd Hk) as Hkd.
  destruct (String.eqb k name); cbn [fst snd]; split; try assumption.
  apply param_value_contains; assumption.
Qed.

Lemma unsplit_hierarchy_contains (d : ascii) (sch nl url : string) :
  contains d "/:" = false ->
  contains d sch = false -> contains d nl = false -> contains d url = false ->
  contains d (unsplit_hierarchy sch nl url) = false.
Proof.
  intros Hsep Hs Hn Hu. cbn [contains] in Hsep.
  apply orb_false_iff in Hsep. destruct Hsep as [Hsl Hco].
  rewrite orb_false_r in Hco.
  unfold unsplit_hierarchy.
  repeat match goal with
         | |- context [if ?c then _ else _] => destruct c
         end;
    rewrite ?contains_app; cbn [contains];
    rewrite ?Hsl, ?Hco, ?Hs, ?Hn, ?Hu; reflexivity.
Qed.

Lemma urlunparse_contains (d : ascii) (p : ParseResult) :
  contains d "/:;?#" = false ->
  contains d (scheme p) = false -> contains d (netloc p) = false ->
  contains d (path p) = false -> contains d (params p) = false ->
  contains d (query p) = false -> contains d (fragment p) = false ->
  contains d (urlunparse p) = false.
Proof.
  intros Hsep Hs Hn Hp Hpr Hq Hf. cbn [contains] in Hsep.
  apply orb_false_iff in Hsep. destruct Hsep as [Hsl Hsep].
  apply orb_false_iff in Hsep. destruct Hsep as [Hco Hsep].
  apply orb_false_iff in Hsep. destruct Hsep as [Hse Hsep].
  apply orb_false_iff in Hsep. destruct Hsep as [Hqu Hha].
  rewrite orb_false_r in Hha.
  unfold urlunparse, urlunsplit.
  assert (Hu : contains d (if negb (String.eqb (params p) "")
                           then path p ++ ";" ++ params p else path p) = false).
  { destruct (negb (String.eqb (params p) "")); [|assumption].
    rewrite !contains_app, Hp, Hpr. cbn [contains]. rewrite Hse. reflexivity. }
  assert (Hsep' : contains d "/:" = false).
  { cbn [contains]. rewrite Hsl, Hco. reflexivity. }
  pose proof (unsplit_hierarchy_contains d (scheme p) (netloc p) _ Hsep' Hs Hn Hu) as Hh.
  destruct (negb (String.eqb (query p) "")), (negb (String.eqb (fragment p) ""));
    rewrite ?contains_app; cbn [contains];
    rewrite ?Hh, ?Hq, ?Hf, ?Hqu, ?Hha; reflexivity.
Qed.

Lemma urlsplit_contains (L : stdlib) (d : ascii) (url sch nl pa qu fr : string) :
  urlsplit L url = Ok (sch, nl, pa, qu, fr) ->
  scheme_char d = false ->
  contains d (sanitize url) = false ->
  contains d sch = false /\ contains d nl = false /\ contains d pa = false
  /\ contains d qu = false /\ contains d fr = false.
Proof.
  intros H Hd Hu.
  destruct (urlsplit_stages _ _ _ _ _ _ _ H) as [u2 [u3 [E1 [E2 [E3 E4]]]]].
  pose proof (split_scheme_spec (sanitize url)) as [_ Hu2].
  rewrite E1 in Hu2. cbn [snd] in Hu2. specialize (Hu2 d Hu).
  assert (Hsch : contains d sch = false).
  { destruct (split_scheme_cases (sanitize url)) as [E|(pre & rest & _ & Hpre & E)];
      rewrite E in E1; injection E1 as <- _.
    - reflexivity.
    - apply lower_scheme_contains; assumption. }
  pose proof (split_netloc_spec _ _ _ _ E2) as [_ Hu3].
  assert (Hnl : contains d nl = false /\ contains d u3 = false).
  { destruct Hu3 as [[_ Heq]|[_ [-> ->]]]; [|split; [reflexivity|assumption]].
    pose proof (until_delim_contains d (drop 2 u2) (drop_contains d 2 u2 Hu2)) as Hr.
    rewrite <- Heq in Hr. exact Hr. }
  destruct Hnl as [Hnl Hu3d].
  pose proof (split_fragment_spec u3) as [_ Hf]. specialize (Hf d Hu3d).
  destruct Hf as [Hf1 Hf2]. rewrite E3 in Hf2. cbn [snd] in Hf2.
  pose proof (split_query_spec (fst (split_fragment u3))) as [_ Hq].
  specialize (Hq d Hf1). rewrite E4 in Hq. cbn [fst snd] in Hq.
  destruct Hq as [Hpa Hqu]. auto.
Qed.

Lemma urlparse_contains (L : stdlib) (d : ascii) (url : string) (p : ParseResult) :
  urlparse L url = Ok p ->
  scheme_char d = false -> Ascii.eqb "/" d = false ->
  contains d (sanitize url) = false ->
  contains d (scheme p) = false /\ contains d (netloc p) = false
  /\ contains d (path p) = false /\ contains d (params p) = false
  /\ contains d (query p) = false /\ contains d (fragment p) = false.
Proof.
  unfold urlparse. intros H Hd Hsl Hu.
  destruct (urlsplit L url) as [[[[[sch nl] pa] qu] fr]|e] eqn:E; [|discriminate].
  destruct (urlsplit_contains _ d _ _ _ _ _ _ E Hd Hu) as (Hs & Hn & Hp & Hq & Hf).
  destruct (mem sch uses_params && contains ";" pa).
  - pose proof (splitparams_contains d pa Hp Hsl) as [H1 H2].
    destruct (_splitparams pa) as [u pr]. injection H as <-. cbn in *. auto 10.
  - injection H as <-. cbn. auto 10.
Qed.

Lemma line_contains (L : stdlib) (d : ascii) (url line : string) (p : ParseResult) :
  urlparse L url = Ok p ->
  scheme_char d = false ->
  contains d "/:;?#&= " = false ->
  contains d payload = false ->
  contains d (sanitize url) = false ->
  contains "%" (query p) = false ->
  In line (lines L url) ->
  contains d line = false.
Proof.
  intros E Hd Hsep Hpl Hu Hpc Hin.
  rewrite (lines_parsed L url p E) in Hin.
  apply in_map_iff in Hin. destruct Hin as (name & <- & _).
  cbn [contains] in Hsep.
  apply orb_false_iff in Hsep. destruct Hsep as [H1 Hsep].
  apply orb_false_iff in Hsep. destruct Hsep as [H2 Hsep].
  apply orb_false_iff in Hsep. destruct Hsep as [H3 Hsep].
  apply orb_false_iff in Hsep. destruct Hsep as [H4 Hsep].
  apply orb_false_iff in Hsep. destruct Hsep as [H5 Hsep].
  apply orb_false_iff in Hsep. destruct Hsep as [H6 Hsep].
  apply orb_false_iff in Hsep. destruct Hsep as [H7 H8].
  rewrite orb_false_r in H8.
  destruct (urlparse_contains L d url p E Hd H1 Hu) as (Hs & Hn & Hp & Hpr & Hq & Hf).
  unfold variant. apply urlunparse_contains; cbn [replace_query scheme netloc path
    params query fragment]; try assumption.
  - cbn [contains]. rewrite H1, H2, H3, H4, H5. reflexivity.
  - apply variant_query_contains; try assumption.
    cbn [contains]. rewrite H6, H7. reflexivity.
Qed.

(** X13: a generated line holds no tab, carriage return or line feed, and
    so stays on one line of the output file, as long as the query string of
    the URL has no percent sign: [urlsplit] removes the three characters
    from the URL, and only a decoded percent escape can bring one back. *)
Theorem X13_lines_stay_on_one_line (L : stdlib) (url line : string)
    (p : ParseResult) :
  urlparse L url = Ok p ->
  contains "%" (query p) = false ->
  In line (lines L url) ->
  no_unsafe line.
Proof.
  intros E Hpc Hin.
  pose proof (sanitize_spec url) as [(Ht & Hr & Hn) _].
  unfold no_unsafe. repeat split.
  - apply (line_contains L "009" url line p E); auto.
  - apply (line_contains L "013" url line p E); auto.
  - apply (line_contains L "010" url line p E); auto.
Qed.

Lemma X13_lines_stay_on_one_line_witness :
  no_unsafe "http://h/p?a={payload}&b=2".
Proof.
  apply (X13_lines_stay_on_one_line ascii_stdlib "http://h/p?a=1&b=2"
           "http://h/p?a={payload}&b=2"
           {| scheme := "http"; netloc := "h"; path := "/p"; params := "";
              query := "a=1&b=2"; fragment := "" |}).
  - reflexivity.
  - reflexivity.
  - vm_compute. left. reflexivity.
Defined.

(** With a percent escape it does happen: the value [%0A] of a parameter
    that is not the target is decoded and written as a line feed. *)
Example line_feed_from_an_escape :
  exists line,
    In line (lines ascii_stdlib "http://h/p?a=%0A&b=1")
    /\ contains "010" line = true.
Proof.
  eexists. split.
  - vm_compute. right. left. reflexivity.
  - vm_compute. reflexivity.
Qed.



(** *** The URLs [main] reads from the file *)

Lemma lstrip_unfold (s : string) :
  lstrip s = match space_prefix s with
             | Some r => lstrip r
             | None => s
             end.
Proof.
  destruct s as [|a [|b [|c s3]]]; cbn [lstrip space_prefix]; try reflexivity.
  - destruct (is_space a); reflexivity.
  - destruct (is_space a); [reflexivity|]. destruct (is_space2 a b); reflexivity.
  - destruct (is_space a); [reflexivity|]. destruct (is_space2 a b); [reflexivity|].
    destruct (is_space3 a b c); reflexivity.
Qed.

Lemma space_prefix_split (s r : string) :
  space_prefix s = Some r ->
  exists w, s = w ++ r /\ space_prefix w = Some "" /\ String.length r < String.length s.
Proof.
  destruct s as [|a s1]; cbn [space_prefix]; [discriminate|].
  destruct (is_space a) eqn:Ea.
  - intros H. injection H as <-. exists (String a "").
    cbn [append space_prefix String.length]. rewrite Ea. repeat split; lia.
  - destruct s1 as [|b s2]; [discriminate|].
    destruct (is_space2 a b) eqn:Eb.
    + intros H. injection H as <-. exists (String a (String b "")).
      cbn [append space_prefix String.length]. rewrite Ea, Eb. repeat split; lia.
    + destruct s2 as [|c s3]; [discriminate|].
      destruct (is_space3 a b c) eqn:Ec; [|discriminate].
      intros H. injection H as <-. exists (String a (String b (String c ""))).
      cbn [append space_prefix String.length]. rewrite Ea, Eb, Ec. repeat split; lia.
Qed.

Lemma space_prefix_app (x r w : string) :
  space_prefix x = Some r -> space_prefix (x ++ w) = Some (r ++ w).
Proof.
  destruct x as [|a x1]; cbn [space_prefix append]; [discriminate|].
  destruct (is_space a).
  - intros H. injection H as <-. reflexivity.
  - destruct x1 as [|b x2]; [discriminate|]. cbn [append].
    destruct (is_space2 a b).
    + intros H. injection H as <-. reflexivity.
    + destruct x2 as [|c x3]; [discriminate|]. cbn [append].
      destruct (is_space3 a b c); [|discriminate].
      intros H. injection H as <-. reflexivity.
Qed.

Lemma by_length (P : string -> Prop) :
  (forall s, (forall r, String.length r < String.length s -> P r) -> P s) ->
  forall s, P s.
Proof.
  intros H s.
  assert (G : forall n r, String.length r < n -> P r).
  { induction n as [|n IH]; intros r Hr; [lia|].
    apply H. intros r' Hr'. apply IH. lia. }
  apply (G (S (String.length s))). lia.
Qed.

Lemma lstrip_settled (s : string) : space_prefix (lstrip s) = None.
Proof.
  induction s as [s IH] using by_length.
  rewrite lstrip_unfold. destruct (space_prefix s) as [r|] eqn:E.
  - destruct (space_prefix_split s r E) as (_ & _ & _ & Hlen). apply IH, Hlen.
  - exact E.
Qed.

Lemma lstrip_idem (s : string) : lstrip (lstrip s) = lstrip s.
Proof. rewrite (lstrip_unfold (lstrip s)), lstrip_settled. reflexivity. Qed.

Lemma lstrip_blank_app (x w : string) :
  blank x = true -> lstrip (x ++ w) = lstrip w.
Proof.
  induction x as [x IH] using by_length. unfold blank in *. intros Hx.
  rewrite lstrip_unfold in Hx.
  destruct (space_prefix x) as [r|] eqn:E.
  - rewrite (lstrip_unfold (x ++ w)), (space_prefix_app x r w E).
    destruct (space_prefix_split x r E) as (_ & _ & _ & Hlen).
    apply IH; assumption.
  - apply String.eqb_eq in Hx. subst x. reflexivity.
Qed.

Lemma blank_app (x w : string) :
  blank x = true -> blank w = true -> blank (x ++ w) = true.
Proof.
  intros Hx Hw. unfold blank. rewrite (lstrip_blank_app x w Hx). exact Hw.
Qed.

Lemma lstrip_split (s : string) :
  exists w, s = w ++ lstrip s /\ blank w = true.
Proof.
  induction s as [s IH] using by_length.
  rewrite lstrip_unfold. destruct (space_prefix s) as [r|] eqn:E.
  - destruct (space_prefix_split s r E) as (w0 & Hs & Hw0 & Hlen).
    destruct (IH r Hlen) as (w1 & Hr & Hw1).
    exists (w0 ++ w1). split.
    + rewrite append_assoc, <- Hr. exact Hs.
    + apply blank_app; [|assumption].
      unfold blank. rewrite lstrip_unfold, Hw0. reflexivity.
  - exists "". split; reflexivity.
Qed.

Lemma rstrip_split (t : string) :
  exists w, t = rstrip t ++ w /\ blank w = true.
Proof.
  induction t as [|a t IH].
  - exists "". split; reflexivity.
  - cbn [rstrip]. destruct (blank (String a t)) eqn:E.
    + exists (String a t). split; [reflexivity|assumption].
    + destruct IH as (w & Ht & Hw). exists w. split; [|assumption].
      cbn [append]. rewrite <- Ht. reflexivity.
Qed.

Lemma rstrip_empty (t : string) : rstrip t = "" <-> blank t = true.
Proof.
  destruct t as [|a t]; cbn [rstrip].
  - split; reflexivity.
  - destruct (blank (String a t)); split; try reflexivity; discriminate.
Qed.

Lemma rstrip_idem (t : string) : rstrip (rstrip t) = rstrip t.
Proof.
  induction t as [|a t IH]; [reflexivity|].
  cbn [rstrip]. destruct (blank (String a t)) eqn:E; [reflexivity|].
  cbn [rstrip]. rewrite IH.
  destruct (blank (String a (rstrip t))) eqn:E'; [|reflexivity].
  destruct (rstrip_split t) as (w & Ht & Hw).
  assert (Hb : blank (String a (rstrip t) ++ w) = true) by (apply blank_app; assumption).
  cbn [append] in Hb. rewrite <- Ht in Hb. congruence.
Qed.

Lemma rstrip_settled (t : string) :
  space_prefix t = None -> space_prefix (rstrip t) = None.
Proof.
  intros H. destruct (space_prefix (rstrip t)) as [r|] eqn:E; [|reflexivity].
  destruct (rstrip_split t) as (w & Ht & _).
  pose proof (space_prefix_app (rstrip t) r w E) as H'.
  rewrite <- Ht in H'. congruence.
Qed.

Lemma strip_idem (s : string) : strip (strip s) = strip s.
Proof.
  unfold strip.
  rewrite (lstrip_unfold (rstrip (lstrip s))).
  rewrite (rstrip_settled _ (lstrip_settled s)).
  apply rstrip_idem.
Qed.

Lemma strip_empty (s : string) : strip s = "" <-> blank s = true.
Proof.
  unfold strip. rewrite rstrip_empty. unfold blank. rewrite lstrip_idem.
  reflexivity.
Qed.

Lemma strip_split (s : string) :
  exists w1 w2, s = w1 ++ strip s ++ w2 /\ blank w1 = true /\ blank w2 = true.
Proof.
  destruct (lstrip_split s) as (w1 & Hs & Hw1).
  destruct (rstrip_split (lstrip s)) as (w2 & Ht & Hw2).
  exists w1, w2. unfold strip. rewrite <- Ht. auto.
Qed.

(** X14: the URLs [main] reads from the file.  A line gives a URL unless
    it is made of white space only; the URL is the line without the white
    space at both ends, so it is not empty and neither starts nor ends
    with white space -- the line's end of line is gone; the URLs come in
    the order of their lines; and reading again what was read changes
    nothing. *)
Theorem X14_urls_read_from_the_file (file_lines : list string) :
  read_urls file_lines
  = map strip (filter (fun line => negb (blank line)) file_lines)
  /\ (forall url,
        In url (read_urls file_lines) ->
        url <> "" /\ strip url = url
        /\ space_prefix url = None
        /\ exists line w1 w2,
             In line file_lines /\ line = w1 ++ url ++ w2
             /\ blank w1 = true /\ blank w2 = true)
  /\ read_urls (read_urls file_lines) = read_urls file_lines.
Proof.
  assert (Hfilter : forall l,
             filter (fun line => negb (String.eqb (strip line) "")) l
             = filter (fun line => negb (blank line)) l).
  { intros l. apply filter_ext. intros line. f_equal.
    destruct (String.eqb_spec (strip line) "") as [E|E].
    - symmetry. apply strip_empty. assumption.
    - destruct (blank line) eqn:B; [|reflexivity].
      exfalso. apply E. apply strip_empty. assumption. }
  assert (Hurl : forall url, In url (read_urls file_lines) ->
                             url <> "" /\ strip url = url).
  { intros url Hin. unfold read_urls in Hin.
    apply in_map_iff in Hin. destruct Hin as (line & <- & Hin).
    apply filter_In in Hin. destruct Hin as [_ Hne].
    split; [|apply strip_idem].
    intros E. rewrite E in Hne. discriminate. }
  split; [unfold read_urls; rewrite Hfilter; reflexivity|]. split.
  - intros url Hin. destruct (Hurl url Hin) as [Hne Hid].
    split; [assumption|]. split; [assumption|]. split.
    + rewrite <- Hid. unfold strip. apply rstrip_settled, lstrip_settled.
    + unfold read_urls in Hin.
      apply in_map_iff in Hin. destruct Hin as (line & <- & Hin).
      apply filter_In in Hin. destruct Hin as [Hin _].
      destruct (strip_split line) as (w1 & w2 & Hs & Hw1 & Hw2).
      exists line, w1, w2. auto.
  - revert Hurl. generalize (read_urls file_lines) as urls.
    induction urls as [|u urls IH]; intros Hurl; [reflexivity|].
    destruct (Hurl u (or_introl eq_refl)) as [Hne Hid].
    unfold read_urls in *. cbn [filter]. rewrite Hid.
    destruct (String.eqb_spec u "") as [E|_]; [contradiction|].
    cbn [negb map]. rewrite Hid. f_equal.
    apply IH. intros url Hin. apply Hurl. right. assumption.
Qed.

(** *** The shape of a generated line *)

Lemma urlunparse_query (p : ParseResult) (q : string) :
  q <> "" ->
  urlunparse (replace_query p q)
  = unsplit_hierarchy (scheme p) (netloc p) (path_with_params p)
    ++ "?" ++ q ++ fragment_suffix p.
Proof.
  intros Hq. apply String.eqb_neq in Hq.
  unfold urlunparse, urlunsplit, path_with_params, fragment_suffix.
  cbn [replace_query scheme netloc path params query fragment].
  rewrite Hq. cbn [negb].
  destruct (negb (String.eqb (fragment p) "")).
  - rewrite !append_assoc. reflexivity.
  - rewrite (append_nil q). reflexivity.
Qed.

Lemma join_segment (seg : string) (l : list string) :
  In seg l ->
  exists before after,
    join "&" l = before ++ seg ++ after
    /\ (before = "" \/ exists b, before = b ++ "&")
    /\ (after = "" \/ exists a, after = "&" ++ a).
Proof.
  induction l as [|x l IH]; intros Hin; [contradiction|].
  destruct Hin as [->|Hin].
  - exists "". cbn [join]. destruct l as [|y l].
    + exists "". rewrite append_nil. auto.
    + exists ("&" ++ join "&" (y :: l)). split; [reflexivity|]. eauto.
  - destruct (IH Hin) as (b & a & Hj & Hb & Ha).
    destruct l as [|y l]; [contradiction|].
    exists (x ++ "&" ++ b), a. split; [|split; [right|assumption]].
    + change (join "&" (x :: y :: l)) with (x ++ "&" ++ join "&" (y :: l)).
      rewrite Hj, !append_assoc. reflexivity.
    + destruct Hb as [->|(b' & ->)].
      * exists x. reflexivity.
      * exists (x ++ "&" ++ b'). rewrite !append_assoc. reflexivity.
Qed.

Lemma set_not_nil {V : Type} (d : Dict.dict V) (k : string) (v : V) :
  Dict.set d k v <> [].
Proof.
  destruct d as [|[k' v'] d]; simpl; [discriminate|].
  destruct (String.eqb k' k); discriminate.
Qed.

Lemma render_not_empty (kv : string * pyval) : render kv <> "".
Proof.
  destruct kv as [k [l|v]]; cbn [render]; destruct k; discriminate.
Qed.

Lemma line_query_not_empty (d : Dict.dict pyval) (name : string) :
  line_query d name <> "".
Proof.
  unfold line_query, Dict.items.
  pose proof (set_not_nil d name (PStr payload)) as Hne.
  destruct (Dict.set d name (PStr payload)) as [|kv d']; [congruence|].
  cbn [map]. apply join_cons_not_empty, render_not_empty.
Qed.

(** X15: the shape of the lines of one URL.  Each line is what stands
    before the query string of the URL as [urlunparse] writes it (scheme,
    network location, path and parameters of the path), then [?] and the
    query string built for the targeted name, then the fragment of the URL
    if it has one: the lines of one URL differ in the query string only.
    That query string is never empty and holds [name={payload}] as one of
    its segments between [&]. *)
Theorem X15_shape_of_a_line (L : stdlib) (url : string) (p : ParseResult) :
  urlparse L url = Ok p ->
  exists d,
    build_original_params (query p) = Ok d
    /\ lines L url
       = map (fun name =>
                unsplit_hierarchy (scheme p) (netloc p) (path_with_params p)
                ++ "?" ++ line_query d name ++ fragment_suffix p)
             (Dict.keys d)
    /\ forall name,
         line_query d name <> ""
         /\ exists before after,
              line_query d name = before ++ (name ++ "=" ++ payload) ++ after
              /\ (before = "" \/ exists b, before = b ++ "&")
              /\ (after = "" \/ exists a, after = "&" ++ a).
Proof.
  intros E. exists (original (query p)).
  split; [apply build_original_params_ok|]. split.
  - rewrite (lines_by_dict L url p _ E (build_original_params_ok _)).
    apply map_ext. intros name. unfold line_for.
    apply urlunparse_query, line_query_not_empty.
  - intros name. split; [apply line_query_not_empty|].
    unfold line_query, Dict.items. apply join_segment.
    change (name ++ "=" ++ payload) with (render (name, PStr payload)).
    apply in_map. apply in_set_same.
Qed.

Lemma X15_shape_of_a_line_witness :
  lines ascii_stdlib "http://h/p;x?a=1#f"
  = ["http://h/p;x?a={payload}#f"].
Proof.
  destruct (X15_shape_of_a_line ascii_stdlib "http://h/p;x?a=1#f"
              {| scheme := "http"; netloc := "h"; path := "/p"; params := "x";
                 query := "a=1"; fragment := "f" |} eq_refl)
    as (d & Hd & Hl & _).
  rewrite Hl. vm_compute in Hd. injection Hd as <-. reflexivity.
Defined.

(** *** Termination *)

Lemma steps_count_steps (L : stdlib) (urls : list string) (cs n : nat)
    (s s' : state) :
  steps_count L urls cs n s s' -> steps L urls cs s s'.
Proof.
  intros H. induction H as [s|n s1 s2 s3 H12 IH H23].
  - apply steps_refl.
  - eapply steps_step; eassumption.
Qed.

Lemma steps_count_fuel (L : stdlib) (urls : list string) (cs n : nat)
    (s s' : state) :
  steps_count L urls cs n s s' ->
  n + fuel_left L urls cs s' <= fuel_left L urls cs s.
Proof.
  intros H. induction H as [s|n s1 s2 s3 H12 IH H23].
  - lia.
  - pose proof (step_fuel_left L urls cs s2 s3 H23). lia.
Qed.

Lemma check_reflection_length (L : stdlib) (url : string) :
  List.length (fst (check_reflection L url)) = effect_count L url.
Proof.
  unfold effect_count.
  destruct (urlparse L url) as [p|e] eqn:E.
  - rewrite (check_reflection_parsed L url p E), (lines_parsed L url p E).
    cbn [fst]. rewrite length_app, length_map. cbn [List.length].
    assert (H : forall names,
               List.length (flat_map (saved p) names) = 2 * List.length names).
    { induction names as [|n names IH]; [reflexivity|].
      cbn [flat_map saved app List.length]. rewrite IH. lia. }
    rewrite H. lia.
  - rewrite (check_reflection_failed L url e E), (lines_failed L url e E).
    reflexivity.
Qed.

Lemma check_reflections_length (L : stdlib) (urls : list string) :
  List.length (flat_map (fun url => fst (check_reflection L url)) urls)
  = list_sum (map (effect_count L) urls).
Proof.
  induction urls as [|u urls IH]; [reflexivity|].
  cbn [flat_map map list_sum]. rewrite length_app, check_reflection_length, IH.
  reflexivity.
Qed.

(** X16: [process_urls] terminates under every scheduling, for any worker
    count other than 0.  A run cannot take more steps than the effects of
    the URLs -- two for each line, and three more for each URL -- plus two
    for each worker and two for the main thread; and as long as
    [process_urls] has not returned, some thread can take a step: the
    workers never block, and the main thread waits only for a worker that
    still runs. *)
Theorem X16_every_run_terminates (L : stdlib) (urls : list string)
    (threads : Z) (g : shared) :
  threads <> 0%Z ->
  exists cs s0,
    process_urls_start urls threads g = Ok (cs, s0)
    /\ forall n s,
         steps_count L urls cs n s0 s ->
         n <= list_sum (map (effect_count L) urls)
              + 2 * List.length (chunks urls cs) + 2
         /\ (main s <> Returned -> exists s', step L urls cs s s').
Proof.
  intros Hnz.
  destruct (chunk_size_nonzero (List.length urls) threads Hnz) as (cs & Hcs & Hpos).
  unfold process_urls_start. rewrite Hcs.
  eexists; eexists; split; [reflexivity|].
  intros n s Hn. split.
  - pose proof (steps_count_fuel L urls cs n _ s Hn) as Hfuel.
    unfold fuel_left at 2 in Hfuel.
    cbn [main thread_list todo_events flat_map List.length] in Hfuel.
    rewrite (unstarted_all L urls cs Hpos), check_reflections_length in Hfuel.
    unfold chunks. rewrite length_map. lia.
  - apply joined_progress.
    apply (steps_joined L urls cs _ s (steps_count_steps L urls cs n _ s Hn)).
    exact I.
Qed.

Lemma X16_every_run_terminates_witness :
  exists cs s0,
    process_urls_start ["http://h/p?a=1"; "http://h/p?b=2"] 2 empty_shared
    = Ok (cs, s0)
    /\ exists s', step ascii_stdlib ["http://h/p?a=1"; "http://h/p?b=2"] cs s0 s'.
Proof.
  destruct (X16_every_run_terminates ascii_stdlib
              ["http://h/p?a=1"; "http://h/p?b=2"] 2 empty_shared)
    as (cs & s0 & H & Hb).
  - lia.
  - exists cs, s0. split; [assumption|].
    destruct (Hb 0 s0 (steps_count_O _ _ _ s0)) as [_ Hp].
    apply Hp. unfold process_urls_start in H. simpl in H.
    injection H as <- <-. discriminate.
Defined.

(** *** What an interleaving is *)

(** An interleaving of [ls] holds the elements of the lists of [ls], each
    as many times as they do. *)
Lemma Merge_permutation {A : Type} (ls : list (list A)) (m : list A) :
  Merge ls m -> Permutation (List.concat ls) m.
Proof.
  intros H. induction H as [ls Hnil|before x l after m H IH].
  - induction Hnil as [|l ls Hl Hls IHls]; cbn [List.concat]; [constructor|].
    rewrite Hl. exact IHls.
  - rewrite concat_app in IH. rewrite concat_app.
    cbn [List.concat app] in *.
    symmetry. apply Permutation_cons_app. symmetry. exact IH.
Qed.

(** The interleavings of a single list: the list itself. *)
Lemma Merge_single {A : Type} (l m : list A) : Merge [l] m -> m = l.
Proof.
  intros H. remember [l] as ls eqn:E. revert l E.
  induction H as [ls Hnil|before x l' after m H IH]; intros l E.
  - subst ls. inversion Hnil; subst. reflexivity.
  - destruct before as [|b before].
    + cbn [app] in E. injection E as <- ->. f_equal. apply IH. reflexivity.
    + destruct before; cbn [app] in E; discriminate E.
Qed.

End Extras.
